(** * apfsck B-tree engine: a shallow embedding of [apfsck/btree.c]

    The development follows the source file top to bottom: machine integers
    and the error discipline first, then the node reader, the record
    locator, the in-node search, the tree descender, the object map lookup
    and the subtree validator.  Theorems come after the definitions.  The
    two computations of [mkapfs/super.c] that do not depend on the layout of
    the superblock (the volume limit and the packed ephemeral info) follow
    the machine integers.

    What is modelled and how:
    - C integers are [Z] with the conversions to [int] and to unsigned
      written out where a value can leave the range of its type;
    - a mapped block is the list of its bytes, the device a finite map from
      block numbers to blocks;
    - [exit(1)] after a diagnostic is the outcome [Fatal]; the functions
      that return an [int] and update a query through a pointer return the
      pair of the result and the updated query;
    - the two loops without a bound of their own in the source (the
      bisection and the [goto next_node] descent) and the recursion of the
      validator take fuel;
    - releasing memory ([free], [munmap], [node_free], [free_query]) has no
      effect on what the functions compute and is left out.  [node_free]
      keeps a node that carries the root flag and releases any other; a
      run that goes back to a released node (a table whose root lacks the
      root flag, looked up a second time) is outside the C semantics, and
      the theorems say nothing of what the program does there;
    - the device is a finite map from block numbers to blocks; the source
      maps the file at the offset [block * blocksize], computed in 64
      bits, so the block numbers meant are those whose offset does not
      wrap. *)

From Stdlib Require Import ZArith Lia String.
From stdpp Require Import base option list gmap strings.

Local Open Scope string_scope.
Local Open Scope list_scope.
Local Open Scope Z_scope.

(** ** Machine integers

    C [int] is 32 bits wide, two's complement; [u32] is its unsigned
    counterpart.  Conversions wrap around. *)

Definition to_int (z : Z) : Z := (z + 2 ^ 31) mod 2 ^ 32 - 2 ^ 31.
Definition to_u32 (z : Z) : Z := z mod 2 ^ 32.

(** Modelled from the spec: the header defining the macro is not among the
    sources.  [DIV_ROUND_UP(n, d)] is [((n) + (d) - 1) / (d)], here on
    [int]; C division truncates toward zero. *)
Definition DIV_ROUND_UP (n d : Z) : Z := Z.quot (to_int (to_int (n + d) - 1)) d.

(** ** mkapfs: sizing a new container

    [u64] arithmetic wraps at 2^64.  The same macro applied to a [u64]
    first operand computes in [u64]; unsigned division rounds down. *)

Definition to_u64 (z : Z) : Z := z mod 2 ^ 64.

Definition DIV_ROUND_UP_u64 (n d : Z) : Z := to_u64 (to_u64 (n + d) - 1) / d.

(** [get_max_volumes].  The limit [APFS_NX_MAX_FILE_SYSTEMS] is defined in a
    header that is not among the sources; it is the first argument.  The
    quotient is stored in a [u32] before it is compared with the limit. *)
Definition get_max_volumes (max_file_systems size : Z) : Z :=
  let max_vols := to_u32 (DIV_ROUND_UP_u64 size (512 * 1024 * 1024)) in
  if max_vols >? max_file_systems then max_file_systems else max_vols.

(** [set_ephemeral_info]: the 64-bit word stored in the first entry of the
    array.  The three constants ([APFS_NX_EPH_MIN_BLOCK_COUNT],
    [APFS_NX_MAX_FILE_SYSTEM_EPH_STRUCTS], [APFS_NX_EPH_INFO_VERSION_1])
    come from the same header and are arguments; the first is widened to
    [u64] before the shift, the second is shifted as an [int]. *)
Definition set_ephemeral_info (min_block_count max_eph_structs version : Z) : Z :=
  to_u64 (Z.lor (Z.lor (to_u64 (Z.shiftl min_block_count 32))
                       (to_int (Z.shiftl max_eph_structs 16)))
                version).

(** ** Process outcomes

    Every integrity violation prints a diagnostic and calls [exit(1)]:
    [Fatal] carries the diagnostic.  [Timeout] is the model running out of
    fuel in one of the loops that the source does not bound. *)

Inductive outcome (A : Type) : Type :=
| Ret (a : A)
| Fatal (msg : string)
| Timeout.

Arguments Ret {A} a.
Arguments Fatal {A} msg.
Arguments Timeout {A}.

#[global] Instance outcome_ret : MRet outcome := fun A a => Ret a.

#[global] Instance outcome_bind : MBind outcome := fun A B k m =>
  match m with
  | Ret a => k a
  | Fatal msg => Fatal msg
  | Timeout => Timeout
  end.

(** A call to a collaborator that returns or exits with a diagnostic. *)
Definition call {A : Type} (r : string + A) : outcome A :=
  match r with
  | inl msg => Fatal msg
  | inr a => Ret a
  end.

(** Return codes of the query functions ([errno.h]). *)
Definition ENODATA : Z := 61.
Definition EAGAIN : Z := 11.

(** ** Raw blocks

    A mapped block is a sequence of bytes.  Reads are little-endian.  A read
    outside the mapping is outside the C semantics (the process is killed
    there); here it yields zero bytes.  What is proved of the locators'
    results is proved for nodes whose table of contents lies inside the
    block, where no such read is made. *)

Definition byte_at (raw : list Z) (off : Z) : Z :=
  if off <? 0 then 0 else default 0 (raw !! Z.to_nat off) mod 256.

Definition le16_to_cpu (raw : list Z) (off : Z) : Z :=
  byte_at raw off + 256 * byte_at raw (off + 1).

Definition le32_to_cpu (raw : list Z) (off : Z) : Z :=
  le16_to_cpu raw off + 65536 * le16_to_cpu raw (off + 2).

Definition le64_to_cpu (raw : list Z) (off : Z) : Z :=
  le32_to_cpu raw off + 4294967296 * le32_to_cpu raw (off + 4).

(** ** On-disk layout

    Modelled from the spec: the headers declaring the on-disk structures
    (object header, [struct apfs_btree_node_phys], the table entries, the
    root footer and the omap value) are not among the sources.  The spec
    gives their fields and sizes; the offsets below follow its field
    order with the object header taking the first 32 bytes. *)

Definition o_oid_off : Z := 8.
Definition btn_flags_off : Z := 32.
Definition btn_nkeys_off : Z := 36.
Definition btn_table_space_off : Z := 40.
Definition btn_free_space_off : Z := 44.
Definition btn_data_off : Z := 56.

Definition sizeof_btree_node_phys : Z := 56.
Definition sizeof_btree_info : Z := 40.
Definition sizeof_kvoff : Z := 4.
Definition sizeof_kvloc : Z := 8.
Definition sizeof_omap_val : Z := 16.
Definition ov_paddr_off : Z := 8.

Definition APFS_BTNODE_ROOT : Z := 1.
Definition APFS_BTNODE_LEAF : Z := 2.
Definition APFS_BTNODE_FIXED_KV_SIZE : Z := 4.

(** ** In-memory structures *)

Record object := mkObject {
  block_nr : Z;
  oid : Z
}.

(** [struct node].  Modelled from the spec: [btree.h] is not among the
    sources.  [node_flags] holds 16 bits and [node_records] the 32-bit
    unsigned count, as read from disk; the area offsets are [int]. *)
Record node := mkNode {
  node_flags : Z;
  node_records : Z;
  node_key : Z;
  node_free : Z;
  node_data : Z;
  node_raw : list Z;
  node_object : object
}.

(** [struct key]: Modelled from the spec, which lists the fields of a
    decoded key; [key.h] is not among the sources. *)
Record key := mkKey {
  key_id : Z;
  key_type : Z;
  key_number : Z;
  key_name : option string
}.

Definition flag_set (flags bit : Z) : bool := negb (Z.land flags bit =? 0).

Definition node_is_root (n : node) : bool := flag_set (node_flags n) APFS_BTNODE_ROOT.
Definition node_is_leaf (n : node) : bool := flag_set (node_flags n) APFS_BTNODE_LEAF.
Definition node_has_fixed_kv_size (n : node) : bool :=
  flag_set (node_flags n) APFS_BTNODE_FIXED_KV_SIZE.

(** Flags of a query.  Modelled from the spec: [btree.h] is not among the
    sources; the spec names the flags (tree flavour, exact, multiple and the
    cursor states NEXT and DONE), each a bit of its own. *)
Definition QUERY_TREE_MASK : Z := 7.
Definition QUERY_OMAP : Z := 1.
Definition QUERY_CAT : Z := 2.
Definition QUERY_MULTIPLE : Z := 8.
Definition QUERY_NEXT : Z := 16.
Definition QUERY_EXACT : Z := 32.
Definition QUERY_DONE : Z := 64.

(** [struct query] (also from [btree.h]).  The parent link makes the
    ancestry chain a list; the cursor fields and the depth are [int]. *)
#[warnings="-register-all"]
Inductive query := mkQuery {
  query_node : node;
  query_key : key;
  query_parent : option query;
  query_flags : Z;
  query_index : Z;
  query_key_off : Z;
  query_key_len : Z;
  query_off : Z;
  query_len : Z;
  query_depth : Z
}.

Definition with_index (q : query) (i : Z) : query :=
  mkQuery (query_node q) (query_key q) (query_parent q) (query_flags q) i
          (query_key_off q) (query_key_len q) (query_off q) (query_len q) (query_depth q).

Definition with_key_loc (q : query) (len off : Z) : query :=
  mkQuery (query_node q) (query_key q) (query_parent q) (query_flags q) (query_index q)
          off len (query_off q) (query_len q) (query_depth q).

Definition with_data_loc (q : query) (len off : Z) : query :=
  mkQuery (query_node q) (query_key q) (query_parent q) (query_flags q) (query_index q)
          (query_key_off q) (query_key_len q) off len (query_depth q).

Definition with_flags (q : query) (f : Z) : query :=
  mkQuery (query_node q) (query_key q) (query_parent q) f (query_index q)
          (query_key_off q) (query_key_len q) (query_off q) (query_len q) (query_depth q).

Definition with_key (q : query) (k : key) : query :=
  mkQuery (query_node q) k (query_parent q) (query_flags q) (query_index q)
          (query_key_off q) (query_key_len q) (query_off q) (query_len q) (query_depth q).

(** The single-match descent of [btree_query] reuses the query structure:
    new node, index reset, depth incremented. *)
Definition with_child (q : query) (n : node) : query :=
  mkQuery n (query_key q) (query_parent q) (query_flags q) (to_int (node_records n))
          (query_key_off q) (query_key_len q) (query_off q) (query_len q)
          (to_int (query_depth q + 1)).

(** The key a fresh root query points to before its caller sets one (the
    source leaves the pointer NULL); [parse_cat_btree] and
    [parse_omap_btree] also start from this all-zero key. *)
Definition zero_key : key := mkKey 0 0 0 None.

(** ** A sample container

    Concrete collaborators and a small image builder, used to run the
    engine on literal trees. *)

(** Modelled from the spec: the omap key decoder is not among the sources;
    an omap key is the pair (oid, xid), decoded to [id] and [number]. *)
Definition sample_read_omap_key (raw : list Z) (off len : Z) : string + key :=
  if len <? 16 then inl "Wrong size of key in object map."
  else inr (mkKey (le64_to_cpu raw off) 0 (le64_to_cpu raw (off + 8)) None).

(** Modelled from the spec: the catalog key decoder is not among the
    sources; a catalog key starts with the oid in the low 60 bits and the
    kind tag in the high 4 bits of its first word. *)
Definition sample_read_cat_key (raw : list Z) (off len : Z) : string + key :=
  if len <? 8 then inl "Wrong size of key in catalog."
  else
    let w := le64_to_cpu raw off in
    inr (mkKey (w mod 2 ^ 60) (w / 2 ^ 60)
               (if len <? 16 then 0 else le64_to_cpu raw (off + 8)) None).

(** Modelled from the spec: the comparator is not among the sources; it is
    a total order on (oid, kind, number). *)
Definition sample_keycmp (a b : key) : Z :=
  if key_id a <? key_id b then -1
  else if key_id b <? key_id a then 1
  else if key_type a <? key_type b then -1
  else if key_type b <? key_type a then 1
  else if key_number a <? key_number b then -1
  else if key_number b <? key_number a then 1
  else 0.

(** Modelled from the spec: a key holding only [oid = id]. *)
Definition sample_init_omap_key (id : Z) : key := mkKey id 0 0 None.

Definition sample_csum (raw : list Z) : bool := true.

Definition bytes_le16 (v : Z) : list Z := [v mod 256; v / 256 mod 256].
Definition bytes_le32 (v : Z) : list Z := bytes_le16 (v mod 65536) ++ bytes_le16 (v / 65536).
Definition bytes_le64 (v : Z) : list Z :=
  bytes_le32 (v mod 4294967296) ++ bytes_le32 (v / 4294967296).

(** The 56-byte node header: object header (checksum, oid, xid, type,
    subtype), flags, level, nkeys, table space, free space and the two free
    lists. *)
Definition node_header (oid flags nkeys ts_off ts_len : Z) : list Z :=
  replicate 8 0 ++ bytes_le64 oid ++ replicate 16 0
  ++ bytes_le16 flags ++ bytes_le16 0 ++ bytes_le32 nkeys
  ++ bytes_le16 ts_off ++ bytes_le16 ts_len
  ++ replicate 12 0.

(** [front] at the start of the block, [back] at its end, zeros between. *)
Definition assemble (bsize : Z) (front back : list Z) : list Z :=
  front ++ replicate (Z.to_nat bsize - length front - length back) 0 ++ back.

(** A fixed-kv node from its records (16-byte key, value bytes).  Table
    entry [i] gives the key offset [16 * i] and the value offset counted
    backwards from the end of the block (or from the footer on a root). *)
Definition fixed_node (bsize oid flags vlen : Z) (recs : list (list Z * list Z)) : list Z :=
  let n := Z.of_nat (length recs) in
  let toc := concat (imap (fun i _ => bytes_le16 (16 * Z.of_nat i)
                                      ++ bytes_le16 ((Z.of_nat i + 1) * vlen)) recs) in
  let footer := if negb (Z.land flags APFS_BTNODE_ROOT =? 0) then replicate 40 0 else [] in
  assemble bsize
    (node_header oid flags n 0 (4 * n) ++ toc ++ concat (fst <$> recs))
    (concat (reverse (snd <$> recs)) ++ footer).

Definition omap_key_bytes (oid xid : Z) : list Z := bytes_le64 oid ++ bytes_le64 xid.
Definition omap_val_bytes (paddr : Z) : list Z := bytes_le32 0 ++ bytes_le32 4096 ++ bytes_le64 paddr.

(** The two-level omap of the first end-to-end scenario: root at block
    1024 with one record (oid 7, child 2048); the child at block 2048 is a
    leaf with one record (oid 7, paddr 4096). *)
Definition omap_root_block : list Z :=
  fixed_node 4096 1024 5 8 [(omap_key_bytes 7 0, bytes_le64 2048)].
Definition omap_leaf_block : list Z :=
  fixed_node 4096 2048 6 16 [(omap_key_bytes 7 0, omap_val_bytes 4096)].
Definition omap_disk : gmap Z (list Z) :=
  <[1024 := omap_root_block]> (<[2048 := omap_leaf_block]> ∅).

(** A root that is also a leaf, at block 3000, with three records under
    the oids 3, 7 and 9. *)
Definition leaf3_block : list Z :=
  fixed_node 4096 3000 7 16
    [(omap_key_bytes 3 0, omap_val_bytes 30);
     (omap_key_bytes 7 0, omap_val_bytes 70);
     (omap_key_bytes 9 0, omap_val_bytes 90)].
Definition leaf3_disk : gmap Z (list Z) := <[3000 := leaf3_block]> ∅.

(** A two-level omap whose root, at block 1024, has the records
    (oid 5, child 2048) and (oid 7, child 2049); the left leaf holds the
    oids 5 and 7, the right leaf the oids 7 and 9: the key (oid 7, xid 0)
    ends one leaf and starts the next. *)
Definition twin_root_block : list Z :=
  fixed_node 4096 1024 5 8
    [(omap_key_bytes 5 0, bytes_le64 2048); (omap_key_bytes 7 0, bytes_le64 2049)].
Definition twin_left_block : list Z :=
  fixed_node 4096 2048 6 16
    [(omap_key_bytes 5 0, omap_val_bytes 4095); (omap_key_bytes 7 0, omap_val_bytes 4096)].
Definition twin_right_block : list Z :=
  fixed_node 4096 2049 6 16
    [(omap_key_bytes 7 0, omap_val_bytes 4097); (omap_key_bytes 9 0, omap_val_bytes 4098)].
Definition twin_disk : gmap Z (list Z) :=
  <[1024 := twin_root_block]>
    (<[2048 := twin_left_block]> (<[2049 := twin_right_block]> ∅)).

(** The omap of the first scenario with the header of the child block
    carrying oid 2049 instead of 2048. *)
Definition stray_disk : gmap Z (list Z) :=
  <[1024 := omap_root_block]>
    (<[2048 := fixed_node 4096 2049 6 16 [(omap_key_bytes 7 0, omap_val_bytes 4096)]]> ∅).

(** A block whose header claims 2^32 - 1 records in an empty table. *)
Definition crowded_block : list Z := assemble 4096 (node_header 77 6 4294967295 0 0) [].
Definition crowded_disk : gmap Z (list Z) := <[5 := crowded_block]> ∅.

(** A variable-kv leaf (not a root) with one record whose value offset
    field is 0 and whose value length is 1: the value would start at the
    end of the block. *)
Definition edge_block : list Z :=
  assemble 4096
    (node_header 9 2 1 0 8
     ++ bytes_le16 0 ++ bytes_le16 16 ++ bytes_le16 0 ++ bytes_le16 1
     ++ omap_key_bytes 1 0)
    [].
Definition edge_disk : gmap Z (list Z) := <[9 := edge_block]> ∅.

(** An omap root whose only record points back at the root itself. *)
Definition loop_block : list Z :=
  fixed_node 4096 1024 5 8 [(omap_key_bytes 7 0, bytes_le64 1024)].
Definition loop_disk : gmap Z (list Z) := <[1024 := loop_block]> ∅.

(** A root that is also a leaf, with the keys (10, 1), (10, 2) and (20, 0):
    the first two differ only in their number. *)
Definition multi_block : list Z :=
  fixed_node 4096 3000 7 16
    [(omap_key_bytes 10 1, omap_val_bytes 101);
     (omap_key_bytes 10 2, omap_val_bytes 102);
     (omap_key_bytes 20 0, omap_val_bytes 200)].

(** A volume in two blocks.  The object map, a root that is also a leaf at
    block 1024, maps oid 100 to block 3000; the catalog root, with oid 100
    at block 3000, is a leaf with two records. *)
Definition cat_omap_block : list Z :=
  fixed_node 4096 1024 7 16 [(omap_key_bytes 100 0, omap_val_bytes 3000)].
Definition cat_root_block : list Z :=
  fixed_node 4096 100 7 16
    [(omap_key_bytes 3 0, omap_val_bytes 0); (omap_key_bytes 7 0, omap_val_bytes 0)].
Definition cat_disk : gmap Z (list Z) :=
  <[1024 := cat_omap_block]> (<[3000 := cat_root_block]> ∅).

(** An object map structure at block 500 for the omap of the first
    scenario: the header carries the id 500, and the id of the tree, 1024,
    is stored at offset 48. *)
Definition omap_phys_block : list Z :=
  assemble 4096 (replicate 8 0 ++ bytes_le64 500 ++ replicate 32 0 ++ bytes_le64 1024) [].
Definition omap_phys_disk : gmap Z (list Z) := <[500 := omap_phys_block]> omap_disk.

(** The node structure [read_node] fills in for a block. *)
Definition node_of_block (block : Z) (raw : list Z) : node :=
  let key := 56 + le16_to_cpu raw 40 + le16_to_cpu raw 42 in
  let free := key + le16_to_cpu raw 44 in
  mkNode (le16_to_cpu raw 32) (le32_to_cpu raw 36) key free
         (free + le16_to_cpu raw 46) raw (mkObject block (le64_to_cpu raw 8)).

Definition omap_root_node : node := node_of_block 1024 omap_root_block.
Definition leaf3_node : node := node_of_block 3000 leaf3_block.
Definition twin_root_node : node := node_of_block 1024 twin_root_block.
Definition loop_node : node := node_of_block 1024 loop_block.
Definition multi_node : node := node_of_block 3000 multi_block.
Definition cat_omap_node : node := node_of_block 1024 cat_omap_block.
Definition crowded_node : node := node_of_block 5 crowded_block.
Definition cat_root_node : node := node_of_block 3000 cat_root_block.

(** An OMAP query on [n] for the key (id, 0), starting at [index]. *)
Definition sample_query (n : node) (id flags index : Z) : query :=
  mkQuery n (sample_init_omap_key id) None flags index 0 0 0 0 0.

(** The keys of [leaf3_block]. *)
Definition leaf3_keys (i : Z) : key :=
  mkKey (if i =? 0 then 3 else if i =? 1 then 7 else 9) 0 0 None.

Section Btree.

(** ** Collaborators

    The superblock globals ([sb->s_blocksize], [sb->s_omap_root]), the
    device, the checksum routine, the key decoders and the comparator live
    outside [btree.c]; the engine is parameterised by them.  A key decoder
    either returns the key or exits with a diagnostic. *)

Variable blocksize : Z.
Variable disk : gmap Z (list Z).
Variable obj_verify_csum : list Z -> bool.
Variable read_cat_key : list Z -> Z -> Z -> string + key.
Variable read_omap_key : list Z -> Z -> Z -> string + key.
Variable init_omap_key : Z -> key.
Variable keycmp : key -> key -> Z.
Variable s_omap_root : node.

(** ** Node reader *)

Definition node_is_valid (n : node) : bool :=
  let records := to_int (node_records n) in
  let index_size := to_int (node_key n - sizeof_btree_node_phys) in
  if records =? 0 then false
  else if node_key n >? blocksize then false
  else
    let entry_size :=
      if node_has_fixed_kv_size n then sizeof_kvoff else sizeof_kvloc in
    to_int (records * entry_size) <=? index_size.

Definition read_node (block : Z) : outcome node :=
  match disk !! block with
  | None => Fatal "mmap"
  | Some raw =>
    let flags := le16_to_cpu raw btn_flags_off in
    let records := le32_to_cpu raw btn_nkeys_off in
    let key := sizeof_btree_node_phys + le16_to_cpu raw btn_table_space_off
               + le16_to_cpu raw (btn_table_space_off + 2) in
    let free := key + le16_to_cpu raw btn_free_space_off in
    let data := free + le16_to_cpu raw (btn_free_space_off + 2) in
    let n := mkNode flags records key free data raw
                    (mkObject block (le64_to_cpu raw o_oid_off)) in
    if negb (obj_verify_csum raw) then Fatal "Bad checksum for node in block"
    else if negb (node_is_valid n) then Fatal "Node in block is not sane"
    else Ret n
  end.

(** ** Record locator

    Both return [(len, off)].  The index check compares an [int] with the
    unsigned record count, so the index is converted to unsigned first.
    The offsets are [int]; they are compared with the block size as
    integers, which is what C does for the non-negative values that reach
    the comparisons. *)

Definition node_locate_key (n : node) (index : Z) : outcome (Z * Z) :=
  if to_u32 index >=? node_records n then Fatal "Requested index out-of-bounds"
  else
    let raw := node_raw n in
    let '(len, off) :=
      if node_has_fixed_kv_size n then
        let entry := btn_data_off + index * sizeof_kvoff in
        (16, to_int (node_key n + le16_to_cpu raw entry))
      else
        let entry := btn_data_off + index * sizeof_kvloc in
        (le16_to_cpu raw (entry + 2), to_int (node_key n + le16_to_cpu raw entry)) in
    if to_int (off + len) >? blocksize then Fatal "B-tree key is out-of-bounds"
    else Ret (len, off).

Definition node_locate_data (n : node) (index : Z) : outcome (Z * Z) :=
  if to_u32 index >=? node_records n then Fatal "Requested index out-of-bounds"
  else
    let raw := node_raw n in
    let '(len, voff) :=
      if node_has_fixed_kv_size n then
        let entry := btn_data_off + index * sizeof_kvoff in
        (if node_is_leaf n then 16 else 8, le16_to_cpu raw (entry + 2))
      else
        let entry := btn_data_off + index * sizeof_kvloc in
        (le16_to_cpu raw (entry + 6), le16_to_cpu raw (entry + 4)) in
    let off :=
      if node_is_root n then to_int (blocksize - sizeof_btree_info - voff)
      else to_int (blocksize - voff) in
    if (off <? 0) || (to_int (off + len) >? blocksize)
    then Fatal "B-tree value is out-of-bounds"
    else Ret (len, off).

(** ** Key extractor *)

Definition key_from_query (q : query) : outcome key :=
  let raw := node_raw (query_node q) in
  let tree := Z.land (query_flags q) QUERY_TREE_MASK in
  k ← (if tree =? QUERY_CAT then call (read_cat_key raw (query_key_off q) (query_key_len q))
       else if tree =? QUERY_OMAP
       then call (read_omap_key raw (query_key_off q) (query_key_len q))
       else Fatal "Bug!");
  if flag_set (query_flags q) QUERY_MULTIPLE
  then Ret (mkKey (key_id k) (key_type k) 0 None)
  else Ret k.

(** ** In-node search

    The query functions return the [int] result together with the query
    they mutated. *)

Definition node_next (q : query) : outcome (Z * query) :=
  let n := query_node q in
  if flag_set (query_flags q) QUERY_DONE then Ret (- ENODATA, q)
  else if query_index q =? 0 then Ret (- EAGAIN, q)
  else
    let q := with_index q (to_int (query_index q - 1)) in
    '(klen, koff) ← node_locate_key n (query_index q);
    let q := with_key_loc q klen koff in
    curr_key ← key_from_query q;
    let cmp := keycmp curr_key (query_key q) in
    if cmp >? 0 then Fatal "B-tree records are out of order."
    else if negb (cmp =? 0) && node_is_leaf n && flag_set (query_flags q) QUERY_EXACT
    then Ret (- ENODATA, q)
    else
      '(len, off) ← node_locate_data n (query_index q);
      let q := with_data_loc q len off in
      if len =? 0 then Fatal "Corrupted record value in node"
      else
        let q := if negb (cmp =? 0)
                 then with_flags q (Z.lor (query_flags q) QUERY_DONE) else q in
        Ret (0, q).

(** What the bisection loop of [node_query] hands back: either the function
    returns from inside the loop, or the loop ends with the last comparison. *)
Inductive bisect_result :=
| BisectReturn (rc : Z) (q : query)
| BisectDone (cmp : Z) (q : query).

(** One pass through the body of the [do ... while (left != right)] loop:
    [inl] when the loop is over (a [return], the [break], or the loop
    condition failing), [inr (cmp, left, right, q)] to go round again. *)
Definition bisect_iter (cmp left right : Z) (q : query)
    : outcome (bisect_result + Z * Z * Z * query) :=
  let n := query_node q in
  let next :=
    if cmp >? 0 then
      let right := to_int (query_index q - 1) in
      if right <? left then None
      else Some (left, right, Z.quot (to_int (left + right)) 2)
    else
      let left := query_index q in
      Some (left, right, DIV_ROUND_UP (to_int (left + right)) 2) in
  match next with
  | None => Ret (inl (BisectReturn (- ENODATA) q))
  | Some (l, r, index) =>
    let q := with_index q index in
    '(klen, koff) ← node_locate_key n index;
    let q := with_key_loc q klen koff in
    curr_key ← key_from_query q;
    let cmp := keycmp curr_key (query_key q) in
    if (cmp =? 0) && negb (flag_set (query_flags q) QUERY_MULTIPLE)
    then Ret (inl (BisectDone cmp q))
    else if negb (l =? r) then Ret (inr (cmp, l, r, q))
    else Ret (inl (BisectDone cmp q))
  end.

(** The loop itself; one unit of fuel per iteration. *)
Fixpoint bisect (fuel : nat) (cmp left right : Z) (q : query) : outcome bisect_result :=
  match fuel with
  | O => Timeout
  | S fuel' =>
    it ← bisect_iter cmp left right q;
    match it with
    | inl res => Ret res
    | inr (cmp, l, r, q) => bisect fuel' cmp l r q
    end
  end.

Definition node_query (fuel : nat) (q : query) : outcome (Z * query) :=
  let n := query_node q in
  if flag_set (query_flags q) QUERY_NEXT then node_next q
  else
    r ← bisect fuel 1 0 0 q;
    match r with
    | BisectReturn rc q => Ret (rc, q)
    | BisectDone cmp q =>
      if cmp >? 0 then Ret (- ENODATA, q)
      else if negb (cmp =? 0) && node_is_leaf (query_node q)
              && flag_set (query_flags q) QUERY_EXACT
      then Ret (- ENODATA, q)
      else
        let q :=
          if flag_set (query_flags q) QUERY_MULTIPLE then
            let q := if negb (cmp =? 0)
                     then with_flags q (Z.lor (query_flags q) QUERY_DONE) else q in
            with_flags q (Z.lor (query_flags q) QUERY_NEXT)
          else q in
        '(len, off) ← node_locate_data n (query_index q);
        let q := with_data_loc q len off in
        if len =? 0 then Fatal "Corrupted record value in node"
        else Ret (0, q)
    end.

(** ** Queries *)

Definition alloc_query (n : node) (parent : option query) : query :=
  mkQuery n
    (match parent with Some p => query_key p | None => zero_key end)
    parent
    (match parent with
     | Some p => Z.land (query_flags p) (Z.lnot (Z.lor QUERY_DONE QUERY_NEXT))
     | None => 0
     end)
    (to_int (node_records n))
    0 0 0 0
    (match parent with Some p => to_int (query_depth p + 1) | None => 0 end).

Definition child_from_query (q : query) : outcome Z :=
  if negb (query_len q =? 8) then Fatal "Wrong size of nonleaf record value"
  else Ret (le64_to_cpu (node_raw (query_node q)) (query_off q)).

Definition bno_from_query (q : query) : outcome Z :=
  if negb (query_len q =? sizeof_omap_val) then Fatal "Wrong size of omap leaf record value"
  else Ret (le64_to_cpu (node_raw (query_node q)) (query_off q + ov_paddr_off)).

(** [omap_lookup_block] and [btree_query] call each other; the lookup is
    written over the descender it runs. *)
Definition omap_lookup_with (descend : query -> outcome (Z * query))
    (tbl : node) (id : Z) : outcome Z :=
  let q := alloc_query tbl None in
  let q := with_key q (init_omap_key id) in
  let q := with_flags q (Z.lor (query_flags q) (Z.lor QUERY_OMAP QUERY_EXACT)) in
  '(err, q) ← descend q;
  if negb (err =? 0) then Fatal "Omap record missing for id"
  else bno_from_query q.

(** ** Tree descender *)

(** Where one pass from the [next_node] label leads: a [return], the
    re-ascent to the parent query, or the descent into the child. *)
Inductive descent :=
| Finished (rc : Z) (q : query)
| Reascend (parent : query)
| Descend (q : query).

(** One pass from [next_node]; [lookup] is [omap_lookup_block]. *)
Definition btree_query_pass (lookup : node -> Z -> outcome Z)
    (fuel : nat) (q : query) : outcome descent :=
  if query_depth q >=? 12 then Fatal "Corrupted b-tree is too deep."
  else
    '(err, q) ← node_query fuel q;
    if err =? - EAGAIN then
      match query_parent q with
      | None => Ret (Finished (- ENODATA) q)
      | Some parent => Ret (Reascend parent)
      end
    else if negb (err =? 0) then Ret (Finished err q)
    else if node_is_leaf (query_node q) then Ret (Finished 0 q)
    else
      child_id ← child_from_query q;
      child_blk ← (if flag_set (query_flags q) QUERY_OMAP then Ret child_id
                   else lookup s_omap_root child_id);
      n ← read_node child_blk;
      if negb (oid (node_object n) =? child_id)
      then Fatal "Wrong object id on block number"
      else if flag_set (query_flags q) QUERY_MULTIPLE
      then Ret (Descend (alloc_query n (Some q)))
      else Ret (Descend (with_child q n)).

(** The [goto next_node] loop.  One unit of fuel per pass; the in-node
    search and the nested omap lookup run on what is left. *)
Fixpoint btree_query (fuel : nat) (q : query) : outcome (Z * query) :=
  match fuel with
  | O => Timeout
  | S fuel' =>
    d ← btree_query_pass (omap_lookup_with (btree_query fuel')) fuel' q;
    match d with
    | Finished rc q => Ret (rc, q)
    | Reascend parent => btree_query fuel' parent
    | Descend q => btree_query fuel' q
    end
  end.

Definition omap_lookup_block (fuel : nat) (tbl : node) (id : Z) : outcome Z :=
  omap_lookup_with (btree_query fuel) tbl id.

(** ** Subtree validator

    [omap_root] is [None] when the tree parsed is an omap itself.  The
    function returns the updated [last_key]. *)

(** The body of the [for] loop for record [i]; [recurse] is the recursive
    call on the child. *)
Definition parse_record (fuel : nat)
    (recurse : node -> key -> outcome key)
    (root : node) (omap_root : option node) (i : Z) (last_key : key) : outcome key :=
  let raw := node_raw root in
  '(klen, koff) ← node_locate_key root i;
  curr_key ← call (match omap_root with
                   | Some _ => read_cat_key raw koff klen
                   | None => read_omap_key raw koff klen
                   end);
  if keycmp last_key curr_key >? 0 then Fatal "Node keys are out of order."
  else if negb (i =? 0) && node_is_leaf root && (keycmp last_key curr_key =? 0)
  then Fatal "Leaf keys are repeated."
  else
    let last_key := curr_key in
    if node_is_leaf root then Ret last_key
    else
      '(len, off) ← node_locate_data root i;
      if negb (len =? 8) then Fatal "Wrong size of nonleaf record value."
      else
        let child_id := le64_to_cpu raw off in
        bno ← (match omap_root with
               | Some tbl => omap_lookup_block fuel tbl child_id
               | None => Ret child_id
               end);
        child ← read_node bno;
        if negb (child_id =? oid (node_object child))
        then Fatal "Wrong object id on b-tree node."
        else recurse child last_key.

(** [for (i = ...; i < root->records; ++i)], with [count] records left to
    visit from [i] on. *)
Fixpoint parse_records (body : Z -> key -> outcome key)
    (count : nat) (i : Z) (last_key : key) : outcome key :=
  match count with
  | O => Ret last_key
  | S count' =>
    last_key ← body i last_key;
    parse_records body count' (i + 1) last_key
  end.

Fixpoint parse_subtree (fuel : nat) (root : node) (last_key : key)
    (omap_root : option node) : outcome key :=
  match fuel with
  | O => Timeout
  | S fuel' =>
    parse_records
      (parse_record fuel' (fun child k => parse_subtree fuel' child k omap_root)
                    root omap_root)
      (Z.to_nat (node_records root)) 0 last_key
  end.

Definition parse_cat_btree (fuel : nat) (oid : Z) (omap_root : node) : outcome node :=
  bno ← omap_lookup_block fuel omap_root oid;
  root ← read_node bno;
  _ ← parse_subtree fuel root zero_key (Some omap_root);
  Ret root.

(** [parse_omap_btree].  The object map sits in block [oid]; its header is
    an object header like that of a node, and the id of its tree is a 64-bit
    field of [struct apfs_omap_phys], whose declaration is not among the
    sources: the offset of the field is the argument [om_tree_oid_off]. *)
Definition parse_omap_btree (om_tree_oid_off : Z) (fuel : nat) (oid : Z) : outcome node :=
  match disk !! oid with
  | None => Fatal "mmap"
  | Some raw =>
    if negb (obj_verify_csum raw) then Fatal "Bad checksum for object map"
    else if negb (oid =? le64_to_cpu raw o_oid_off) then Fatal "Wrong object id on object map"
    else
      root ← read_node (le64_to_cpu raw om_tree_oid_off);
      _ ← parse_subtree fuel root zero_key None;
      Ret root
  end.

(** ** Vocabulary of the node theorems *)

(** The size of one entry of the table of contents. *)
Definition entry_size (n : node) : Z :=
  if node_has_fixed_kv_size n then sizeof_kvoff else sizeof_kvloc.

(** The node [n] over another mapping of its block. *)
Definition with_raw (n : node) (raw : list Z) : node :=
  mkNode (node_flags n) (node_records n) (node_key n) (node_free n) (node_data n)
         raw (node_object n).

(** ** Vocabulary of the search theorems *)

(** A query with its cursor fields cleared; queries with the same
    [search_of] run the same search on the same node. *)
Definition search_of (q : query) : query := with_key_loc (with_index q 0) 0 0.

(** The key of record [i] as the query reads it (masked for a multiple
    query). *)
Definition key_at (q : query) (i : Z) : outcome key :=
  '(klen, koff) ← node_locate_key (query_node q) i;
  key_from_query (with_key_loc (with_index q i) klen koff).

(** Locating, decoding and comparing record [index]: the second half of
    the loop body of [node_query]. *)
Definition probe (q : query) (index : Z) : outcome (Z * query) :=
  '(klen, koff) ← node_locate_key (query_node q) index;
  let q' := with_key_loc (with_index q index) klen koff in
  curr_key ← key_from_query q';
  Ret (keycmp curr_key (query_key q'), q').

(** The first half: the new [(left, right, index)], or [None] for the
    [return -ENODATA] on an empty interval. *)
Definition bisect_next (cmp left right index : Z) : option (Z * Z * Z) :=
  if cmp >? 0 then
    let right := to_int (index - 1) in
    if right <? left then None
    else Some (left, right, Z.quot (to_int (left + right)) 2)
  else Some (index, right, DIV_ROUND_UP (to_int (index + right)) 2).

(** Loop variant: twice the width of what is left to search, plus one
    while the index still sits on [left]. *)
Definition bisect_measure (cmp left right index : Z) : Z :=
  if cmp >? 0 then 2 * (index - left)
  else 2 * (right - left) + (if index =? left then 1 else 0).

(** Bounds kept by the loop, for a search started at index [n]. *)
Definition bisect_inv (n cmp left right index : Z) : Prop :=
  0 <= left < n
  /\ (if cmp >? 0 then left <= index <= n
      else left <= index <= right /\ right < n /\ left <> right).

(** The states at which the loop of [node_query] starts an iteration, for
    a search started on [q0]. *)
Inductive bisect_reach (q0 : query) : Z -> Z -> Z -> query -> Prop :=
| reach_start : bisect_reach q0 1 0 0 q0
| reach_again (cmp left right : Z) (q : query) (cmp' left' right' : Z) (q' : query) :
    bisect_reach q0 cmp left right q ->
    bisect_iter cmp left right q = Ret (inr (cmp', left', right', q')) ->
    bisect_reach q0 cmp' left' right' q'.

(** The comparison of record [i] with the target of the query. *)
Definition cmp_at (keys : Z -> key) (q : query) (i : Z) : Z :=
  keycmp (keys i) (query_key q).

(** [m] is the largest index below [n] whose key is not above the target. *)
Definition best_match (n : Z) (cmpf : Z -> Z) (m : Z) : Prop :=
  0 <= m < n /\ cmpf m <= 0 /\ forall j, m < j < n -> cmpf j > 0.

(** What the loop knows between iterations: [left] is the start of the
    node or holds a key not above the target, and everything to the right
    of the interval is above it. *)
Definition bisect_sem_inv (n : Z) (cmpf : Z -> Z) (cmp left right index : Z) : Prop :=
  bisect_inv n cmp left right index
  /\ (left = 0 \/ cmpf left <= 0)
  /\ (if cmp >? 0 then forall j, index <= j < n -> cmpf j > 0
      else cmpf index <= 0 /\ forall j, right < j < n -> cmpf j > 0).

Definition bisect_post (n : Z) (cmpf : Z -> Z) (q0 : query) (res : bisect_result) : Prop :=
  match res with
  | BisectReturn rc q' => rc = - ENODATA /\ forall j, 0 <= j < n -> cmpf j > 0
  | BisectDone c q' =>
    0 <= query_index q' < n
    /\ c = cmpf (query_index q')
    /\ search_of q' = search_of q0
    /\ (c > 0 -> forall j, 0 <= j < n -> cmpf j > 0)
    /\ (c <= 0 ->
        (forall j, query_index q' < j < n -> cmpf j > 0)
        \/ (c = 0 /\ flag_set (query_flags q0) QUERY_MULTIPLE = false))
  end.

(** The queries at which [btree_query] passes the [next_node] label, for a
    search started on [q0]: the start, and what a pass re-ascends or
    descends to. *)
Inductive btree_reach (lookup : node -> Z -> outcome Z) (q0 : query) : query -> Prop :=
| at_start : btree_reach lookup q0 q0
| at_parent (fuel : nat) (q parent : query) :
    btree_reach lookup q0 q ->
    btree_query_pass lookup fuel q = Ret (Reascend parent) ->
    btree_reach lookup q0 parent
| at_child (fuel : nat) (q child : query) :
    btree_reach lookup q0 q ->
    btree_query_pass lookup fuel q = Ret (Descend child) ->
    btree_reach lookup q0 child.

(** Fuel that lets a single-match descent from [q] end when no node holds
    more than [N] records: two units per record for the search of a node,
    one per level left down to depth 12, and, outside an omap, as much
    again for the lookups in the object map. *)
Definition descent_fuel (N : Z) (q : query) : Z :=
  (if flag_set (query_flags q) QUERY_OMAP then 2 * N + 14 else 2 * N + 26)
  - query_depth q.

(** The outcomes left to a descent through the nodes of an omap that the
    validator has passed: it returns, or it aborts on the depth limit or on
    the value of a leaf record, which the validator does not look at. *)
Definition descent_safe (r : outcome (Z * query)) : Prop :=
  match r with
  | Ret _ => True
  | Fatal msg =>
    msg = "Corrupted b-tree is too deep."
    \/ msg = "B-tree value is out-of-bounds"
    \/ msg = "Corrupted record value in node"
  | Timeout => False
  end.

(** The query [omap_lookup_block] runs: an exact OMAP query, from the root
    of the table, for the key that holds only [oid = id]. *)
Definition omap_query (tbl : node) (id : Z) : query :=
  mkQuery tbl (init_omap_key id) None (Z.lor QUERY_OMAP QUERY_EXACT)
          (to_int (node_records tbl)) 0 0 0 0 0.

(** ** Vocabulary of the validator theorems *)

(** The key of record [i] as the validator decodes it. *)
Definition record_key (root : node) (omap_root : option node) (i : Z) : outcome key :=
  '(klen, koff) ← node_locate_key root i;
  call (match omap_root with
        | Some _ => read_cat_key (node_raw root) koff klen
        | None => read_omap_key (node_raw root) koff klen
        end).

(** The block a child id stands for: looked up in the omap when one is
    supplied, the id itself otherwise. *)
Definition resolve_child (fuel : nat) (omap_root : option node) (child_id : Z) : outcome Z :=
  match omap_root with
  | Some tbl => omap_lookup_block fuel tbl child_id
  | None => Ret child_id
  end.

(** The node that record [i] of a nonleaf node points to. *)
Definition record_child (fuel : nat) (root : node) (omap_root : option node) (i : Z)
    : outcome node :=
  '(len, off) ← node_locate_data root i;
  bno ← resolve_child fuel omap_root (le64_to_cpu (node_raw root) off);
  read_node bno.

Fixpoint collect {A : Type} (f : Z -> outcome A) (count : nat) (i : Z) : outcome (list A) :=
  match count with
  | O => Ret []
  | S count' =>
    a ← f i;
    rest ← collect f count' (i + 1);
    Ret (a :: rest)
  end.

(** The left-to-right leaf traversal of the tree under [root]: one list of
    keys per leaf. *)
Fixpoint leaf_keys (fuel : nat) (root : node) (omap_root : option node)
    : outcome (list (list key)) :=
  match fuel with
  | O => Timeout
  | S fuel' =>
    if node_is_leaf root then
      ks ← collect (record_key root omap_root) (Z.to_nat (node_records root)) 0;
      Ret [ks]
    else
      lss ← collect (fun i => child ← record_child fuel' root omap_root i;
                              leaf_keys fuel' child omap_root)
                    (Z.to_nat (node_records root)) 0;
      Ret (concat lss)
  end.

(** [prev], then the keys of [l], each related by [R] to the one before. *)
Fixpoint chain (R : key -> key -> Prop) (prev : key) (l : list key) : Prop :=
  match l with
  | [] => True
  | k :: l' => R prev k /\ chain R k l'
  end.

Definition key_le (a b : key) : Prop := keycmp a b <= 0.
Definition key_lt (a b : key) : Prop := keycmp a b < 0.

(** The keys of one leaf increase strictly. *)
Definition strict_leaf (l : list key) : Prop :=
  match l with
  | [] => True
  | k :: l' => chain key_lt k l'
  end.

(** What the validator has checked of a subtree when it returns: the leaf
    traversal exists, each leaf increases strictly, the traversal entered
    with [lk] never decreases, and the key handed back is not below its
    last key. *)
Definition traversal_ok (fuel : nat) (root : node) (omap_root : option node)
    (lk lk' : key) : Prop :=
  exists leaves,
    leaf_keys fuel root omap_root = Ret leaves
    /\ Forall strict_leaf leaves
    /\ chain key_le lk (concat leaves)
    /\ key_le (List.last (concat leaves) lk) lk'.

(** * Facts *)

(** ** Integer ranges *)

Lemma to_int_small (z : Z) : - 2 ^ 31 <= z < 2 ^ 31 -> to_int z = z.
Proof.
  intros H. unfold to_int.
  rewrite Z.mod_small by lia. lia.
Qed.

Lemma to_u32_small (z : Z) : 0 <= z < 2 ^ 32 -> to_u32 z = z.
Proof. intros H. unfold to_u32. now rewrite Z.mod_small. Qed.

Lemma byte_at_range (raw : list Z) (off : Z) : 0 <= byte_at raw off < 256.
Proof.
  unfold byte_at. destruct (off <? 0); [lia|].
  apply Z.mod_pos_bound. lia.
Qed.

Lemma le16_range (raw : list Z) (off : Z) : 0 <= le16_to_cpu raw off < 65536.
Proof.
  unfold le16_to_cpu.
  pose proof (byte_at_range raw off). pose proof (byte_at_range raw (off + 1)). lia.
Qed.

Lemma le32_range (raw : list Z) (off : Z) : 0 <= le32_to_cpu raw off < 2 ^ 32.
Proof.
  unfold le32_to_cpu.
  pose proof (le16_range raw off). pose proof (le16_range raw (off + 2)). lia.
Qed.

Lemma le64_range (raw : list Z) (off : Z) : 0 <= le64_to_cpu raw off < 2 ^ 64.
Proof.
  unfold le64_to_cpu.
  pose proof (le32_range raw off). pose proof (le32_range raw (off + 4)). lia.
Qed.

(** ** Node reader *)

(** What [read_node] establishes by construction: the node describes the
    block it was read from, and the key area starts after the header, at an
    offset given by two 16-bit fields. *)
Lemma read_node_fields (block : Z) (n : node) :
  read_node block = Ret n ->
  disk !! block = Some (node_raw n)
  /\ obj_verify_csum (node_raw n) = true
  /\ node_is_valid n = true
  /\ block_nr (node_object n) = block
  /\ 0 <= node_records n < 2 ^ 32
  /\ sizeof_btree_node_phys <= node_key n < sizeof_btree_node_phys + 2 * 65536.
Proof.
  unfold read_node. destruct (disk !! block) as [raw|]; [|discriminate].
  destruct (obj_verify_csum raw) eqn:Hc; simpl; [|discriminate].
  match goal with |- context [node_is_valid ?m] => destruct (node_is_valid m) eqn:Hv end;
    simpl; [|discriminate].
  intros [= <-]. simpl.
  pose proof (le32_range raw btn_nkeys_off).
  pose proof (le16_range raw btn_table_space_off).
  pose proof (le16_range raw (btn_table_space_off + 2)).
  repeat split; auto; unfold sizeof_btree_node_phys; lia.
Qed.

Lemma node_is_valid_key (n : node) : node_is_valid n = true -> node_key n <= blocksize.
Proof.
  unfold node_is_valid.
  destruct (to_int (node_records n) =? 0); [discriminate|].
  destruct (node_key n >? blocksize) eqn:Hk; [discriminate|]. lia.
Qed.

(** With a record count that stays positive as an [int], and whose product
    with the entry size does not overflow, the checks of [node_is_valid]
    are the node invariants. *)
Lemma read_node_sane (block : Z) (n : node) :
  read_node block = Ret n ->
  node_records n < 2 ^ 28 ->
  0 < node_records n
  /\ node_key n <= blocksize
  /\ node_records n * (if node_has_fixed_kv_size n then sizeof_kvoff else sizeof_kvloc)
     <= node_key n - sizeof_btree_node_phys
  /\ obj_verify_csum (node_raw n) = true.
Proof.
  intros Hread Hsmall.
  destruct (read_node_fields _ _ Hread) as (_ & Hcsum & Hvalid & _ & Hrec & Hkey).
  pose proof (node_is_valid_key _ Hvalid) as Hk.
  unfold node_is_valid, sizeof_btree_node_phys, sizeof_kvoff, sizeof_kvloc in *.
  rewrite (to_int_small (node_records n)) in Hvalid by lia.
  destruct (node_records n =? 0) eqn:E0; [discriminate|].
  destruct (node_key n >? blocksize); [discriminate|].
  rewrite (to_int_small (node_key n - 56)) in Hvalid by lia.
  destruct (node_has_fixed_kv_size n);
    rewrite to_int_small in Hvalid by lia; repeat split; try assumption; lia.
Qed.

(** ** Record locator *)

Section Locator.

(** Block sizes are far below the [int] range. *)
Hypothesis blocksize_range : 0 < blocksize <= 2 ^ 30.

Lemma node_locate_key_bounds (n : node) (index len off : Z) :
  sizeof_btree_node_phys <= node_key n <= blocksize ->
  node_locate_key n index = Ret (len, off) ->
  0 <= off /\ 0 <= len /\ off + len <= blocksize.
Proof.
  intros Hk. unfold node_locate_key, sizeof_btree_node_phys in *.
  destruct (to_u32 index >=? node_records n); [discriminate|].
  destruct (node_has_fixed_kv_size n).
  - pose proof (le16_range (node_raw n) (btn_data_off + index * sizeof_kvoff)).
    rewrite !to_int_small by (rewrite ?to_int_small; lia).
    destruct (_ >? blocksize) eqn:Hc; [discriminate|].
    intros [= <- <-]. lia.
  - pose proof (le16_range (node_raw n) (btn_data_off + index * sizeof_kvloc)).
    pose proof (le16_range (node_raw n) (btn_data_off + index * sizeof_kvloc + 2)).
    rewrite !to_int_small by (rewrite ?to_int_small; lia).
    destruct (_ >? blocksize) eqn:Hc; [discriminate|].
    intros [= <- <-]. lia.
Qed.

Lemma node_locate_data_bounds (n : node) (index len off : Z) :
  node_locate_data n index = Ret (len, off) ->
  0 <= off /\ 0 <= len /\ off + len <= blocksize.
Proof.
  unfold node_locate_data, sizeof_btree_info.
  destruct (to_u32 index >=? node_records n); [discriminate|].
  set (raw := node_raw n).
  assert (Hgen : forall l v : Z, 0 <= l < 65536 -> 0 <= v < 65536 ->
    (let off0 := if node_is_root n then to_int (blocksize - 40 - v)
                 else to_int (blocksize - v) in
     if (off0 <? 0) || (to_int (off0 + l) >? blocksize)
     then Fatal "B-tree value is out-of-bounds" else Ret (l, off0)) = Ret (len, off) ->
    0 <= off /\ 0 <= len /\ off + len <= blocksize).
  { intros l v Hl Hv. cbv zeta.
    destruct (node_is_root n).
    - rewrite (to_int_small (blocksize - 40 - v)) by lia.
      destruct (blocksize - 40 - v <? 0) eqn:Hneg; [discriminate|]. simpl.
      rewrite to_int_small by lia.
      destruct (_ >? blocksize) eqn:Hc; [discriminate|].
      intros [= <- <-]. lia.
    - rewrite (to_int_small (blocksize - v)) by lia.
      destruct (blocksize - v <? 0) eqn:Hneg; [discriminate|]. simpl.
      rewrite to_int_small by lia.
      destruct (_ >? blocksize) eqn:Hc; [discriminate|].
      intros [= <- <-]. lia. }
  destruct (node_has_fixed_kv_size n).
  - apply Hgen; [destruct (node_is_leaf n); lia | apply le16_range].
  - apply Hgen; apply le16_range.
Qed.


End Locator.

(** ** In-node search: the bisection loop *)

Lemma search_of_with_cursor (q : query) (i klen koff : Z) :
  search_of (with_key_loc (with_index q i) klen koff) = search_of q.
Proof. now destruct q. Qed.

Lemma probe_search_of (q : query) (i : Z) : probe q i = probe (search_of q) i.
Proof. now destruct q. Qed.

Lemma key_at_search_of (q : query) (i : Z) : key_at q i = key_at (search_of q) i.
Proof. now destruct q. Qed.

Lemma key_from_query_no_timeout (q : query) : key_from_query q <> Timeout.
Proof.
  unfold key_from_query.
  destruct (_ =? QUERY_CAT).
  - destruct (read_cat_key _ _ _); simpl; [discriminate|].
    destruct (flag_set _ _); discriminate.
  - destruct (_ =? QUERY_OMAP); [|discriminate].
    destruct (read_omap_key _ _ _); simpl; [discriminate|].
    destruct (flag_set _ _); discriminate.
Qed.

Lemma node_locate_key_no_timeout (n : node) (i : Z) : node_locate_key n i <> Timeout.
Proof.
  unfold node_locate_key. destruct (_ >=? _); [discriminate|].
  destruct (node_has_fixed_kv_size n); simpl; destruct (_ >? blocksize); discriminate.
Qed.

Lemma node_locate_data_no_timeout (n : node) (i : Z) : node_locate_data n i <> Timeout.
Proof.
  unfold node_locate_data. destruct (_ >=? _); [discriminate|].
  destruct (node_has_fixed_kv_size n); simpl; destruct (_ || _); discriminate.
Qed.

(** A probe returns the comparison with the query left on that record. *)
Lemma probe_ret (q : query) (i c : Z) (q' : query) :
  probe q i = Ret (c, q') ->
  query_index q' = i /\ search_of q' = search_of q
  /\ exists k, key_at q i = Ret k /\ c = keycmp k (query_key q).
Proof.
  unfold probe, key_at.
  destruct (node_locate_key (query_node q) i) as [[klen koff]| |]; simpl; try discriminate.
  destruct (key_from_query _) as [k| |]; simpl; try discriminate.
  intros [= <- <-]. split; [now destruct q|]. split; [now destruct q|].
  exists k. split; [reflexivity | now destruct q].
Qed.

Lemma probe_of_key_at (q : query) (i : Z) (k : key) :
  key_at q i = Ret k ->
  exists q', probe q i = Ret (keycmp k (query_key q), q').
Proof.
  unfold probe, key_at.
  destruct (node_locate_key (query_node q) i) as [[klen koff]| |]; simpl; try discriminate.
  intros ->. simpl. eexists. reflexivity.
Qed.

Lemma probe_no_timeout (q : query) (i : Z) : probe q i <> Timeout.
Proof.
  unfold probe.
  pose proof (node_locate_key_no_timeout (query_node q) i).
  destruct (node_locate_key (query_node q) i) as [[klen koff]| |]; simpl; try easy.
  pose proof (key_from_query_no_timeout (with_key_loc (with_index q i) klen koff)).
  destruct (key_from_query _); simpl; easy.
Qed.

(** The loop body, split in its two halves. *)
Lemma bisect_iter_eq (cmp left right : Z) (q : query) :
  bisect_iter cmp left right q =
  match bisect_next cmp left right (query_index q) with
  | None => Ret (inl (BisectReturn (- ENODATA) q))
  | Some (l, r, index) =>
    '(c, q') ← probe q index;
    if (c =? 0) && negb (flag_set (query_flags q) QUERY_MULTIPLE)
    then Ret (inl (BisectDone c q'))
    else if negb (l =? r) then Ret (inr (c, l, r, q'))
    else Ret (inl (BisectDone c q'))
  end.
Proof.
  unfold bisect_iter, bisect_next, probe.
  destruct (cmp >? 0).
  - destruct (_ <? left); [reflexivity|].
    destruct (node_locate_key _ _) as [[klen koff]| |]; simpl; try reflexivity.
    destruct (key_from_query _); simpl; try reflexivity.
  - destruct (node_locate_key _ _) as [[klen koff]| |]; simpl; try reflexivity.
    destruct (key_from_query _); simpl; try reflexivity.
Qed.

Lemma div_round_up_2 (a : Z) :
  0 <= a < 2 ^ 31 - 2 -> DIV_ROUND_UP (to_int a) 2 = (a + 1) / 2.
Proof.
  intros H. unfold DIV_ROUND_UP.
  rewrite (to_int_small a) by lia.
  rewrite (to_int_small (a + 2)) by lia.
  rewrite to_int_small by lia.
  rewrite Z.quot_div_nonneg by lia. f_equal. lia.
Qed.

Lemma ceil_mid_advances (a b : Z) : a <= b -> a < (a + b + 1) / 2 \/ a = b.
Proof using Type. clear. intros H. Z.div_mod_to_equations. lia. Qed.

(** The arithmetic of one iteration: the new interval lies within the
    records searched, and the loop variant drops when the loop goes on. *)
Lemma bisect_next_progress (n cmp left right index : Z) :
  n < 2 ^ 30 ->
  bisect_inv n cmp left right index ->
  match bisect_next cmp left right index with
  | None => cmp > 0 /\ index = left
  | Some (l, r, i) =>
    0 <= l <= i /\ i <= r < n
    /\ (cmp > 0 -> l = left /\ r = index - 1 /\ i = (left + r) / 2)
    /\ (cmp <= 0 -> l = index /\ r = right /\ i = (index + right + 1) / 2)
    /\ (l <> r -> forall c : Z,
          bisect_inv n c l r i
          /\ 0 <= bisect_measure c l r i < bisect_measure cmp left right index)
  end.
Proof using Type.
  clear. intros Hn (Hl & Hinv). unfold bisect_next, bisect_measure, bisect_inv.
  destruct (cmp >? 0) eqn:Hc.
  - rewrite (to_int_small (index - 1)) by lia.
    destruct (index - 1 <? left) eqn:Hlt; [lia|].
    rewrite to_int_small by lia.
    rewrite Z.quot_div_nonneg by lia.
    assert (left <= (left + (index - 1)) / 2 <= index - 1)
      by (Z.div_mod_to_equations; lia).
    do 4 (split; [lia|]).
    intros Hne c. destruct (c >? 0); [|destruct (_ =? left)]; lia.
  - destruct Hinv as (Hli & Hr & Hne0).
    rewrite div_round_up_2 by lia.
    assert (index <= (index + right + 1) / 2 <= right)
      by (Z.div_mod_to_equations; lia).
    assert (index < right -> index < (index + right + 1) / 2)
      by (Z.div_mod_to_equations; lia).
    do 4 (split; [lia|]).
    intros Hne c. destruct (index =? left) eqn:E1;
      (destruct (c >? 0); [|destruct (_ =? index) eqn:E2]); lia.
Qed.

Lemma bisect_measure_nonneg (n cmp left right index : Z) :
  bisect_inv n cmp left right index -> 0 <= bisect_measure cmp left right index.
Proof.
  unfold bisect_inv, bisect_measure. intros (Hl & H).
  destruct (cmp >? 0); [lia|]. destruct (index =? left); lia.
Qed.

Lemma bisect_no_timeout (n : Z) (fuel : nat) :
  n < 2 ^ 30 ->
  forall (cmp left right : Z) (q : query),
    bisect_inv n cmp left right (query_index q) ->
    bisect_measure cmp left right (query_index q) < Z.of_nat fuel ->
    bisect fuel cmp left right q <> Timeout.
Proof.
  intros Hn. induction fuel as [|fuel IH]; intros cmp left right q Hinv Hm.
  - pose proof (bisect_measure_nonneg _ _ _ _ _ Hinv). lia.
  - simpl. rewrite bisect_iter_eq.
    pose proof (bisect_next_progress _ _ _ _ _ Hn Hinv) as Hp.
    destruct (bisect_next _ _ _ _) as [[[l r] i]|]; [|discriminate].
    destruct Hp as (_ & _ & _ & _ & Hgo).
    pose proof (probe_no_timeout q i) as Hnt.
    destruct (probe q i) as [[c q']| |] eqn:Hprobe; simpl; [|discriminate|easy].
    apply probe_ret in Hprobe as (Hidx & _).
    destruct (_ && _); [discriminate|].
    destruct (l =? r) eqn:Hlr; simpl; [discriminate|].
    destruct (Hgo ltac:(lia) c) as (Hinv' & Hm').
    apply IH; rewrite Hidx; [exact Hinv'|lia].
Qed.

Lemma bisect_reach_inv (q0 : query) (cmp left right : Z) (q : query) :
  0 < query_index q0 < 2 ^ 30 ->
  bisect_reach q0 cmp left right q ->
  bisect_inv (query_index q0) cmp left right (query_index q).
Proof.
  intros Hn Hr. induction Hr as [|cmp left right q cmp' left' right' q' Hr IH Hit].
  - unfold bisect_inv. simpl. lia.
  - rewrite bisect_iter_eq in Hit.
    pose proof (bisect_next_progress _ _ _ _ _ (proj2 Hn) IH) as Hp.
    destruct (bisect_next _ _ _ _) as [[[l r] i]|]; [|discriminate].
    destruct Hp as (_ & _ & _ & _ & Hgo).
    destruct (probe q i) as [[c q1]| |] eqn:Hprobe; simpl in Hit; try discriminate.
    apply probe_ret in Hprobe as (Hidx & _).
    destruct (_ && _); [discriminate|].
    destruct (l =? r) eqn:Hlr; simpl in Hit; [discriminate|].
    injection Hit as <- <- <- <-.
    rewrite Hidx. apply Hgo. lia.
Qed.


(** ** In-node search: what the bisection finds *)

Lemma search_of_fields (q q0 : query) :
  search_of q = search_of q0 ->
  query_node q = query_node q0 /\ query_key q = query_key q0
  /\ query_flags q = query_flags q0 /\ query_depth q = query_depth q0
  /\ query_parent q = query_parent q0.
Proof. destruct q, q0. unfold search_of. simpl. intros [= -> -> -> -> -> -> ->]. auto. Qed.

Section Search.

Variable q0 : query.
Variable keys : Z -> key.

Hypothesis index_range : 0 < query_index q0 < 2 ^ 30.
Hypothesis keys_read :
  forall i, 0 <= i < query_index q0 -> key_at q0 i = Ret (keys i).
Hypothesis cmp_mono :
  forall i j, 0 <= i -> i <= j < query_index q0 ->
    cmp_at keys q0 i > 0 -> cmp_at keys q0 j > 0.

Lemma probe_in_search (q : query) (i : Z) :
  search_of q = search_of q0 ->
  0 <= i < query_index q0 ->
  exists q', probe q i = Ret (cmp_at keys q0 i, q')
             /\ query_index q' = i /\ search_of q' = search_of q0.
Proof.
  intros Hs Hi.
  pose proof (keys_read i Hi) as Hk.
  rewrite key_at_search_of, <- Hs, <- key_at_search_of in Hk.
  destruct (probe_of_key_at _ _ _ Hk) as (q' & Hp).
  destruct (search_of_fields _ _ Hs) as (_ & Hkey & _).
  exists q'. unfold cmp_at. rewrite <- Hkey. split; [exact Hp|].
  apply probe_ret in Hp as (Hidx & Hs' & _). split; congruence.
Qed.

Lemma bisect_correct (fuel : nat) :
  forall (cmp left right : Z) (q : query),
    search_of q = search_of q0 ->
    bisect_sem_inv (query_index q0) (cmp_at keys q0) cmp left right (query_index q) ->
    bisect_measure cmp left right (query_index q) < Z.of_nat fuel ->
    exists res, bisect fuel cmp left right q = Ret res
                /\ bisect_post (query_index q0) (cmp_at keys q0) q0 res.
Proof.
  set (n := query_index q0). set (cmpf := cmp_at keys q0).
  induction fuel as [|fuel IH]; intros cmp left right q Hs (Hinv & Hleft & Hsem) Hm.
  - pose proof (bisect_measure_nonneg _ _ _ _ _ Hinv). lia.
  - simpl. rewrite bisect_iter_eq.
    pose proof (bisect_next_progress _ _ _ _ _ (proj2 index_range) Hinv) as Hp.
    destruct (search_of_fields _ _ Hs) as (_ & _ & Hflags & _).
    destruct (bisect_next _ _ _ _) as [[[l r] i]|].
    + destruct Hp as (Hli & Hir & Hpos & Hneg & Hgo).
      destruct (probe_in_search q i Hs ltac:(fold n; lia)) as (q' & Hprobe & Hidx & Hs').
      rewrite Hprobe. simpl. rewrite Hflags.
      fold cmpf. set (c := cmpf i).
      assert (Hright : forall j, r < j < n -> cmpf j > 0).
      { intros j Hj. destruct (cmp >? 0) eqn:Hc.
        - destruct (Hpos ltac:(lia)) as (_ & -> & _). apply Hsem. lia.
        - destruct (Hneg ltac:(lia)) as (_ & -> & _). apply Hsem. lia. }
      assert (Hleft' : l = 0 \/ cmpf l <= 0).
      { destruct (cmp >? 0) eqn:Hc.
        - destruct (Hpos ltac:(lia)) as (-> & _). exact Hleft.
        - destruct (Hneg ltac:(lia)) as (-> & _). right. apply Hsem. }
      destruct ((c =? 0) && negb (flag_set (query_flags q0) QUERY_MULTIPLE)) eqn:Hbreak.
      * eexists. split; [reflexivity|]. simpl. rewrite Hidx. fold n.
        apply andb_true_iff in Hbreak as (Hc0 & Hsingle).
        apply negb_true_iff in Hsingle.
        repeat split; try lia; try assumption. intros _. right. split; [lia|assumption].
      * destruct (l =? r) eqn:Hlr; simpl.
        -- eexists. split; [reflexivity|]. simpl. rewrite Hidx. fold n.
           assert (i = l) by lia. assert (i = r) by lia.
           repeat split; try lia; try assumption.
           ++ intros Hc j Hj. fold cmpf.
              assert (cmpf l = c) by (subst c; f_equal; lia).
              assert (l = 0) by (destruct Hleft' as [?|?]; [assumption|lia]).
              apply (cmp_mono i j); [lia|fold n; lia|]. fold cmpf. fold c. lia.
           ++ intros _. left. intros j Hj. apply Hright. lia.
        -- destruct (Hgo ltac:(lia) c) as (Hinv' & Hm').
           apply IH; [exact Hs'| |rewrite Hidx; lia].
           rewrite Hidx. split; [exact Hinv'|]. split; [exact Hleft'|].
           destruct (c >? 0) eqn:Hc.
           ++ intros j Hj. apply (cmp_mono i j); [lia|fold n; lia|]. fold cmpf. fold c. lia.
           ++ split; [fold c; lia|exact Hright].
    + destruct Hp as (Hc & Hidx).
      eexists. split; [reflexivity|]. simpl. split; [reflexivity|].
      intros j Hj. fold cmpf.
      assert (Hc' : (cmp >? 0) = true) by lia. rewrite Hc' in Hsem.
      assert (left = 0).
      { destruct Hleft as [?|Hle]; [assumption|].
        specialize (Hsem left). unfold bisect_inv in Hinv. rewrite Hc' in Hinv.
        fold n in Hinv. lia. }
      apply (cmp_mono (query_index q) j); [lia|fold n; lia|].
      apply Hsem. unfold bisect_inv in Hinv. fold n in Hinv. lia.
Qed.

End Search.

Section Order.

(** [keycmp] is a total preorder: the sign of [keycmp a b] says whether
    [a] comes before, with or after [b]. *)
Hypothesis keycmp_trans :
  forall a b c, keycmp a b <= 0 -> keycmp b c <= 0 -> keycmp a c <= 0.
Hypothesis keycmp_swap :
  forall a b, 0 <= keycmp a b <-> keycmp b a <= 0.

Lemma best_match_unique (n : Z) (cmpf : Z -> Z) (m i : Z) :
  best_match n cmpf m -> best_match n cmpf i -> i = m.
Proof.
  intros (Hm & Hcm & Hupm) (Hi & Hci & Hupi).
  destruct (Z.lt_trichotomy i m) as [Hlt|[Heq|Hgt]]; [|exact Heq|].
  - specialize (Hupi m). lia.
  - specialize (Hupm i). lia.
Qed.

(** C1. On a node whose keys, as the query reads them, are sorted under
    [keycmp], a query without the NEXT flag and with index [n] in
    (0, record count] gets: NotFound when every key below [n] is above the
    target; otherwise, with [m] the largest index below [n] whose key is
    not above the target, NotFound when the node is a leaf, the key at [m]
    differs from the target and the query is EXACT, and else success with
    the index left on [m] (or, for a single-match query, on a record whose
    key equals the target, where the search stops early) and the value of
    that record located; a value that cannot be located or has length zero
    is fatal. *)
Theorem node_query_finds (fuel : nat) (q : query) (keys : Z -> key) :
  flag_set (query_flags q) QUERY_NEXT = false ->
  0 < query_index q <= node_records (query_node q) ->
  query_index q < 2 ^ 30 ->
  2 * query_index q < Z.of_nat fuel ->
  (forall i, 0 <= i < query_index q -> key_at q i = Ret (keys i)) ->
  (forall i j, 0 <= i -> i <= j < query_index q -> keycmp (keys i) (keys j) <= 0) ->
  ((forall i, 0 <= i < query_index q -> cmp_at keys q i > 0) ->
   exists q', node_query fuel q = Ret (- ENODATA, q'))
  /\ (forall m, best_match (query_index q) (cmp_at keys q) m ->
      if negb (cmp_at keys q m =? 0) && node_is_leaf (query_node q)
         && flag_set (query_flags q) QUERY_EXACT
      then exists q', node_query fuel q = Ret (- ENODATA, q')
      else exists i,
          0 <= i < query_index q
          /\ (i = m \/ (flag_set (query_flags q) QUERY_MULTIPLE = false
                        /\ cmp_at keys q i = 0))
          /\ match node_locate_data (query_node q) i with
             | Ret (len, off) =>
               if len =? 0
               then node_query fuel q = Fatal "Corrupted record value in node"
               else exists q', node_query fuel q = Ret (0, q')
                               /\ query_index q' = i
                               /\ query_len q' = len /\ query_off q' = off
             | Fatal msg => node_query fuel q = Fatal msg
             | Timeout => False
             end).
Proof.
  intros Hnext Hidx Hmax Hfuel Hkeys Hsorted.
  set (n := query_index q) in *. set (cmpf := cmp_at keys q).
  assert (Hmono : forall i j, 0 <= i -> i <= j < n -> cmpf i > 0 -> cmpf j > 0).
  { intros i j Hi Hj Hc. unfold cmpf, cmp_at in *.
    destruct (Z_le_gt_dec (keycmp (keys j) (query_key q)) 0) as [Hle|Hgt]; [|exact Hgt].
    pose proof (keycmp_trans _ _ _ (Hsorted i j Hi Hj) Hle). lia. }
  assert (Hmono0 : forall i j, 0 <= i -> i <= j < n -> 0 <= cmpf i -> 0 <= cmpf j).
  { intros i j Hi Hj Hc. unfold cmpf, cmp_at in *.
    apply keycmp_swap. apply keycmp_swap in Hc.
    exact (keycmp_trans _ _ _ Hc (Hsorted i j Hi Hj)). }
  destruct (bisect_correct q keys ltac:(fold n; lia) Hkeys Hmono fuel 1 0 0 q eq_refl)
    as (res & Hres & Hpost).
  { unfold bisect_sem_inv, bisect_inv. simpl. fold n. repeat split; lia. }
  { unfold bisect_measure. simpl. fold n. lia. }
  fold n in Hpost. fold cmpf in Hpost.
  unfold node_query. rewrite Hnext, Hres. simpl.
  split.
  - intros Hall. destruct res as [rc q'|c q']; simpl in Hpost.
    + destruct Hpost as (-> & _). eauto.
    + destruct Hpost as (Hi & -> & _).
      specialize (Hall _ Hi). fold cmpf in Hall.
      destruct (cmpf (query_index q') >? 0) eqn:E; [eauto|lia].
  - intros m Hbest. pose proof Hbest as (Hm & Hcm & Hup).
    destruct res as [rc q'|c q']; simpl in Hpost.
    { destruct Hpost as (_ & Hall). specialize (Hall m Hm). lia. }
    destruct Hpost as (Hi & Hc & Hs & Hpos & Hneg).
    destruct (search_of_fields _ _ Hs) as (Hnode & _ & Hflags & _).
    assert (Hcle : c <= 0).
    { destruct (Z_le_gt_dec c 0) as [?|Hgt]; [assumption|].
      specialize (Hpos Hgt m Hm). lia. }
    destruct (c >? 0) eqn:Hcpos; [lia|].
    rewrite Hnode, Hflags.
    assert (Hsame : c = cmpf m /\
                    (query_index q' = m \/
                     flag_set (query_flags q) QUERY_MULTIPLE = false /\ cmpf (query_index q') = 0)).
    { destruct (Hneg Hcle) as [Hupi|(Hc0 & Hsingle)].
      - assert (Heq : query_index q' = m).
        { apply (best_match_unique n cmpf); [exact Hbest|].
          split; [exact Hi|]. split; [lia|exact Hupi]. }
        rewrite Heq in Hc. split; [exact Hc|left; exact Heq].
      - split; [|right; split; [exact Hsingle|lia]].
        assert (query_index q' <= m).
        { destruct (Z_le_gt_dec (query_index q') m) as [?|Hgt]; [assumption|].
          specialize (Hup (query_index q')). lia. }
        pose proof (Hmono0 (query_index q') m ltac:(lia) ltac:(lia)). lia. }
    destruct Hsame as (Hcm' & Hwhere). rewrite <- Hcm'.
    destruct (negb (c =? 0) && node_is_leaf (query_node q)
              && flag_set (query_flags q) QUERY_EXACT); [eauto|].
    exists (query_index q'). split; [exact Hi|]. split; [exact Hwhere|].
    match goal with
    | |- context [query_index (if ?b then ?x else ?y)] =>
      assert (Hix : query_index (if b then x else y) = query_index q')
        by (repeat match goal with
                   | |- context [if ?b then _ else _] => destruct b
                   end; reflexivity)
    end.
    rewrite Hix.
    pose proof (node_locate_data_no_timeout (query_node q) (query_index q')) as Hnt.
    destruct (node_locate_data (query_node q) (query_index q')) as [[len off]| |];
      simpl; [|reflexivity|easy].
    destruct (len =? 0); [reflexivity|].
    eexists. split; [reflexivity|]. simpl.
    repeat match goal with
           | |- context [if ?b then _ else _] => destruct b
           end; auto.
Qed.

End Order.

(** ** Flags *)

Lemma flag_set_lor (f a b : Z) :
  flag_set (Z.lor f a) b = flag_set f b || flag_set a b.
Proof.
  unfold flag_set. rewrite Z.land_lor_distr_l.
  destruct (Z.land f b =? 0) eqn:E1; destruct (Z.land a b =? 0) eqn:E2; simpl.
  - apply negb_false_iff, Z.eqb_eq, Z.lor_eq_0_iff. lia.
  - apply negb_true_iff, Z.eqb_neq. rewrite Z.lor_eq_0_iff. lia.
  - apply negb_true_iff, Z.eqb_neq. rewrite Z.lor_eq_0_iff. lia.
  - apply negb_true_iff, Z.eqb_neq. rewrite Z.lor_eq_0_iff. lia.
Qed.

(** ** Cursor advance *)

(** C6. [node_next]: with DONE set it reports [-ENODATA]; else with index 0
    it reports [-EAGAIN]; else it decrements the index, re-locates and
    decodes the key there, and with [cmp] its comparison against the target:
    aborts when [cmp > 0]; reports [-ENODATA] when the keys differ on a leaf
    under EXACT; and otherwise returns 0 with the value of that record
    located (a value that cannot be located or has length zero is fatal),
    DONE being set in the returned query exactly when the keys differ. *)
Theorem node_next_steps (q : query) :
  (flag_set (query_flags q) QUERY_DONE = true -> node_next q = Ret (- ENODATA, q))
  /\ (flag_set (query_flags q) QUERY_DONE = false ->
      (query_index q = 0 -> node_next q = Ret (- EAGAIN, q))
      /\ (query_index q <> 0 ->
          forall k : key,
            key_at q (to_int (query_index q - 1)) = Ret k ->
            (keycmp k (query_key q) > 0 ->
             node_next q = Fatal "B-tree records are out of order.")
            /\ (keycmp k (query_key q) < 0 ->
                node_is_leaf (query_node q) = true ->
                flag_set (query_flags q) QUERY_EXACT = true ->
                exists q', node_next q = Ret (- ENODATA, q'))
            /\ (keycmp k (query_key q) <= 0 ->
                (keycmp k (query_key q) = 0
                 \/ node_is_leaf (query_node q) = false
                 \/ flag_set (query_flags q) QUERY_EXACT = false) ->
                match node_locate_data (query_node q) (to_int (query_index q - 1)) with
                | Ret (len, off) =>
                  if len =? 0 then node_next q = Fatal "Corrupted record value in node"
                  else exists q', node_next q = Ret (0, q')
                                  /\ query_index q' = to_int (query_index q - 1)
                                  /\ query_len q' = len /\ query_off q' = off
                                  /\ (flag_set (query_flags q') QUERY_DONE = true
                                      <-> keycmp k (query_key q) <> 0)
                | Fatal msg => node_next q = Fatal msg
                | Timeout => False
                end))).
Proof.
  split; [|intros Hdone; split].
  - intros Hdone. unfold node_next. now rewrite Hdone.
  - intros Hidx. unfold node_next. rewrite Hdone, Hidx. reflexivity.
  - intros Hidx k Hk. unfold node_next. rewrite Hdone.
    destruct (query_index q =? 0) eqn:E; [lia|]. clear E.
    unfold key_at in Hk. simpl.
    set (i := to_int (query_index q - 1)) in *.
    destruct (node_locate_key (query_node q) i) as [[klen koff]| |]; simpl in *;
      try discriminate.
    rewrite Hk. simpl.
    set (cmp := keycmp k (query_key q)).
    split; [|split].
    + intros Hc. destruct (cmp >? 0) eqn:E; [reflexivity|lia].
    + intros Hc Hleaf Hexact. destruct (cmp >? 0) eqn:E; [lia|].
      rewrite Hleaf, Hexact. destruct (cmp =? 0) eqn:E0; [lia|]. simpl. eauto.
    + intros Hc Hmiss. destruct (cmp >? 0) eqn:E; [lia|].
      assert (Hno : negb (cmp =? 0) && node_is_leaf (query_node q)
                    && flag_set (query_flags q) QUERY_EXACT = false).
      { destruct Hmiss as [H0|[Hl|He]].
        - rewrite H0. reflexivity.
        - rewrite Hl. apply andb_false_iff. left. apply andb_false_r.
        - rewrite He. apply andb_false_r. }
      rewrite Hno.
      pose proof (node_locate_data_no_timeout (query_node q) i) as Hnt.
      destruct (node_locate_data (query_node q) i) as [[len off]| |]; simpl;
        [|reflexivity|easy].
      destruct (len =? 0); [reflexivity|].
      eexists. split; [reflexivity|].
      destruct (cmp =? 0) eqn:E0; simpl.
      * repeat split; try reflexivity; [rewrite Hdone; discriminate|lia].
      * repeat split; try reflexivity; [lia|].
        intros _. rewrite flag_set_lor. apply orb_true_r.
Qed.

(** ** What the in-node search leaves untouched *)

Lemma bisect_search_of (fuel : nat) :
  forall (cmp left right : Z) (q : query) (res : bisect_result),
    bisect fuel cmp left right q = Ret res ->
    match res with
    | BisectReturn rc q' => rc = - ENODATA /\ search_of q' = search_of q
    | BisectDone _ q' => search_of q' = search_of q
    end.
Proof.
  induction fuel as [|fuel IH]; intros cmp left right q res; [discriminate|].
  simpl. rewrite bisect_iter_eq.
  destruct (bisect_next _ _ _ _) as [[[l r] i]|].
  - destruct (probe q i) as [[c q1]| |] eqn:Hprobe; simpl; try discriminate.
    apply probe_ret in Hprobe as (_ & Hs & _).
    destruct (_ && _); simpl; [intros [= <-]; exact Hs|].
    destruct (negb (l =? r)); simpl; [|intros [= <-]; exact Hs].
    intros Hb. specialize (IH _ _ _ _ _ Hb).
    destruct res; [destruct IH; split|]; congruence.
  - simpl. intros [= <-]. auto.
Qed.

Lemma node_next_frame (q : query) (rc : Z) (q' : query) :
  node_next q = Ret (rc, q') ->
  query_depth q' = query_depth q /\ query_parent q' = query_parent q
  /\ flag_set (query_flags q) QUERY_NEXT = flag_set (query_flags q') QUERY_NEXT.
Proof.
  unfold node_next.
  destruct (flag_set (query_flags q) QUERY_DONE); [intros [= <- <-]; auto|].
  destruct (query_index q =? 0); [intros [= <- <-]; auto|].
  simpl. destruct (node_locate_key _ _) as [[klen koff]| |]; simpl; try discriminate.
  destruct (key_from_query _); simpl; try discriminate.
  destruct (_ >? 0); [discriminate|].
  destruct (_ && _); [intros [= <- <-]; auto|].
  destruct (node_locate_data _ _) as [[len off]| |]; simpl; try discriminate.
  destruct (len =? 0); [discriminate|].
  destruct (negb _); intros [= <- <-]; simpl; auto.
  repeat split. rewrite flag_set_lor. now rewrite orb_false_r.
Qed.

Lemma node_query_frame (fuel : nat) (q : query) (rc : Z) (q' : query) :
  node_query fuel q = Ret (rc, q') ->
  query_depth q' = query_depth q /\ query_parent q' = query_parent q
  /\ (flag_set (query_flags q) QUERY_MULTIPLE = false ->
      flag_set (query_flags q) QUERY_NEXT = false ->
      (rc = 0 \/ rc = - ENODATA) /\ query_flags q' = query_flags q).
Proof.
  unfold node_query. destruct (flag_set (query_flags q) QUERY_NEXT) eqn:Hnext.
  - intros H. apply node_next_frame in H as (Hd & Hp & _).
    repeat split; try assumption; discriminate.
  - destruct (bisect fuel 1 0 0 q) as [res| |] eqn:Hb; simpl; try discriminate.
    apply bisect_search_of in Hb.
    destruct res as [rc1 q1|c q1].
    + destruct Hb as (-> & Hs). intros [= <- <-].
      destruct (search_of_fields _ _ Hs) as (_ & _ & Hf & Hd & Hp). auto.
    + destruct (search_of_fields _ _ Hb) as (_ & _ & Hf & Hd & Hp).
      destruct (c >? 0); [intros [= <- <-]; auto|].
      destruct (_ && _); [intros [= <- <-]; auto|].
      rewrite Hf.
      destruct (flag_set (query_flags q) QUERY_MULTIPLE) eqn:Hmulti.
      * destruct (node_locate_data _ _) as [[len off]| |]; simpl; try discriminate.
        destruct (len =? 0); [discriminate|]. intros [= <- <-]. simpl.
        destruct (negb _); simpl; repeat split; try assumption; discriminate.
      * destruct (node_locate_data _ _) as [[len off]| |]; simpl; try discriminate.
        destruct (len =? 0); [discriminate|]. intros [= <- <-]. simpl. auto.
Qed.

(** ** Tree descender *)

(** C10. A query without MULTIPLE and without NEXT never gets [-EAGAIN]
    from [node_query], which returns 0 or [-ENODATA] and leaves the flags as
    they were; a pass of [btree_query] on such a query never re-ascends,
    and the query it descends to is again without MULTIPLE and NEXT; so no
    pass of a search started on such a query re-ascends. *)
Theorem single_match_never_reascends :
  (forall (fuel : nat) (q : query) (rc : Z) (q' : query),
      flag_set (query_flags q) QUERY_MULTIPLE = false ->
      flag_set (query_flags q) QUERY_NEXT = false ->
      node_query fuel q = Ret (rc, q') ->
      rc <> - EAGAIN /\ query_flags q' = query_flags q)
  /\ (forall (lookup : node -> Z -> outcome Z) (q0 q : query),
      flag_set (query_flags q0) QUERY_MULTIPLE = false ->
      flag_set (query_flags q0) QUERY_NEXT = false ->
      btree_reach lookup q0 q ->
      query_flags q = query_flags q0
      /\ forall (fuel : nat) (parent : query),
          btree_query_pass lookup fuel q <> Ret (Reascend parent)).
Proof.
  assert (Hnode : forall (fuel : nat) (q : query) (rc : Z) (q' : query),
      flag_set (query_flags q) QUERY_MULTIPLE = false ->
      flag_set (query_flags q) QUERY_NEXT = false ->
      node_query fuel q = Ret (rc, q') ->
      rc <> - EAGAIN /\ query_flags q' = query_flags q).
  { intros fuel q rc q' Hm Hn H.
    apply node_query_frame in H as (_ & _ & H).
    destruct (H Hm Hn) as ([-> | ->] & Hf); split; try assumption; discriminate. }
  assert (Hpass : forall lookup fuel q,
      flag_set (query_flags q) QUERY_MULTIPLE = false ->
      flag_set (query_flags q) QUERY_NEXT = false ->
      match btree_query_pass lookup fuel q with
      | Ret (Reascend _) => False
      | Ret (Descend q') => query_flags q' = query_flags q
      | _ => True
      end).
  { intros lookup fuel q Hm Hn. unfold btree_query_pass.
    destruct (query_depth q >=? 12); [exact I|].
    destruct (node_query fuel q) as [[err q1]| |] eqn:Hq; simpl; try exact I.
    destruct (Hnode _ _ _ _ Hm Hn Hq) as (Herr & Hf).
    destruct (err =? - EAGAIN) eqn:E; [lia|].
    destruct (negb (err =? 0)); [exact I|].
    destruct (node_is_leaf (query_node q1)); [exact I|].
    destruct (child_from_query q1); simpl; try exact I.
    destruct (if flag_set (query_flags q1) QUERY_OMAP then _ else _); simpl; try exact I.
    destruct (read_node _); simpl; try exact I.
    destruct (negb _); [exact I|].
    rewrite Hf, Hm. simpl. exact Hf. }
  split; [exact Hnode|].
  intros lookup q0 q Hm Hn Hr.
  assert (Hflags : query_flags q = query_flags q0).
  { induction Hr as [|fuel q parent Hr IH Hp|fuel q child Hr IH Hp]; [reflexivity| |].
    - specialize (Hpass lookup fuel q). rewrite IH in Hpass.
      specialize (Hpass Hm Hn). now rewrite Hp in Hpass.
    - specialize (Hpass lookup fuel q). rewrite IH in Hpass.
      specialize (Hpass Hm Hn). rewrite Hp in Hpass. congruence. }
  split; [exact Hflags|].
  intros fuel parent Hp.
  specialize (Hpass lookup fuel q). rewrite Hflags in Hpass.
  specialize (Hpass Hm Hn). now rewrite Hp in Hpass.
Qed.

Lemma btree_query_pass_finished (lookup : node -> Z -> outcome Z)
    (fuel : nat) (q : query) (rc : Z) (q' : query) :
  btree_query_pass lookup fuel q = Ret (Finished rc q') ->
  query_depth q' = query_depth q /\ query_depth q < 12.
Proof.
  unfold btree_query_pass.
  destruct (query_depth q >=? 12) eqn:Hd; [discriminate|].
  destruct (node_query fuel q) as [[err q1]| |] eqn:Hq; simpl; try discriminate.
  apply node_query_frame in Hq as (Hdepth & _).
  destruct (err =? - EAGAIN).
  { destruct (query_parent q1); intros [= <- <-]; split; [assumption|lia]. }
  destruct (negb (err =? 0)); [intros [= <- <-]; split; [assumption|lia]|].
  destruct (node_is_leaf (query_node q1)); [intros [= <- <-]; split; [assumption|lia]|].
  destruct (child_from_query q1); simpl; try discriminate.
  destruct (if flag_set (query_flags q1) QUERY_OMAP then _ else _); simpl; try discriminate.
  destruct (read_node _); simpl; try discriminate.
  destruct (negb _); [discriminate|].
  destruct (flag_set _ _); discriminate.
Qed.

(** C7. A pass of [btree_query] on a query of depth 12 or more aborts
    before any search; a pass that descends raises the depth by one; so
    whatever [btree_query] returns, the query it returns has depth at most
    11. *)
Theorem descent_depth_bound :
  (forall (lookup : node -> Z -> outcome Z) (fuel : nat) (q : query),
      12 <= query_depth q ->
      btree_query_pass lookup fuel q = Fatal "Corrupted b-tree is too deep.")
  /\ (forall (lookup : node -> Z -> outcome Z) (fuel : nat) (q child : query),
      0 <= query_depth q ->
      btree_query_pass lookup fuel q = Ret (Descend child) ->
      query_depth child = query_depth q + 1 /\ query_depth child <= 12)
  /\ (forall (fuel : nat) (q : query) (rc : Z) (q' : query),
      btree_query fuel q = Ret (rc, q') -> query_depth q' <= 11).
Proof.
  split; [|split].
  - intros lookup fuel q Hd. unfold btree_query_pass.
    destruct (query_depth q >=? 12) eqn:E; [reflexivity|lia].
  - intros lookup fuel q child Hpos. unfold btree_query_pass.
    destruct (query_depth q >=? 12) eqn:Hd; [discriminate|].
    destruct (node_query fuel q) as [[err q1]| |] eqn:Hq; simpl; try discriminate.
    apply node_query_frame in Hq as (Hdepth & _).
    destruct (err =? - EAGAIN); [destruct (query_parent q1); discriminate|].
    destruct (negb (err =? 0)); [discriminate|].
    destruct (node_is_leaf (query_node q1)); [discriminate|].
    destruct (child_from_query q1); simpl; try discriminate.
    destruct (if flag_set (query_flags q1) QUERY_OMAP then _ else _); simpl; try discriminate.
    destruct (read_node _); simpl; try discriminate.
    destruct (negb _); [discriminate|].
    destruct (flag_set _ _); intros [= <-]; simpl;
      rewrite Hdepth, to_int_small by lia; lia.
  - induction fuel as [|fuel IH]; intros q rc q'; [discriminate|].
    simpl.
    destruct (btree_query_pass _ fuel q) as [[rc1 q1|parent|child]| |] eqn:Hp;
      simpl; try discriminate.
    + intros [= <- <-]. apply btree_query_pass_finished in Hp. lia.
    + apply IH.
    + apply IH.
Qed.

Lemma btree_query_success_leaf (fuel : nat) :
  forall (q q' : query),
    btree_query fuel q = Ret (0, q') -> node_is_leaf (query_node q') = true.
Proof.
  induction fuel as [|fuel IH]; intros q q'; [discriminate|].
  simpl.
  destruct (btree_query_pass _ fuel q) as [[rc1 q1|parent|child]| |] eqn:Hp;
    simpl; try discriminate; try apply IH.
  intros [= -> ->]. revert Hp. unfold btree_query_pass.
  destruct (query_depth q >=? 12); [discriminate|].
  destruct (node_query fuel q) as [[err q1]| |]; simpl; try discriminate.
  destruct (err =? - EAGAIN); [destruct (query_parent q1); discriminate|].
  destruct (negb (err =? 0)) eqn:E; [intros [= -> ->]; simpl in E; discriminate E|].
  destruct (node_is_leaf (query_node q1)) eqn:Hleaf; [intros [= <-]; exact Hleaf|].
  destruct (child_from_query q1); simpl; try discriminate.
  destruct (if flag_set (query_flags q1) QUERY_OMAP then _ else _); simpl; try discriminate.
  destruct (read_node _); simpl; try discriminate.
  destruct (negb (oid _ =? _)); [discriminate|].
  destruct (flag_set (query_flags _) QUERY_MULTIPLE); discriminate.
Qed.

(** ** Object map lookup *)

Lemma omap_lookup_block_cases (fuel : nat) (tbl : node) (id : Z) :
  match btree_query fuel (omap_query tbl id) with
  | Ret (err, q) =>
    if err =? 0 then
      node_is_leaf (query_node q) = true
      /\ (if query_len q =? 16
          then omap_lookup_block fuel tbl id =
               Ret (le64_to_cpu (node_raw (query_node q)) (query_off q + 8))
          else omap_lookup_block fuel tbl id =
               Fatal "Wrong size of omap leaf record value")
    else omap_lookup_block fuel tbl id = Fatal "Omap record missing for id"
  | Fatal msg => omap_lookup_block fuel tbl id = Fatal msg
  | Timeout => omap_lookup_block fuel tbl id = Timeout
  end.
Proof.
  unfold omap_lookup_block, omap_lookup_with.
  change (with_flags _ _) with (omap_query tbl id).
  destruct (btree_query fuel (omap_query tbl id)) as [[err q]| |] eqn:Hq; simpl;
    try reflexivity.
  destruct (err =? 0) eqn:E; simpl; [|reflexivity].
  apply Z.eqb_eq in E. subst err.
  split; [exact (btree_query_success_leaf _ _ _ Hq)|].
  unfold bno_from_query, sizeof_omap_val, ov_paddr_off.
  destruct (query_len q =? 16); reflexivity.
Qed.

(** ** Subtree validator *)

(** What a record has passed when the loop body returns. *)
Lemma parse_record_ret (fuel : nat) (recurse : node -> key -> outcome key)
    (root : node) (omap_root : option node) (i : Z) (last_key last_key' : key) :
  parse_record fuel recurse root omap_root i last_key = Ret last_key' ->
  exists k,
    record_key root omap_root i = Ret k
    /\ keycmp last_key k <= 0
    /\ (if node_is_leaf root
        then (i = 0 \/ keycmp last_key k <> 0) /\ last_key' = k
        else exists off bno child,
            node_locate_data root i = Ret (8, off)
            /\ resolve_child fuel omap_root (le64_to_cpu (node_raw root) off) = Ret bno
            /\ read_node bno = Ret child
            /\ oid (node_object child) = le64_to_cpu (node_raw root) off
            /\ recurse child k = Ret last_key').
Proof.
  unfold parse_record, record_key.
  destruct (node_locate_key root i) as [[klen koff]| |]; simpl; try discriminate.
  destruct (call _) as [k| |]; simpl; try discriminate.
  destruct (keycmp last_key k >? 0) eqn:Hord; [discriminate|].
  destruct (node_is_leaf root) eqn:Hleaf.
  - destruct (negb (i =? 0) && true && (keycmp last_key k =? 0)) eqn:Hrep; [discriminate|].
    intros [= <-]. exists k. split; [reflexivity|]. split; [lia|].
    split; [|reflexivity].
    destruct (i =? 0) eqn:E0; [left; lia|]. right. simpl in Hrep.
    now apply Z.eqb_neq in Hrep.
  - rewrite andb_false_r. simpl.
    destruct (node_locate_data root i) as [[len off]| |]; simpl; try discriminate.
    destruct (len =? 8) eqn:Hlen; simpl; [|discriminate].
    apply Z.eqb_eq in Hlen. subst len.
    intros H. exists k. split; [reflexivity|]. split; [lia|].
    unfold resolve_child.
    destruct (match omap_root with Some tbl => _ | None => _ end) as [bno| |] eqn:Hbno;
      simpl in H; try discriminate.
    destruct (read_node bno) as [child| |] eqn:Hchild; simpl in H; try discriminate.
    destruct (le64_to_cpu (node_raw root) off =? oid (node_object child)) eqn:Hoid;
      simpl in H; [|discriminate].
    exists off, bno, child. repeat split; try assumption; try reflexivity. lia.
Qed.

Lemma parse_records_each (body : Z -> key -> outcome key) (count : nat) :
  forall (i : Z) (last_key last_key' : key),
    parse_records body count i last_key = Ret last_key' ->
    forall j, i <= j < i + Z.of_nat count ->
      exists before after, body j before = Ret after.
Proof.
  induction count as [|count IH]; intros i lk lk' Hrun j Hj; [lia|].
  simpl in Hrun.
  destruct (body i lk) as [lk1| |] eqn:Hbody; simpl in Hrun; try discriminate.
  destruct (Z.eq_dec j i) as [->|Hne]; [eauto|].
  apply (IH _ _ _ Hrun). lia.
Qed.

(** C8. When [parse_subtree] completes on a nonleaf node, every record of
    the node has a value of length 8 holding a child id; the child block is
    what the omap gives for that id when an omap root is supplied, and the
    id itself otherwise; the node read from that block carries the child id
    in its header.  Where the loop body reaches the value of a nonleaf
    record, a length other than 8 is fatal, and so is a child whose header
    id differs from the stored one, with the diagnostic "Wrong object id on
    b-tree node." *)
Theorem parse_subtree_children (fuel : nat) (root : node) (omap_root : option node) :
  node_is_leaf root = false ->
  (forall (last_key last_key' : key),
      parse_subtree (S fuel) root last_key omap_root = Ret last_key' ->
      forall i, 0 <= i < node_records root ->
        exists off bno child,
          node_locate_data root i = Ret (8, off)
          /\ match omap_root with
             | Some tbl =>
               omap_lookup_block fuel tbl (le64_to_cpu (node_raw root) off) = Ret bno
             | None => bno = le64_to_cpu (node_raw root) off
             end
          /\ read_node bno = Ret child
          /\ oid (node_object child) = le64_to_cpu (node_raw root) off)
  /\ (forall (recurse : node -> key -> outcome key) (i : Z) (last_key k : key)
             (len off : Z),
      record_key root omap_root i = Ret k ->
      keycmp last_key k <= 0 ->
      node_locate_data root i = Ret (len, off) ->
      (len <> 8 ->
       parse_record fuel recurse root omap_root i last_key =
       Fatal "Wrong size of nonleaf record value.")
      /\ (len = 8 ->
          forall (bno : Z) (child : node),
            resolve_child fuel omap_root (le64_to_cpu (node_raw root) off) = Ret bno ->
            read_node bno = Ret child ->
            oid (node_object child) <> le64_to_cpu (node_raw root) off ->
            parse_record fuel recurse root omap_root i last_key =
            Fatal "Wrong object id on b-tree node.")).
Proof.
  intros Hleaf. split.
  - intros lk lk' Hrun i Hi. simpl in Hrun.
    destruct (parse_records_each _ _ _ _ _ Hrun i ltac:(lia)) as (before & after & Hbody).
    apply parse_record_ret in Hbody as (k & _ & _ & Hrec).
    rewrite Hleaf in Hrec.
    destruct Hrec as (off & bno & child & Hloc & Hres & Hread & Hoid & _).
    exists off, bno, child. repeat split; try assumption.
    unfold resolve_child in Hres. destruct omap_root; [exact Hres|congruence].
  - intros recurse i lk k len off Hkey Hord Hloc.
    unfold parse_record. unfold record_key in Hkey.
    destruct (node_locate_key root i) as [[klen koff]| |]; simpl in *; try discriminate.
    rewrite Hkey. simpl.
    destruct (keycmp lk k >? 0) eqn:E; [lia|].
    rewrite Hleaf, andb_false_r. simpl. rewrite Hloc. simpl.
    split.
    + intros Hlen. destruct (len =? 8) eqn:E8; [lia|]. reflexivity.
    + intros -> bno child Hres Hread Hoid. simpl.
      unfold resolve_child in Hres. rewrite Hres. simpl. rewrite Hread. simpl.
      destruct (_ =? _) eqn:Eo; [lia|]. reflexivity.
Qed.

(** ** Order of the leaf traversal *)

Lemma last_cons_default (k d : key) (l : list key) :
  List.last (k :: l) d = List.last l k.
Proof.
  revert k d. induction l as [|a l IH]; intros k d; [reflexivity|].
  change (List.last (k :: a :: l) d) with (List.last (a :: l) d).
  now rewrite !IH.
Qed.

Lemma last_app_default (l1 l2 : list key) (d : key) :
  List.last (l1 ++ l2) d = List.last l2 (List.last l1 d).
Proof.
  revert d. induction l1 as [|a l1 IH]; intros d; [reflexivity|].
  change ((a :: l1) ++ l2) with (a :: (l1 ++ l2)).
  rewrite !last_cons_default. apply IH.
Qed.

Lemma chain_app (R : key -> key -> Prop) (l1 l2 : list key) (a : key) :
  chain R a (l1 ++ l2) <-> chain R a l1 /\ chain R (List.last l1 a) l2.
Proof using Type.
  clear. revert a. induction l1 as [|k l1 IH]; intros a.
  - simpl. tauto.
  - change ((k :: l1) ++ l2) with (k :: (l1 ++ l2)).
    rewrite last_cons_default. simpl. rewrite IH. tauto.
Qed.

Section Validator.

Hypothesis keycmp_trans :
  forall a b c, keycmp a b <= 0 -> keycmp b c <= 0 -> keycmp a c <= 0.
Hypothesis keycmp_swap :
  forall a b, 0 <= keycmp a b <-> keycmp b a <= 0.

Lemma key_le_refl (a : key) : key_le a a.
Proof.
  unfold key_le. destruct (Z_le_gt_dec (keycmp a a) 0) as [H|H]; [exact H|].
  apply keycmp_swap. lia.
Qed.

Lemma key_le_trans (a b c : key) : key_le a b -> key_le b c -> key_le a c.
Proof. unfold key_le. apply keycmp_trans. Qed.

Lemma chain_le_head (a a' : key) (l : list key) :
  key_le a' a -> chain key_le a l -> chain key_le a' l.
Proof.
  destruct l as [|k l]; [trivial|]. simpl. intros Ha (Hk & Hl).
  split; [exact (key_le_trans _ _ _ Ha Hk)|exact Hl].
Qed.

Lemma chain_lt_le (a : key) (l : list key) : chain key_lt a l -> chain key_le a l.
Proof.
  revert a. induction l as [|k l IH]; intros a; [trivial|].
  simpl. intros (Hk & Hl). split; [unfold key_lt, key_le in *; lia|auto].
Qed.

Lemma last_le_head (a a' x : key) (l : list key) :
  key_le a' a -> key_le (List.last l a) x -> key_le (List.last l a') x.
Proof.
  destruct l as [|k l].
  - simpl. apply key_le_trans.
  - intros _. rewrite !last_cons_default. trivial.
Qed.

(** Joining the traversal of one subtree, entered with [lk] and left with
    [mid], to what follows it. *)
Lemma chain_join (lk mid lk' : key) (l1 l2 : list key) :
  chain key_le lk l1 ->
  key_le (List.last l1 lk) mid ->
  chain key_le mid l2 ->
  key_le (List.last l2 mid) lk' ->
  chain key_le lk (l1 ++ l2) /\ key_le (List.last (l1 ++ l2) lk) lk'.
Proof.
  intros H1 Hmid H2 Hlast. split.
  - apply chain_app. split; [exact H1|]. exact (chain_le_head _ _ _ Hmid H2).
  - rewrite last_app_default. exact (last_le_head _ _ _ _ Hmid Hlast).
Qed.

Section Leaf.

Variable fuel : nat.
Variable recurse : node -> key -> outcome key.
Variable root : node.
Variable omap_root : option node.
Hypothesis root_leaf : node_is_leaf root = true.

Lemma leaf_records_strict (count : nat) :
  forall (i : Z) (lk lk' : key),
    0 < i ->
    parse_records (parse_record fuel recurse root omap_root) count i lk = Ret lk' ->
    exists ks, collect (record_key root omap_root) count i = Ret ks
               /\ chain key_lt lk ks /\ lk' = List.last ks lk.
Proof.
  induction count as [|count IH]; intros i lk lk' Hi; simpl.
  - intros [= <-]. exists []. repeat split.
  - destruct (parse_record _ _ _ _ i lk) as [lk1| |] eqn:Hbody; simpl; try discriminate.
    apply parse_record_ret in Hbody as (k & Hkey & Hord & Hrec).
    rewrite root_leaf in Hrec. destruct Hrec as (Hrep & ->).
    intros Hrest. destruct (IH (i + 1) k lk' ltac:(lia) Hrest) as (ks & Hks & Hchain & ->).
    exists (k :: ks). split; [now rewrite Hkey, Hks|].
    split; [|now rewrite last_cons_default].
    split; [unfold key_lt; lia|exact Hchain].
Qed.

Lemma leaf_records (count : nat) (lk lk' : key) :
  parse_records (parse_record fuel recurse root omap_root) count 0 lk = Ret lk' ->
  exists ks, collect (record_key root omap_root) count 0 = Ret ks
             /\ strict_leaf ks /\ chain key_le lk ks /\ lk' = List.last ks lk.
Proof.
  destruct count as [|count]; simpl.
  - intros [= <-]. exists []. repeat split.
  - destruct (parse_record _ _ _ _ 0 lk) as [lk1| |] eqn:Hbody; simpl; try discriminate.
    apply parse_record_ret in Hbody as (k & Hkey & Hord & Hrec).
    rewrite root_leaf in Hrec. destruct Hrec as (_ & ->).
    intros Hrest.
    destruct (leaf_records_strict count (0 + 1) k lk' ltac:(lia) Hrest)
      as (ks & Hks & Hchain & ->).
    exists (k :: ks). split; [now rewrite Hkey, Hks|].
    split; [exact Hchain|].
    split; [|now rewrite last_cons_default].
    split; [exact Hord|now apply chain_lt_le].
Qed.

End Leaf.

Lemma nonleaf_records (fuel : nat) (root : node) (omap_root : option node) :
  node_is_leaf root = false ->
  (forall child k lk1,
      parse_subtree fuel child k omap_root = Ret lk1 ->
      traversal_ok fuel child omap_root k lk1) ->
  forall (count : nat) (i : Z) (lk lk' : key),
    parse_records
      (parse_record fuel (fun child k => parse_subtree fuel child k omap_root)
                    root omap_root) count i lk = Ret lk' ->
    exists lss,
      collect (fun i => child ← record_child fuel root omap_root i;
                        leaf_keys fuel child omap_root) count i = Ret lss
      /\ Forall strict_leaf (concat lss)
      /\ chain key_le lk (concat (concat lss))
      /\ key_le (List.last (concat (concat lss)) lk) lk'.
Proof.
  intros Hleaf IHf. induction count as [|count IH]; intros i lk lk'; simpl.
  - intros [= <-]. exists []. simpl. split; [reflexivity|].
    split; [constructor|]. split; [exact I|apply key_le_refl].
  - destruct (parse_record _ _ _ _ i lk) as [lk1| |] eqn:Hbody; simpl; try discriminate.
    apply parse_record_ret in Hbody as (k & Hkey & Hord & Hrec).
    rewrite Hleaf in Hrec.
    destruct Hrec as (off & bno & child & Hloc & Hres & Hread & Hoid & Hsub).
    apply IHf in Hsub as (leaves & Hleaves & Hstrict & Hchain & Hlast).
    intros Hrest. destruct (IH _ _ _ Hrest) as (lss & Hlss & Hstrict' & Hchain' & Hlast').
    assert (Hchild : record_child fuel root omap_root i = Ret child).
    { unfold record_child. rewrite Hloc. simpl. rewrite Hres. simpl. exact Hread. }
    exists (leaves :: lss).
    rewrite Hchild. simpl. rewrite Hleaves. simpl. rewrite Hlss. simpl.
    split; [reflexivity|]. split; [apply Forall_app; auto|].
    rewrite concat_app.
    apply (chain_join lk lk1 lk'); try assumption.
    + exact (chain_le_head _ _ _ Hord Hchain).
    + exact (last_le_head _ _ _ _ Hord Hlast).
Qed.

Lemma parse_subtree_traversal (fuel : nat) :
  forall (root : node) (omap_root : option node) (lk lk' : key),
    parse_subtree fuel root lk omap_root = Ret lk' ->
    traversal_ok fuel root omap_root lk lk'.
Proof.
  induction fuel as [|fuel IH]; intros root omap_root lk lk'; [discriminate|].
  simpl. intros Hrun. unfold traversal_ok. simpl.
  destruct (node_is_leaf root) eqn:Hleaf.
  - apply (leaf_records _ _ _ _ Hleaf) in Hrun as (ks & Hks & Hstrict & Hchain & ->).
    exists [ks]. rewrite Hks. simpl. rewrite app_nil_r.
    split; [reflexivity|]. split; [constructor; [exact Hstrict|constructor]|].
    split; [exact Hchain|apply key_le_refl].
  - apply (nonleaf_records _ _ _ Hleaf) in Hrun as (lss & Hlss & Hstrict & Hchain & Hlast).
    + exists (concat lss). rewrite Hlss. simpl. auto.
    + intros child k lk1. apply IH.
Qed.

(** C4 (amended). When [parse_subtree] completes, the left-to-right leaf
    traversal of the tree never decreases, starting from the key the
    validator was entered with, and the keys of each single leaf increase
    strictly.  A record of a leaf, other than its first, whose key compares
    equal to the key before it is fatal with "Leaf keys are repeated."  The
    first record of a leaf is not tested for repetition: it passes whenever
    its key is not below the key the validator holds on entering the leaf,
    an equal key included, so the same key can end one leaf and start the
    next. *)
Theorem parse_subtree_leaf_order (fuel : nat) (root : node) (omap_root : option node)
    (lk lk' : key) :
  parse_subtree fuel root lk omap_root = Ret lk' ->
  (exists leaves,
      leaf_keys fuel root omap_root = Ret leaves
      /\ chain key_le lk (concat leaves)
      /\ Forall strict_leaf leaves)
  /\ (forall (recurse : node -> key -> outcome key) (leaf : node) (i : Z) (before k : key),
      i <> 0 ->
      node_is_leaf leaf = true ->
      record_key leaf omap_root i = Ret k ->
      keycmp before k = 0 ->
      parse_record fuel recurse leaf omap_root i before = Fatal "Leaf keys are repeated.")
  /\ (forall (recurse : node -> key -> outcome key) (leaf : node) (before k : key),
      node_is_leaf leaf = true ->
      record_key leaf omap_root 0 = Ret k ->
      keycmp before k <= 0 ->
      parse_record fuel recurse leaf omap_root 0 before = Ret k).
Proof.
  intros Hrun. split; [|split].
  - apply parse_subtree_traversal in Hrun as (leaves & Hl & Hstrict & Hchain & _).
    exists leaves. auto.
  - intros recurse leaf i before k Hi Hleaf Hkey Heq.
    unfold parse_record. unfold record_key in Hkey.
    destruct (node_locate_key leaf i) as [[klen koff]| |]; simpl in *; try discriminate.
    rewrite Hkey. simpl. rewrite Heq, Hleaf. simpl.
    destruct (i =? 0) eqn:E; [lia|]. reflexivity.
  - intros recurse leaf before k Hleaf Hkey Hle.
    unfold parse_record. unfold record_key in Hkey.
    destruct (node_locate_key leaf 0) as [[klen koff]| |]; simpl in *; try discriminate.
    rewrite Hkey. simpl.
    destruct (keycmp before k >? 0) eqn:E; [lia|].
    now rewrite Hleaf.
Qed.

End Validator.

(** ** Node reader: what the checks amount to *)

Lemma read_node_header (block : Z) (n : node) :
  read_node block = Ret n ->
  node_records n = le32_to_cpu (node_raw n) btn_nkeys_off
  /\ oid (node_object n) = le64_to_cpu (node_raw n) o_oid_off
  /\ 0 < node_records n.
Proof.
  intros Hread.
  destruct (read_node_fields _ _ Hread) as (_ & _ & Hvalid & _ & Hrec & _).
  revert Hread. unfold read_node. destruct (disk !! block) as [raw|]; [|discriminate].
  destruct (negb (obj_verify_csum raw)); [discriminate|].
  match goal with |- context [node_is_valid ?m] => destruct (negb (node_is_valid m)) end;
    [discriminate|].
  intros [= <-]. split; [reflexivity|]. split; [reflexivity|].
  unfold node_is_valid in Hvalid.
  destruct (to_int (node_records _) =? 0) eqn:E0; [discriminate|].
  apply Z.eqb_neq in E0.
  destruct (Z.eq_dec (le32_to_cpu raw btn_nkeys_off) 0) as [H0|H0]; [|simpl in *; lia].
  simpl in E0. rewrite H0 in E0. now contradiction E0.
Qed.

(** X1. For a mapped block with an accepted checksum and a record count
    below 2^28, [read_node] returns the node exactly when the count is not
    zero, the key area starts inside the block and the table of contents
    fits between the header and the key area; otherwise it aborts with
    "Node in block is not sane". *)
Theorem read_node_exact (block : Z) (raw : list Z) :
  disk !! block = Some raw ->
  obj_verify_csum raw = true ->
  le32_to_cpu raw btn_nkeys_off < 2 ^ 28 ->
  let n := node_of_block block raw in
  (0 < node_records n /\ node_key n <= blocksize
   /\ node_records n * entry_size n <= node_key n - sizeof_btree_node_phys ->
   read_node block = Ret n)
  /\ (~ (0 < node_records n /\ node_key n <= blocksize
         /\ node_records n * entry_size n <= node_key n - sizeof_btree_node_phys) ->
      read_node block = Fatal "Node in block is not sane").
Proof.
  intros Hmap Hcsum Hsmall n.
  assert (Hrec : 0 <= node_records n < 2 ^ 28)
    by (pose proof (le32_range raw btn_nkeys_off); simpl; unfold btn_nkeys_off in *; lia).
  assert (Hkey : 56 <= node_key n < 56 + 2 * 65536)
    by (pose proof (le16_range raw 40); pose proof (le16_range raw 42); simpl; lia).
  assert (Hrun : read_node block =
                 if node_is_valid n then Ret n else Fatal "Node in block is not sane").
  { unfold read_node. rewrite Hmap, Hcsum. simpl.
    change (mkNode _ _ _ _ _ raw _) with n.
    destruct (node_is_valid n); reflexivity. }
  assert (Hvalid : node_is_valid n = true <->
                   0 < node_records n /\ node_key n <= blocksize
                   /\ node_records n * entry_size n <= node_key n - sizeof_btree_node_phys).
  { unfold node_is_valid, entry_size, sizeof_btree_node_phys, sizeof_kvoff, sizeof_kvloc.
    rewrite (to_int_small (node_records n)) by lia.
    rewrite (to_int_small (node_key n - 56)) by lia.
    destruct (node_records n =? 0) eqn:E0; [split; [discriminate|lia]|].
    destruct (node_key n >? blocksize) eqn:Ek; [split; [discriminate|lia]|].
    destruct (node_has_fixed_kv_size n); rewrite to_int_small by lia;
      rewrite Z.leb_le; lia. }
  rewrite Hrun. split.
  - intros H. apply Hvalid in H. now rewrite H.
  - intros H. destruct (node_is_valid n) eqn:E; [|reflexivity].
    exfalso. apply H, Hvalid. reflexivity.
Qed.

(** ** Record locator: the index check and the bytes read *)

(** X2. On a node with at most 2^31 records, the locators abort with
    "Requested index out-of-bounds" exactly for the [int] indices outside
    [0, record count): a negative index is rejected like one that is too
    large, and inside the range the diagnostic never appears. *)
Theorem locate_rejects_index (n : node) (index : Z) :
  0 <= node_records n <= 2 ^ 31 ->
  - 2 ^ 31 <= index < 2 ^ 31 ->
  ((index < 0 \/ node_records n <= index) ->
   node_locate_key n index = Fatal "Requested index out-of-bounds"
   /\ node_locate_data n index = Fatal "Requested index out-of-bounds")
  /\ (0 <= index < node_records n ->
      node_locate_key n index <> Fatal "Requested index out-of-bounds"
      /\ node_locate_data n index <> Fatal "Requested index out-of-bounds").
Proof.
  intros Hrec Hidx. unfold node_locate_key, node_locate_data. split.
  - intros Hout.
    assert (Hge : (to_u32 index >=? node_records n) = true).
    { unfold to_u32. destruct Hout as [Hneg|Hbig].
      - rewrite <- (Z.mod_unique index (2 ^ 32) (-1) (index + 2 ^ 32)) by lia. lia.
      - rewrite Z.mod_small by lia. lia. }
    now rewrite Hge.
  - intros Hin. rewrite to_u32_small by lia.
    destruct (index >=? node_records n) eqn:Hge; [lia|].
    split.
    + destruct (node_has_fixed_kv_size n); simpl;
        destruct (_ >? blocksize); discriminate.
    + destruct (node_has_fixed_kv_size n); simpl;
        destruct (_ || _); discriminate.
Qed.

Lemma le16_agree (raw raw' : list Z) (lo hi e : Z) :
  (forall off, lo <= off < hi -> byte_at raw' off = byte_at raw off) ->
  lo <= e -> e + 1 < hi ->
  le16_to_cpu raw' e = le16_to_cpu raw e.
Proof. intros H Hl Hh. unfold le16_to_cpu. rewrite !H by lia. reflexivity. Qed.

(** X3. On a node accepted by [read_node] with fewer than 2^28 records,
    what the locators compute for an index below the record count depends
    on no byte of the block outside the table of contents, which lies
    between the header and the start of the key area: over any other
    mapping that agrees with the block on those bytes they give the same
    answer. *)
Theorem locate_reads_table (block : Z) (n : node) (index : Z) (raw' : list Z) :
  read_node block = Ret n ->
  node_records n < 2 ^ 28 ->
  0 <= index < node_records n ->
  (forall off, sizeof_btree_node_phys <= off < node_key n ->
     byte_at raw' off = byte_at (node_raw n) off) ->
  node_key n <= blocksize
  /\ node_locate_key (with_raw n raw') index = node_locate_key n index
  /\ node_locate_data (with_raw n raw') index = node_locate_data n index.
Proof.
  intros Hread Hsmall Hidx Hsame.
  destruct (read_node_sane _ _ Hread Hsmall) as (_ & Hkey & Htable & _).
  split; [exact Hkey|].
  unfold node_locate_key, node_locate_data, with_raw, node_has_fixed_kv_size,
    node_is_leaf, node_is_root, sizeof_btree_node_phys, btn_data_off,
    sizeof_kvoff, sizeof_kvloc in *.
  simpl.
  destruct (flag_set (node_flags n) APFS_BTNODE_FIXED_KV_SIZE);
    rewrite !(le16_agree (node_raw n) raw' 56 (node_key n) _ Hsame) by lia;
    split; reflexivity.
Qed.

(** ** Queries *)

Lemma land_lnot_disjoint (m bit : Z) : Z.land bit m = 0 -> Z.land (Z.lnot m) bit = bit.
Proof using Type.
  clear. intros H. apply Z.bits_inj'. intros i Hi.
  rewrite Z.land_spec, Z.lnot_spec by lia.
  destruct (Z.testbit bit i) eqn:Hb; [|apply andb_false_r].
  assert (Ht : Z.testbit (Z.land bit m) i = false) by (rewrite H; apply Z.bits_0).
  rewrite Z.land_spec, Hb in Ht. simpl in Ht. now rewrite Ht.
Qed.

(** The fields of the query [alloc_query] makes for a child. *)
Lemma alloc_query_fields (n : node) (p : query) :
  query_node (alloc_query n (Some p)) = n
  /\ query_key (alloc_query n (Some p)) = query_key p
  /\ query_parent (alloc_query n (Some p)) = Some p
  /\ flag_set (query_flags (alloc_query n (Some p))) QUERY_DONE = false
  /\ flag_set (query_flags (alloc_query n (Some p))) QUERY_NEXT = false
  /\ (forall bit, Z.land bit (Z.lor QUERY_DONE QUERY_NEXT) = 0 ->
      Z.land (query_flags (alloc_query n (Some p))) bit = Z.land (query_flags p) bit)
  /\ Z.land (query_flags (alloc_query n (Some p))) QUERY_TREE_MASK
     = Z.land (query_flags p) QUERY_TREE_MASK
  /\ flag_set (query_flags (alloc_query n (Some p))) QUERY_MULTIPLE
     = flag_set (query_flags p) QUERY_MULTIPLE
  /\ flag_set (query_flags (alloc_query n (Some p))) QUERY_EXACT
     = flag_set (query_flags p) QUERY_EXACT
  /\ (- 2 ^ 31 <= query_depth p < 2 ^ 31 - 1 ->
      query_depth (alloc_query n (Some p)) = query_depth p + 1)
  /\ (0 <= node_records n < 2 ^ 31 ->
      query_index (alloc_query n (Some p)) = node_records n).
Proof.
  assert (Hbit : forall bit, Z.land bit (Z.lor QUERY_DONE QUERY_NEXT) = 0 ->
            Z.land (query_flags (alloc_query n (Some p))) bit = Z.land (query_flags p) bit).
  { intros bit Hdis. simpl.
    rewrite <- Z.land_assoc. now rewrite land_lnot_disjoint. }
  assert (Hclear : forall bit, Z.land (Z.lnot (Z.lor QUERY_DONE QUERY_NEXT)) bit = 0 ->
            flag_set (query_flags (alloc_query n (Some p))) bit = false).
  { intros bit H0. unfold flag_set. simpl.
    rewrite <- Z.land_assoc, H0, Z.land_0_r. reflexivity. }
  split; [reflexivity|]. split; [reflexivity|]. split; [reflexivity|].
  split; [apply Hclear; reflexivity|]. split; [apply Hclear; reflexivity|].
  split; [exact Hbit|].
  split; [apply Hbit; reflexivity|].
  split; [unfold flag_set; rewrite Hbit by reflexivity; reflexivity|].
  split; [unfold flag_set; rewrite Hbit by reflexivity; reflexivity|].
  split; intros H; simpl; apply to_int_small; lia.
Qed.


(** ** In-node search: what a result says about the record *)

(** The comparison the bisection ends on is that of the key under the
    index it ends on. *)
Lemma bisect_done_key (fuel : nat) :
  forall (cmp left right : Z) (q : query) (c : Z) (q' : query),
    bisect fuel cmp left right q = Ret (BisectDone c q') ->
    exists k, key_at q (query_index q') = Ret k /\ c = keycmp k (query_key q).
Proof.
  induction fuel as [|fuel IH]; intros cmp left right q c q'; [discriminate|].
  simpl. rewrite bisect_iter_eq.
  destruct (bisect_next _ _ _ _) as [[[l r] i]|]; [|discriminate].
  destruct (probe q i) as [[c1 q1]| |] eqn:Hprobe; simpl; try discriminate.
  apply probe_ret in Hprobe as (Hidx & Hs & k & Hk & Hc).
  assert (Hstop : Ret (BisectDone c1 q1) = Ret (BisectDone c q') ->
                  exists k, key_at q (query_index q') = Ret k /\ c = keycmp k (query_key q)).
  { intros [= <- <-]. exists k. rewrite Hidx. auto. }
  destruct (_ && _); simpl; [exact Hstop|].
  destruct (negb (l =? r)); simpl; [|exact Hstop].
  intros Hb. destruct (IH _ _ _ _ _ _ Hb) as (k' & Hk' & Hc').
  destruct (search_of_fields _ _ Hs) as (_ & Hkey & _).
  exists k'. rewrite key_at_search_of, <- Hs, <- key_at_search_of, <- Hkey. auto.
Qed.

Lemma node_next_codes (q : query) (rc : Z) (q' : query) :
  node_next q = Ret (rc, q') -> rc = 0 \/ rc = - ENODATA \/ rc = - EAGAIN.
Proof.
  unfold node_next.
  destruct (flag_set (query_flags q) QUERY_DONE); [intros [= <- <-]; auto|].
  destruct (query_index q =? 0); [intros [= <- <-]; auto|].
  simpl. destruct (node_locate_key _ _) as [[klen koff]| |]; simpl; try discriminate.
  destruct (key_from_query _); simpl; try discriminate.
  destruct (_ >? 0); [discriminate|].
  destruct (_ && _); [intros [= <- <-]; auto|].
  destruct (node_locate_data _ _) as [[len off]| |]; simpl; try discriminate.
  destruct (len =? 0); [discriminate|].
  intros [= <- <-]; auto.
Qed.

Lemma node_query_codes (fuel : nat) (q : query) (rc : Z) (q' : query) :
  node_query fuel q = Ret (rc, q') -> rc = 0 \/ rc = - ENODATA \/ rc = - EAGAIN.
Proof.
  unfold node_query. destruct (flag_set (query_flags q) QUERY_NEXT).
  - apply node_next_codes.
  - destruct (bisect fuel 1 0 0 q) as [res| |] eqn:Hb; simpl; try discriminate.
    apply bisect_search_of in Hb. destruct res as [rc1 q1|c q1].
    + destruct Hb as (-> & _). intros [= <- <-]. auto.
    + destruct (c >? 0); [intros [= <- <-]; auto|].
      destruct (_ && _); [intros [= <- <-]; auto|].
      destruct (node_locate_data _ _) as [[len off]| |]; simpl; try discriminate.
      destruct (len =? 0); [discriminate|]. intros [= <- <-]. auto.
Qed.

(** A successful in-node search: the record under the returned index has a
    key not above the target, equal to it on a leaf under EXACT, and the
    value fields of the query are those of that record. *)
Lemma node_query_success (fuel : nat) (q q' : query) :
  node_query fuel q = Ret (0, q') ->
  query_node q' = query_node q /\ query_key q' = query_key q
  /\ node_locate_data (query_node q) (query_index q') = Ret (query_len q', query_off q')
  /\ query_len q' <> 0
  /\ exists k, key_at q (query_index q') = Ret k
       /\ keycmp k (query_key q) <= 0
       /\ (node_is_leaf (query_node q) = true ->
           flag_set (query_flags q) QUERY_EXACT = true ->
           keycmp k (query_key q) = 0)
       /\ (flag_set (query_flags q') QUERY_DONE = true ->
           flag_set (query_flags q) QUERY_DONE = false ->
           keycmp k (query_key q) <> 0).
Proof.
  unfold node_query. destruct (flag_set (query_flags q) QUERY_NEXT) eqn:Hnext.
  - unfold node_next.
    destruct (flag_set (query_flags q) QUERY_DONE) eqn:Hdone; [discriminate|].
    destruct (query_index q =? 0); [discriminate|].
    simpl. set (i := to_int (query_index q - 1)).
    destruct (node_locate_key _ i) as [[klen koff]| |] eqn:Hlk; simpl; try discriminate.
    destruct (key_from_query _) as [k| |] eqn:Hkq; simpl; try discriminate.
    destruct (keycmp k (query_key q) >? 0) eqn:Hpos; [discriminate|].
    destruct (negb (keycmp k (query_key q) =? 0) && node_is_leaf (query_node q)
              && flag_set (query_flags q) QUERY_EXACT) eqn:Hmiss; [discriminate|].
    destruct (node_locate_data _ i) as [[len off]| |] eqn:Hloc; simpl; try discriminate.
    destruct (len =? 0) eqn:Hlen; [discriminate|].
    intros Hret.
    assert (Hq' : query_node q' = query_node q /\ query_key q' = query_key q
                  /\ query_index q' = i /\ query_len q' = len /\ query_off q' = off
                  /\ (flag_set (query_flags q') QUERY_DONE = true ->
                      keycmp k (query_key q) <> 0)).
    { destruct (keycmp k (query_key q) =? 0) eqn:E0; simpl in Hret;
        injection Hret as <-; simpl; repeat split; try reflexivity.
      - rewrite Hdone. discriminate.
      - intros _. lia. }
    destruct Hq' as (Hn & Hk & Hi & Hl & Ho & Hd).
    rewrite Hn, Hk, Hi, Hl, Ho.
    repeat split; try assumption; try lia.
    exists k. split; [unfold key_at; rewrite Hlk; exact Hkq|].
    split; [lia|]. split; [|auto].
    intros Hleaf Hexact. rewrite Hleaf, Hexact in Hmiss.
    destruct (keycmp k (query_key q) =? 0) eqn:E0; [lia|discriminate].
  - destruct (bisect fuel 1 0 0 q) as [res| |] eqn:Hb; simpl; try discriminate.
    pose proof (bisect_search_of _ _ _ _ _ _ Hb) as Hs.
    destruct res as [rc1 q1|c q1].
    { destruct Hs as (-> & _). discriminate. }
    destruct (bisect_done_key _ _ _ _ _ _ _ Hb) as (k & Hk & ->).
    destruct (search_of_fields _ _ Hs) as (Hnode & Hkey & Hflags & _).
    destruct (keycmp k (query_key q) >? 0) eqn:Hpos; [discriminate|].
    rewrite Hnode, Hflags.
    destruct (negb (keycmp k (query_key q) =? 0) && node_is_leaf (query_node q)
              && flag_set (query_flags q) QUERY_EXACT) eqn:Hmiss; [discriminate|].
    match goal with
    | |- context [node_locate_data _ (query_index ?x)] => set (qm := x)
    end.
    assert (Hqm : query_node qm = query_node q /\ query_key qm = query_key q
                  /\ query_index qm = query_index q1
                  /\ (flag_set (query_flags q) QUERY_DONE = false ->
                      flag_set (query_flags qm) QUERY_DONE = true ->
                      keycmp k (query_key q) <> 0)).
    { subst qm. destruct (flag_set (query_flags q) QUERY_MULTIPLE).
      - destruct (keycmp k (query_key q) =? 0) eqn:E0; simpl;
          (split; [exact Hnode|]); (split; [exact Hkey|]); (split; [reflexivity|]).
        + intros Hd0. rewrite flag_set_lor, Hflags, Hd0. discriminate.
        + intros _ _. lia.
      - split; [exact Hnode|]. split; [exact Hkey|]. split; [reflexivity|].
        intros Hd0. rewrite Hflags, Hd0. discriminate. }
    destruct Hqm as (Hn & Hky & Hix & Hdn).
    rewrite Hix.
    destruct (node_locate_data _ _) as [[len off]| |] eqn:Hloc; simpl; try discriminate.
    destruct (len =? 0) eqn:Hlen; [discriminate|].
    intros [= <-]. simpl. rewrite Hix.
    split; [exact Hn|]. split; [exact Hky|]. split; [exact Hloc|]. split; [lia|].
    exists k. split; [exact Hk|]. split; [lia|]. split.
    + intros Hleaf Hexact. rewrite Hleaf, Hexact in Hmiss.
      destruct (keycmp k (query_key q) =? 0) eqn:E0; [lia|discriminate].
    + intros Hd Hd0. exact (Hdn Hd0 Hd).
Qed.

(** The flags a first search leaves in the query it returns. *)
Lemma node_query_first_flags (fuel : nat) (q q' : query) :
  flag_set (query_flags q) QUERY_NEXT = false ->
  node_query fuel q = Ret (0, q') ->
  exists k, key_at q (query_index q') = Ret k
    /\ query_flags q' =
       if flag_set (query_flags q) QUERY_MULTIPLE
       then Z.lor (if keycmp k (query_key q) =? 0 then query_flags q
                   else Z.lor (query_flags q) QUERY_DONE) QUERY_NEXT
       else query_flags q.
Proof.
  intros Hnext. unfold node_query. rewrite Hnext.
  destruct (bisect fuel 1 0 0 q) as [res| |] eqn:Hb; simpl; try discriminate.
  pose proof (bisect_search_of _ _ _ _ _ _ Hb) as Hs.
  destruct res as [rc1 q1|c q1].
  { destruct Hs as (-> & _). discriminate. }
  destruct (bisect_done_key _ _ _ _ _ _ _ Hb) as (k & Hk & ->).
  destruct (search_of_fields _ _ Hs) as (_ & _ & Hflags & _).
  destruct (keycmp k (query_key q) >? 0); [discriminate|].
  destruct (_ && _); [discriminate|].
  rewrite Hflags.
  match goal with
  | |- context [node_locate_data _ (query_index ?x)] => set (qm := x)
  end.
  assert (Hqm : query_index qm = query_index q1
                /\ query_flags qm =
                   if flag_set (query_flags q) QUERY_MULTIPLE
                   then Z.lor (if keycmp k (query_key q) =? 0 then query_flags q
                               else Z.lor (query_flags q) QUERY_DONE) QUERY_NEXT
                   else query_flags q).
  { subst qm. destruct (flag_set (query_flags q) QUERY_MULTIPLE);
      [|split; [reflexivity|exact Hflags]].
    destruct (keycmp k (query_key q) =? 0); simpl; rewrite ?Hflags; auto. }
  destruct Hqm as (Hix & Hfl).
  destruct (node_locate_data _ _) as [[len off]| |]; simpl; try discriminate.
  destruct (len =? 0); [discriminate|].
  intros [= <-]. simpl. exists k. rewrite Hix, Hfl. auto.
Qed.

Lemma node_query_multiple_flags_aux (fuel : nat) (q q' : query) :
  flag_set (query_flags q) QUERY_MULTIPLE = true ->
  flag_set (query_flags q) QUERY_NEXT = false ->
  node_query fuel q = Ret (0, q') ->
  flag_set (query_flags q') QUERY_NEXT = true
  /\ flag_set (query_flags q') QUERY_MULTIPLE = true.
Proof.
  intros Hmulti Hnext Hrun.
  destruct (node_query_first_flags _ _ _ Hnext Hrun) as (k & _ & Hfl).
  rewrite Hmulti in Hfl. rewrite Hfl.
  destruct (keycmp k (query_key q) =? 0); rewrite !flag_set_lor, Hmulti, Hnext;
    split; reflexivity.
Qed.

(** X5. A first search under MULTIPLE that succeeds turns the query into a
    cursor: NEXT is set, so the next call on it continues with
    [node_next]; DONE is set exactly when the key of the record found
    differs from the target; MULTIPLE, EXACT and the tree flavour stay as
    they were. *)
Theorem node_query_multiple_cursor (fuel : nat) (q q' : query) :
  flag_set (query_flags q) QUERY_MULTIPLE = true ->
  flag_set (query_flags q) QUERY_NEXT = false ->
  flag_set (query_flags q) QUERY_DONE = false ->
  node_query fuel q = Ret (0, q') ->
  flag_set (query_flags q') QUERY_NEXT = true
  /\ (forall fuel', node_query fuel' q' = node_next q')
  /\ flag_set (query_flags q') QUERY_MULTIPLE = true
  /\ flag_set (query_flags q') QUERY_EXACT = flag_set (query_flags q) QUERY_EXACT
  /\ Z.land (query_flags q') QUERY_TREE_MASK = Z.land (query_flags q) QUERY_TREE_MASK
  /\ exists k, key_at q (query_index q') = Ret k
       /\ (flag_set (query_flags q') QUERY_DONE = true <-> keycmp k (query_key q) <> 0).
Proof.
  intros Hmulti Hnext Hdone Hrun.
  destruct (node_query_first_flags _ _ _ Hnext Hrun) as (k & Hk & Hfl).
  rewrite Hmulti in Hfl.
  assert (Hn : flag_set (query_flags q') QUERY_NEXT = true).
  { rewrite Hfl, flag_set_lor. apply orb_true_r. }
  split; [exact Hn|].
  split; [intros fuel'; unfold node_query; now rewrite Hn|].
  assert (Hmask : forall m, Z.land QUERY_DONE m = 0 -> Z.land QUERY_NEXT m = 0 ->
                    Z.land (query_flags q') m = Z.land (query_flags q) m).
  { intros m Hd Hx. rewrite Hfl.
    destruct (keycmp k (query_key q) =? 0);
      rewrite !Z.land_lor_distr_l, ?Hd, ?Hx, ?Z.lor_0_r; reflexivity. }
  split; [unfold flag_set; rewrite Hmask by reflexivity; exact Hmulti|].
  split; [unfold flag_set; rewrite Hmask by reflexivity; reflexivity|].
  split; [apply Hmask; reflexivity|].
  exists k. split; [exact Hk|].
  rewrite Hfl. destruct (keycmp k (query_key q) =? 0) eqn:E0.
  - rewrite flag_set_lor, Hdone. simpl. split; [discriminate|lia].
  - rewrite !flag_set_lor, Hdone. split; [lia|reflexivity].
Qed.

(** The index the bisection ends on lies in the interval it started with. *)
Lemma bisect_index_range (n : Z) (fuel : nat) :
  n < 2 ^ 30 ->
  forall (cmp left right : Z) (q : query) (c : Z) (q' : query),
    bisect_inv n cmp left right (query_index q) ->
    bisect fuel cmp left right q = Ret (BisectDone c q') ->
    0 <= query_index q' < n.
Proof.
  intros Hn. induction fuel as [|fuel IH]; intros cmp left right q c q' Hinv;
    [discriminate|].
  simpl. rewrite bisect_iter_eq.
  pose proof (bisect_next_progress _ _ _ _ _ Hn Hinv) as Hp.
  destruct (bisect_next _ _ _ _) as [[[l r] i]|]; [|discriminate].
  destruct Hp as (Hli & Hir & _ & _ & Hgo).
  destruct (probe q i) as [[c1 q1]| |] eqn:Hprobe; simpl; try discriminate.
  apply probe_ret in Hprobe as (Hidx & _).
  destruct (_ && _); simpl; [intros [= _ <-]; lia|].
  destruct (l =? r) eqn:Hlr; simpl; [intros [= _ <-]; lia|].
  apply IH. rewrite Hidx. apply Hgo. lia.
Qed.

Lemma land_lor_outside (f m bit : Z) :
  Z.land bit m = 0 -> Z.land (Z.lor f m) bit = Z.land f bit.
Proof using Type.
  clear. intros H. rewrite Z.land_lor_distr_l, (Z.land_comm m bit), H.
  apply Z.lor_0_r.
Qed.

(** X23. [node_query] touches nothing but the cursor: whatever it
    returns, the node, the key, the parent link and the depth of the query
    are as before, and so is every flag other than DONE and NEXT; and when
    it returns 0 on a query started at an index in (0, 2^30), the index it
    leaves is inside [0, start index). *)
Theorem node_query_keeps_target (fuel : nat) (q : query) (rc : Z) (q' : query) :
  node_query fuel q = Ret (rc, q') ->
  query_node q' = query_node q
  /\ query_key q' = query_key q
  /\ query_parent q' = query_parent q
  /\ query_depth q' = query_depth q
  /\ (forall bit, Z.land bit (Z.lor QUERY_DONE QUERY_NEXT) = 0 ->
      Z.land (query_flags q') bit = Z.land (query_flags q) bit)
  /\ (rc = 0 -> 0 < query_index q < 2 ^ 30 -> 0 <= query_index q' < query_index q).
Proof.
  assert (Hbits : forall bit, Z.land bit (Z.lor QUERY_DONE QUERY_NEXT) = 0 ->
            Z.land bit QUERY_DONE = 0 /\ Z.land bit QUERY_NEXT = 0).
  { intros bit H. rewrite Z.land_lor_distr_r in H. now apply Z.lor_eq_0_iff in H. }
  assert (Hsame : forall x : query,
            query_node x = query_node q -> query_key x = query_key q ->
            query_parent x = query_parent q -> query_depth x = query_depth q ->
            query_flags x = query_flags q ->
            forall code, code <> 0 ->
              query_node x = query_node q /\ query_key x = query_key q
              /\ query_parent x = query_parent q /\ query_depth x = query_depth q
              /\ (forall bit, Z.land bit (Z.lor QUERY_DONE QUERY_NEXT) = 0 ->
                  Z.land (query_flags x) bit = Z.land (query_flags q) bit)
              /\ (code = 0 -> 0 < query_index q < 2 ^ 30 ->
                  0 <= query_index x < query_index q)).
  { intros x Hn Hk Hp Hd Hf code Hcode.
    do 4 (split; [assumption|]). split; [intros bit _; now rewrite Hf|].
    intros Hc. contradiction. }
  unfold node_query. destruct (flag_set (query_flags q) QUERY_NEXT) eqn:Hnext.
  - unfold node_next.
    destruct (flag_set (query_flags q) QUERY_DONE).
    { intros [= <- <-]. apply Hsame; auto; discriminate. }
    destruct (query_index q =? 0) eqn:E0.
    { intros [= <- <-]. apply Hsame; auto; discriminate. }
    simpl. destruct (node_locate_key _ _) as [[klen koff]| |]; simpl; try discriminate.
    destruct (key_from_query _); simpl; try discriminate.
    destruct (_ >? 0); [discriminate|].
    destruct (_ && _).
    { intros [= <- <-]. apply Hsame; auto; discriminate. }
    destruct (node_locate_data _ _) as [[len off]| |]; simpl; try discriminate.
    destruct (len =? 0); [discriminate|].
    destruct (negb _); intros [= <- <-]; simpl;
      do 4 (split; [reflexivity|]); split;
      try (intros _ Hidx; rewrite to_int_small by lia; lia).
    + intros bit Hbit. apply land_lor_outside. apply Hbits, Hbit.
    + reflexivity.
  - destruct (bisect fuel 1 0 0 q) as [res| |] eqn:Hb; simpl; try discriminate.
    pose proof (bisect_search_of _ _ _ _ _ _ Hb) as Hs.
    destruct res as [rc1 q1|c q1].
    { destruct Hs as (-> & Hs). intros [= <- <-].
      destruct (search_of_fields _ _ Hs) as (Hn & Hk & Hf & Hd & Hp).
      apply Hsame; auto; discriminate. }
    destruct (search_of_fields _ _ Hs) as (Hn & Hk & Hf & Hd & Hp).
    assert (Hrange : 0 < query_index q < 2 ^ 30 -> 0 <= query_index q1 < query_index q).
    { intros Hidx.
      apply (bisect_index_range (query_index q) fuel ltac:(lia) 1 0 0 q c q1);
        [|exact Hb].
      unfold bisect_inv. simpl. lia. }
    destruct (c >? 0).
    { intros [= <- <-]. apply Hsame; auto; discriminate. }
    destruct (_ && _).
    { intros [= <- <-]. apply Hsame; auto; discriminate. }
    match goal with
    | |- context [node_locate_data _ (query_index ?x)] => set (qm := x)
    end.
    assert (Hqm : query_node qm = query_node q /\ query_key qm = query_key q
                  /\ query_parent qm = query_parent q /\ query_depth qm = query_depth q
                  /\ query_index qm = query_index q1
                  /\ forall bit, Z.land bit (Z.lor QUERY_DONE QUERY_NEXT) = 0 ->
                       Z.land (query_flags qm) bit = Z.land (query_flags q) bit).
    { subst qm. destruct (flag_set (query_flags q1) QUERY_MULTIPLE).
      - destruct (negb (c =? 0)); simpl;
          do 5 (split; [first [assumption|reflexivity]|]);
          intros bit Hbit; destruct (Hbits bit Hbit) as (HD & HN);
          rewrite !land_lor_outside by assumption; congruence.
      - do 5 (split; [first [assumption|reflexivity]|]). intros bit _. congruence. }
    destruct Hqm as (Hn' & Hk' & Hp' & Hd' & Hi' & Hf').
    destruct (node_locate_data _ _) as [[len off]| |]; simpl; try discriminate.
    destruct (len =? 0); [discriminate|].
    intros [= <- <-]. simpl. rewrite Hi'.
    do 4 (split; [assumption|]). split; [exact Hf'|]. intros _. exact Hrange.
Qed.

(** ** Tree descender: what a pass and a result say *)

(** One pass from [next_node], read backwards from where it leads. *)
Lemma btree_query_pass_inv (lookup : node -> Z -> outcome Z)
    (fuel : nat) (q : query) (d : descent) :
  btree_query_pass lookup fuel q = Ret d ->
  query_depth q < 12
  /\ exists err q1,
      node_query fuel q = Ret (err, q1)
      /\ match d with
         | Finished rc q' =>
           q' = q1
           /\ ((rc = - ENODATA /\ err <> 0)
               \/ (rc = 0 /\ err = 0 /\ node_is_leaf (query_node q1) = true))
         | Reascend parent => err = - EAGAIN /\ query_parent q1 = Some parent
         | Descend c =>
           err = 0 /\ node_is_leaf (query_node q1) = false
           /\ exists child_id blk n,
               child_from_query q1 = Ret child_id
               /\ (if flag_set (query_flags q1) QUERY_OMAP then blk = child_id
                   else lookup s_omap_root child_id = Ret blk)
               /\ read_node blk = Ret n
               /\ oid (node_object n) = child_id
               /\ c = (if flag_set (query_flags q1) QUERY_MULTIPLE
                       then alloc_query n (Some q1) else with_child q1 n)
         end.
Proof.
  unfold btree_query_pass.
  destruct (query_depth q >=? 12) eqn:Hd; [discriminate|].
  destruct (node_query fuel q) as [[err q1]| |] eqn:Hq; simpl; try discriminate.
  pose proof (node_query_codes _ _ _ _ Hq) as Hcodes.
  intros Hpass. split; [lia|]. exists err, q1. split; [reflexivity|].
  destruct (err =? - EAGAIN) eqn:Eagain.
  { apply Z.eqb_eq in Eagain. subst err.
    destruct (query_parent q1) eqn:Hp; injection Hpass as <-.
    - auto.
    - split; [reflexivity|]. left. split; [reflexivity|discriminate]. }
  apply Z.eqb_neq in Eagain.
  destruct (err =? 0) eqn:E0; simpl in Hpass.
  2:{ injection Hpass as <-. split; [reflexivity|]. left. split; lia. }
  apply Z.eqb_eq in E0. subst err.
  destruct (node_is_leaf (query_node q1)) eqn:Hleaf.
  { injection Hpass as <-. split; [reflexivity|]. right. auto. }
  destruct (child_from_query q1) as [child_id| |]; simpl in Hpass; try discriminate.
  destruct (flag_set (query_flags q1) QUERY_OMAP) eqn:Homap.
  - simpl in Hpass.
    destruct (read_node child_id) as [n| |] eqn:Hread; simpl in Hpass; try discriminate.
    destruct (oid (node_object n) =? child_id) eqn:Hoid; simpl in Hpass; [|discriminate].
    apply Z.eqb_eq in Hoid.
    assert (Hd' : d = Descend (if flag_set (query_flags q1) QUERY_MULTIPLE
                               then alloc_query n (Some q1) else with_child q1 n))
      by (destruct (flag_set (query_flags q1) QUERY_MULTIPLE); now injection Hpass as <-).
    subst d. split; [reflexivity|]. split; [reflexivity|].
    exists child_id, child_id, n.
    repeat split; try assumption; reflexivity.
  - destruct (lookup s_omap_root child_id) as [blk| |] eqn:Hblk; simpl in Hpass;
      try discriminate.
    destruct (read_node blk) as [n| |] eqn:Hread; simpl in Hpass; try discriminate.
    destruct (oid (node_object n) =? child_id) eqn:Hoid; simpl in Hpass; [|discriminate].
    apply Z.eqb_eq in Hoid.
    assert (Hd' : d = Descend (if flag_set (query_flags q1) QUERY_MULTIPLE
                               then alloc_query n (Some q1) else with_child q1 n))
      by (destruct (flag_set (query_flags q1) QUERY_MULTIPLE); now injection Hpass as <-).
    subst d. split; [reflexivity|]. split; [reflexivity|].
    exists child_id, blk, n.
    repeat split; try assumption; reflexivity.
Qed.

(** X6. Whatever query it is run on, [btree_query] returns 0 or
    [-ENODATA]: the [-EAGAIN] of the in-node search never reaches the
    caller. *)
Theorem btree_query_codes (fuel : nat) (q : query) (rc : Z) (q' : query) :
  btree_query fuel q = Ret (rc, q') -> rc = 0 \/ rc = - ENODATA.
Proof.
  revert q. induction fuel as [|fuel IH]; intros q; [discriminate|].
  simpl.
  destruct (btree_query_pass _ fuel q) as [[rc1 q1|parent|child]| |] eqn:Hp;
    simpl; try discriminate; try apply IH.
  intros [= <- <-].
  apply btree_query_pass_inv in Hp as (_ & err & q2 & _ & _ & [(-> & _)|(-> & _)]); auto.
Qed.

(** The last pass of a successful descent. *)
Lemma btree_query_last_pass (fuel : nat) :
  forall (q q' : query),
    btree_query fuel q = Ret (0, q') ->
    node_is_leaf (query_node q') = true
    /\ exists fuel' qf, node_query fuel' qf = Ret (0, q').
Proof.
  induction fuel as [|fuel IH]; intros q q'; [discriminate|].
  simpl.
  destruct (btree_query_pass _ fuel q) as [[rc1 q1|parent|child]| |] eqn:Hp;
    simpl; try discriminate; try apply IH.
  intros [= -> ->].
  apply btree_query_pass_inv in Hp as (_ & err & q2 & Hq & -> & [(Hrc & _)|(_ & -> & Hleaf)]);
    [discriminate Hrc|].
  split; [exact Hleaf|]. eauto.
Qed.

(** X7. When [btree_query] returns 0, the query points to a leaf, its
    value fields are those of the record under its index, and the value is
    not empty; with a block size in (0, 2^30] the value lies inside the
    block. *)
Theorem btree_query_finds_value (fuel : nat) (q q' : query) :
  btree_query fuel q = Ret (0, q') ->
  node_is_leaf (query_node q') = true
  /\ node_locate_data (query_node q') (query_index q') = Ret (query_len q', query_off q')
  /\ query_len q' <> 0
  /\ (0 < blocksize <= 2 ^ 30 ->
      0 <= query_off q' /\ 0 < query_len q' /\ query_off q' + query_len q' <= blocksize).
Proof.
  intros Hrun.
  apply btree_query_last_pass in Hrun as (Hleaf & fuel' & qf & Hq).
  apply node_query_success in Hq as (Hnode & _ & Hloc & Hlen & _).
  rewrite <- Hnode in Hloc.
  split; [exact Hleaf|]. split; [exact Hloc|]. split; [exact Hlen|].
  intros Hrange.
  pose proof (node_locate_data_bounds Hrange _ _ _ _ Hloc). lia.
Qed.

(** X8. On a nonleaf node with records of fixed size, the value a
    successful search locates always has length 8, so the size check of
    [child_from_query] cannot fail there. *)
Theorem child_size_check_redundant (fuel : nat) (q q' : query) :
  node_query fuel q = Ret (0, q') ->
  node_is_leaf (query_node q) = false ->
  node_has_fixed_kv_size (query_node q) = true ->
  query_len q' = 8
  /\ child_from_query q' = Ret (le64_to_cpu (node_raw (query_node q)) (query_off q')).
Proof.
  intros Hq Hleaf Hfixed.
  apply node_query_success in Hq as (Hnode & _ & Hloc & _).
  assert (Hlen : query_len q' = 8).
  { revert Hloc. unfold node_locate_data.
    destruct (_ >=? _); [discriminate|].
    rewrite Hfixed, Hleaf. cbv zeta.
    destruct (_ || _); [discriminate|]. now intros [= <- _]. }
  split; [exact Hlen|].
  unfold child_from_query. now rewrite Hlen, Hnode.
Qed.

Lemma key_at_ext (q1 q2 : query) (i : Z) :
  query_node q1 = query_node q2 -> query_flags q1 = query_flags q2 ->
  key_at q1 i = key_at q2 i.
Proof. destruct q1, q2. simpl. intros -> ->. reflexivity. Qed.

(** A single-match descent that succeeds: the flags and the key are those
    of the start, the node is the starting node or one [read_node]
    returned, and the last in-node search ran on that node with those flags
    and that key. *)
Lemma single_descent (fuel : nat) :
  forall (q q' : query),
    flag_set (query_flags q) QUERY_MULTIPLE = false ->
    flag_set (query_flags q) QUERY_NEXT = false ->
    btree_query fuel q = Ret (0, q') ->
    query_flags q' = query_flags q /\ query_key q' = query_key q
    /\ (query_node q' = query_node q \/ exists blk, read_node blk = Ret (query_node q'))
    /\ node_is_leaf (query_node q') = true
    /\ exists fuel' qf,
        node_query fuel' qf = Ret (0, q')
        /\ query_flags qf = query_flags q /\ query_key qf = query_key q.
Proof.
  induction fuel as [|fuel IH]; intros q q' Hm Hn; [discriminate|].
  simpl.
  destruct (btree_query_pass _ fuel q) as [[rc1 q1|parent|child]| |] eqn:Hp;
    simpl; try discriminate;
    apply btree_query_pass_inv in Hp as (_ & err & q2 & Hq & Hd);
    pose proof (node_query_frame _ _ _ _ Hq) as (_ & _ & Hfr);
    destruct (Hfr Hm Hn) as (Herr & Hflags).
  - intros [= -> ->]. destruct Hd as (-> & [(Hrc & _)|(_ & -> & Hleaf)]); [discriminate Hrc|].
    pose proof (node_query_success _ _ _ Hq) as (Hnode & Hkey & _).
    repeat split; try assumption; [left; exact Hnode|].
    exists fuel, q. auto.
  - destruct Hd as (-> & _). destruct Herr; discriminate.
  - destruct Hd as (-> & _ & child_id & blk & n & _ & _ & Hread & _ & ->).
    pose proof (node_query_success _ _ _ Hq) as (_ & Hkey & _).
    rewrite Hflags, Hm.
    intros Hrun. apply IH in Hrun; [|simpl; congruence|simpl; congruence].
    simpl in Hrun.
    destruct Hrun as (Hf & Hk & Hprov & Hleaf & fuel' & qf & Hqf & Hff & Hfk).
    split; [congruence|]. split; [congruence|].
    split; [right; destruct Hprov as [->|Hex]; [eauto|exact Hex]|].
    split; [exact Hleaf|].
    exists fuel', qf. repeat split; congruence.
Qed.

(** X22. The record a single-match search ends on never has a key above
    the target, and under EXACT its key equals the target: when
    [btree_query] returns 0 on a query without MULTIPLE and NEXT, the
    returned query has the key and the flags of the start, its node is the
    starting node or one [read_node] accepted, and the key under its index,
    as the query reads it, compares [<= 0] with the target, and [= 0] when
    the query is EXACT.  No sortedness is assumed. *)
Theorem single_match_result_key (fuel : nat) (q q' : query) :
  flag_set (query_flags q) QUERY_MULTIPLE = false ->
  flag_set (query_flags q) QUERY_NEXT = false ->
  btree_query fuel q = Ret (0, q') ->
  query_key q' = query_key q
  /\ query_flags q' = query_flags q
  /\ (query_node q' = query_node q \/ exists blk, read_node blk = Ret (query_node q'))
  /\ exists k,
      key_at q' (query_index q') = Ret k
      /\ keycmp k (query_key q) <= 0
      /\ (flag_set (query_flags q) QUERY_EXACT = true -> keycmp k (query_key q) = 0).
Proof.
  intros Hm Hn Hrun.
  apply single_descent in Hrun as (Hf & Hk & Hprov & Hleaf & fuel' & qf & Hqf & Hff & Hfk);
    [|exact Hm|exact Hn].
  apply node_query_success in Hqf as (Hnode & _ & _ & _ & k & Hkey & Hle & Hexact & _).
  split; [exact Hk|]. split; [exact Hf|]. split; [exact Hprov|].
  exists k. rewrite (key_at_ext q' qf) by congruence.
  rewrite Hfk in Hle, Hexact. split; [exact Hkey|]. split; [exact Hle|].
  intros He. apply Hexact; [now rewrite <- Hnode|now rewrite Hff].
Qed.

(** ** Object map lookup: the record behind an answer *)

(** X9. Whatever the shape of the tree, a block number returned by
    [omap_lookup_block] is the address field of a 16-byte value stored in a
    leaf, in a record whose key, decoded as an omap key, compares equal to
    the key made for the id; the leaf is the root of the table or a node
    that [read_node] accepted. *)
Theorem omap_lookup_sound (fuel : nat) (tbl : node) (id bno : Z) :
  omap_lookup_block fuel tbl id = Ret bno ->
  exists (n : node) (i klen koff off : Z) (k : key),
    (n = tbl \/ exists blk, read_node blk = Ret n)
    /\ node_is_leaf n = true
    /\ node_locate_key n i = Ret (klen, koff)
    /\ read_omap_key (node_raw n) koff klen = inr k
    /\ keycmp k (init_omap_key id) = 0
    /\ node_locate_data n i = Ret (16, off)
    /\ bno = le64_to_cpu (node_raw n) (off + 8).
Proof.
  unfold omap_lookup_block, omap_lookup_with.
  change (with_flags _ _) with (omap_query tbl id).
  destruct (btree_query fuel (omap_query tbl id)) as [[err q]| |] eqn:Hq; simpl;
    try discriminate.
  destruct (err =? 0) eqn:E; simpl; [|discriminate].
  apply Z.eqb_eq in E. subst err.
  unfold bno_from_query, sizeof_omap_val, ov_paddr_off.
  destruct (query_len q =? 16) eqn:Hlen; simpl; [|discriminate].
  apply Z.eqb_eq in Hlen. intros [= <-].
  apply single_descent in Hq as (Hf & Hk & Hprov & Hleaf & fuel' & qf & Hqf & Hff & Hfk);
    [|reflexivity|reflexivity].
  simpl in Hf, Hk, Hprov, Hff, Hfk.
  apply node_query_success in Hqf as (Hnode & _ & Hloc & _ & k & Hkey & _ & Hexact & _).
  rewrite <- Hnode in Hloc, Hexact.
  rewrite (key_at_ext qf q) in Hkey by congruence.
  rewrite Hfk in Hexact. rewrite Hlen in Hloc.
  unfold key_at in Hkey.
  destruct (node_locate_key (query_node q) (query_index q)) as [[klen koff]| |] eqn:Hlk;
    simpl in Hkey; try discriminate.
  unfold key_from_query in Hkey. simpl in Hkey. rewrite Hf in Hkey.
  change (Z.land (Z.lor QUERY_OMAP QUERY_EXACT) QUERY_TREE_MASK =? QUERY_CAT)
    with false in Hkey.
  change (Z.land (Z.lor QUERY_OMAP QUERY_EXACT) QUERY_TREE_MASK =? QUERY_OMAP)
    with true in Hkey.
  change (flag_set (Z.lor QUERY_OMAP QUERY_EXACT) QUERY_MULTIPLE) with false in Hkey.
  cbv iota in Hkey.
  destruct (read_omap_key _ koff klen) as [msg|k'] eqn:Hrk; simpl in Hkey; try discriminate.
  injection Hkey as ->.
  exists (query_node q), (query_index q), klen, koff, (query_off q), k.
  split; [exact Hprov|]. split; [exact Hleaf|]. split; [exact Hlk|]. split; [exact Hrk|].
  split; [apply Hexact; [exact Hleaf|rewrite Hff; reflexivity]|].
  split; [exact Hloc|reflexivity].
Qed.

(** ** Tree descender: the single-match descent ends *)

Lemma node_next_no_timeout (q : query) : node_next q <> Timeout.
Proof.
  unfold node_next.
  destruct (flag_set (query_flags q) QUERY_DONE); [discriminate|].
  destruct (query_index q =? 0); [discriminate|].
  simpl.
  pose proof (node_locate_key_no_timeout (query_node q) (to_int (query_index q - 1))).
  destruct (node_locate_key _ _) as [[klen koff]| |]; simpl; try easy.
  match goal with
  | |- context [key_from_query ?x] => pose proof (key_from_query_no_timeout x)
  end.
  destruct (key_from_query _); simpl; try easy.
  destruct (_ >? 0); [discriminate|].
  destruct (_ && _); [discriminate|].
  pose proof (node_locate_data_no_timeout (query_node q) (to_int (query_index q - 1))).
  destruct (node_locate_data _ _) as [[len off]| |]; simpl; try easy.
  destruct (len =? 0); discriminate.
Qed.

Lemma read_node_no_timeout (block : Z) : read_node block <> Timeout.
Proof.
  unfold read_node. destruct (disk !! block) as [raw|]; [|discriminate].
  destruct (negb (obj_verify_csum raw)); [discriminate|].
  match goal with |- context [node_is_valid ?m] => destruct (negb (node_is_valid m)) end;
    discriminate.
Qed.

Section Termination.

(** A bound on the record counts found in the headers of the device and in
    the root of the volume's object map. *)
Variable N : Z.
Hypothesis N_range : 0 <= N < 2 ^ 30.
Hypothesis disk_counts :
  forall blk raw, disk !! blk = Some raw -> le32_to_cpu raw btn_nkeys_off <= N.
Hypothesis omap_root_count : 0 <= node_records s_omap_root <= N.

Lemma bisect_from_start_no_timeout (fuel : nat) (q : query) :
  0 <= query_index q <= N -> 2 * N < Z.of_nat fuel -> bisect fuel 1 0 0 q <> Timeout.
Proof.
  clear disk_counts omap_root_count. intros Hi Hf. destruct (Z.eq_dec (query_index q) 0) as [H0|H0].
  - destruct fuel as [|fuel]; [simpl in Hf; lia|].
    simpl. rewrite bisect_iter_eq, H0.
    change (bisect_next 1 0 0 0) with (@None (Z * Z * Z)). discriminate.
  - apply (bisect_no_timeout (query_index q)); [lia| |].
    + unfold bisect_inv. simpl. lia.
    + unfold bisect_measure. simpl. lia.
Qed.

Lemma node_query_no_timeout (fuel : nat) (q : query) :
  0 <= query_index q <= N -> 2 * N < Z.of_nat fuel -> node_query fuel q <> Timeout.
Proof.
  clear disk_counts omap_root_count. intros Hi Hf. unfold node_query.
  destruct (flag_set (query_flags q) QUERY_NEXT); [apply node_next_no_timeout|].
  pose proof (bisect_from_start_no_timeout fuel q Hi Hf) as Hb.
  destruct (bisect fuel 1 0 0 q) as [[rc q1|c q1]| |]; simpl; try easy.
  destruct (c >? 0); [discriminate|].
  destruct (_ && _); [discriminate|].
  match goal with
  | |- context [node_locate_data ?n ?i] => pose proof (node_locate_data_no_timeout n i)
  end.
  destruct (node_locate_data _ _) as [[len off]| |]; simpl; try easy.
  destruct (len =? 0); discriminate.
Qed.

Lemma single_descent_no_timeout (fuel : nat) :
  forall q : query,
    flag_set (query_flags q) QUERY_MULTIPLE = false ->
    flag_set (query_flags q) QUERY_NEXT = false ->
    0 <= query_index q <= N ->
    0 <= query_depth q ->
    1 <= Z.of_nat fuel ->
    descent_fuel N q <= Z.of_nat fuel ->
    btree_query fuel q <> Timeout.
Proof.
  induction fuel as [|fuel IH]; intros q Hm Hn Hi Hd H1 Hfuel; [simpl in H1; lia|].
  simpl. unfold btree_query_pass.
  destruct (query_depth q >=? 12) eqn:Hdeep; [discriminate|].
  assert (Hf2 : 2 * N + 2 <= Z.of_nat fuel).
  { unfold descent_fuel in Hfuel. destruct (flag_set (query_flags q) QUERY_OMAP); lia. }
  pose proof (node_query_no_timeout fuel q Hi ltac:(lia)) as Hnq.
  destruct (node_query fuel q) as [[err q1]| |] eqn:Hq; simpl; try easy.
  pose proof (node_query_frame _ _ _ _ Hq) as (Hdepth & _ & Hfr).
  destruct (Hfr Hm Hn) as (Herr & Hflags).
  destruct (err =? - EAGAIN) eqn:Eagain; [destruct Herr; subst err; discriminate|].
  destruct (negb (err =? 0)); [discriminate|].
  destruct (node_is_leaf (query_node q1)); [discriminate|].
  destruct (child_from_query q1) as [child_id| |] eqn:Hchild; simpl; try discriminate.
  { assert (Hblk : (if flag_set (query_flags q1) QUERY_OMAP then Ret child_id
                    else omap_lookup_with (btree_query fuel) s_omap_root child_id)
                   <> Timeout).
    { destruct (flag_set (query_flags q1) QUERY_OMAP) eqn:Homap; [discriminate|].
      unfold omap_lookup_with.
      change (with_flags _ _) with (omap_query s_omap_root child_id).
      assert (Hnested : btree_query fuel (omap_query s_omap_root child_id) <> Timeout).
      { apply IH; [reflexivity|reflexivity|simpl; rewrite to_int_small; lia
                  |simpl; lia|lia|].
        unfold descent_fuel. simpl.
        change (flag_set (Z.lor QUERY_OMAP QUERY_EXACT) QUERY_OMAP) with true.
        cbv iota. unfold descent_fuel in Hfuel.
        rewrite <- Hflags, Homap in Hfuel. lia. }
      destruct (btree_query fuel (omap_query s_omap_root child_id)) as [[e qx]| |];
        simpl; try easy.
      destruct (negb (e =? 0)); [discriminate|].
      unfold bno_from_query. destruct (negb _); discriminate. }
    destruct (if flag_set (query_flags q1) QUERY_OMAP then _ else _) as [blk| |];
      simpl; try easy.
    pose proof (read_node_no_timeout blk) as Hrn.
    destruct (read_node blk) as [n| |] eqn:Hread; simpl; try easy.
    destruct (negb (oid (node_object n) =? child_id)); [discriminate|].
    rewrite Hflags, Hm. simpl.
    destruct (read_node_fields _ _ Hread) as (Hmap & _ & _ & _ & Hrec & _).
    destruct (read_node_header _ _ Hread) as (Hcount & _ & Hpos).
    pose proof (disk_counts _ _ Hmap) as Hle. rewrite <- Hcount in Hle.
    apply IH; [simpl; congruence|simpl; congruence|simpl; rewrite to_int_small; lia
              |simpl; rewrite to_int_small; lia|lia|].
    unfold descent_fuel in *. simpl. rewrite Hflags.
    rewrite to_int_small by lia.
    destruct (flag_set (query_flags q) QUERY_OMAP); lia. }
  unfold child_from_query in Hchild. destruct (negb _); discriminate.
Qed.

(** X10. A single-match search ends.  With every record count on the
    device at most [N], a query without MULTIPLE and NEXT started at an
    index in [0, N] and a depth of at least 0 makes [btree_query] return or
    abort within [2 * N + 26] units of fuel, cyclic trees included; so does
    every lookup in an object map whose root holds at most [N] records. *)
Theorem single_match_terminates (fuel : nat) (q : query) :
  flag_set (query_flags q) QUERY_MULTIPLE = false ->
  flag_set (query_flags q) QUERY_NEXT = false ->
  0 <= query_index q <= N ->
  0 <= query_depth q ->
  2 * N + 26 <= Z.of_nat fuel ->
  btree_query fuel q <> Timeout
  /\ forall tbl id,
       0 <= node_records tbl <= N -> omap_lookup_block fuel tbl id <> Timeout.
Proof.
  intros Hm Hn Hi Hd Hfuel. split.
  - apply single_descent_no_timeout; try assumption; [lia|].
    unfold descent_fuel. destruct (flag_set (query_flags q) QUERY_OMAP); lia.
  - intros tbl id Htbl. unfold omap_lookup_block, omap_lookup_with.
    change (with_flags _ _) with (omap_query tbl id).
    assert (Hq : btree_query fuel (omap_query tbl id) <> Timeout).
    { apply single_descent_no_timeout;
        [reflexivity|reflexivity|simpl; rewrite to_int_small; lia|simpl; lia|lia|].
      unfold descent_fuel. simpl.
      change (flag_set (Z.lor QUERY_OMAP QUERY_EXACT) QUERY_OMAP) with true.
      cbv iota. lia. }
    destruct (btree_query fuel (omap_query tbl id)) as [[e qx]| |]; simpl; try easy.
    destruct (negb (e =? 0)); [discriminate|].
    unfold bno_from_query. destruct (negb _); discriminate.
Qed.

(** ** A validated omap under the descender *)

(** The validator decoded every key of a node it has passed. *)
Lemma validated_keys (vf : nat) (n : node) (lk lk' : key) :
  parse_subtree (S vf) n lk None = Ret lk' ->
  forall i, 0 <= i < node_records n -> exists k, record_key n None i = Ret k.
Proof.
  simpl. intros Hrun i Hi.
  destruct (parse_records_each _ _ _ _ _ Hrun i ltac:(lia)) as (before & after & Hbody).
  apply parse_record_ret in Hbody as (k & Hkey & _). eauto.
Qed.

(** It resolved, read and passed every child of a nonleaf node. *)
Lemma validated_children (vf : nat) (n : node) (lk lk' : key) :
  node_is_leaf n = false ->
  parse_subtree (S vf) n lk None = Ret lk' ->
  forall i, 0 <= i < node_records n ->
    exists off child k lk1,
      node_locate_data n i = Ret (8, off)
      /\ read_node (le64_to_cpu (node_raw n) off) = Ret child
      /\ oid (node_object child) = le64_to_cpu (node_raw n) off
      /\ parse_subtree vf child k None = Ret lk1.
Proof.
  simpl. intros Hleaf Hrun i Hi.
  destruct (parse_records_each _ _ _ _ _ Hrun i ltac:(lia)) as (before & after & Hbody).
  apply parse_record_ret in Hbody as (k & _ & _ & Hrec).
  rewrite Hleaf in Hrec.
  destruct Hrec as (off & bno & child & Hloc & Hres & Hread & Hoid & Hsub).
  simpl in Hres. injection Hres as <-.
  exists off, child, k, after. auto.
Qed.

(** A single-match OMAP query reads the keys as the validator does. *)
Lemma omap_query_reads (q : query) (i : Z) (k : key) :
  Z.land (query_flags q) QUERY_TREE_MASK = QUERY_OMAP ->
  flag_set (query_flags q) QUERY_MULTIPLE = false ->
  record_key (query_node q) None i = Ret k ->
  key_at q i = Ret k.
Proof.
  intros Htree Hmulti. unfold record_key, key_at.
  destruct (node_locate_key (query_node q) i) as [[klen koff]| |]; simpl; try discriminate.
  unfold key_from_query. simpl. rewrite Htree, Hmulti.
  change (QUERY_OMAP =? QUERY_CAT) with false.
  change (QUERY_OMAP =? QUERY_OMAP) with true. cbv iota.
  destruct (read_omap_key _ _ _); simpl; [discriminate|]. trivial.
Qed.

(** With every key in reach decodable, the bisection does not abort, and
    the index it ends on is in range. *)
Lemma bisect_on_readable (q0 : query) (fuel : nat) :
  query_index q0 < 2 ^ 30 ->
  (forall i, 0 <= i < query_index q0 -> exists k, key_at q0 i = Ret k) ->
  forall (cmp left right : Z) (q : query),
    search_of q = search_of q0 ->
    bisect_inv (query_index q0) cmp left right (query_index q) ->
    match bisect fuel cmp left right q with
    | Ret (BisectReturn _ _) => True
    | Ret (BisectDone _ q1) => 0 <= query_index q1 < query_index q0
    | Fatal _ => False
    | Timeout => True
    end.
Proof.
  intros Hn Hkeys. induction fuel as [|fuel IH]; intros cmp left right q Hs Hinv;
    [exact I|].
  simpl. rewrite bisect_iter_eq.
  pose proof (bisect_next_progress _ _ _ _ _ Hn Hinv) as Hp.
  destruct (bisect_next _ _ _ _) as [[[l r] i]|]; [|exact I].
  destruct Hp as (Hli & Hir & _ & _ & Hgo).
  destruct (Hkeys i ltac:(lia)) as (k & Hk).
  rewrite key_at_search_of, <- Hs, <- key_at_search_of in Hk.
  destruct (probe_of_key_at _ _ _ Hk) as (q1 & Hprobe).
  rewrite Hprobe. simpl.
  apply probe_ret in Hprobe as (Hidx & Hs1 & _).
  destruct (_ && _); simpl; [lia|].
  destruct (l =? r) eqn:Hlr; simpl; [lia|].
  apply IH; [congruence|]. rewrite Hidx. apply Hgo. lia.
Qed.

Lemma omap_flag_of_tree (f : Z) :
  Z.land f QUERY_TREE_MASK = QUERY_OMAP -> flag_set f QUERY_OMAP = true.
Proof using Type.
  clear. intros H. unfold flag_set.
  replace (Z.land f QUERY_OMAP) with (Z.land (Z.land f QUERY_TREE_MASK) QUERY_OMAP)
    by (rewrite <- Z.land_assoc; reflexivity).
  rewrite H. reflexivity.
Qed.

(** The search of a node the validator has passed, by a single-match OMAP
    query started inside the node: it does not abort on a nonleaf node,
    on a leaf it can abort only on the value of the record found, and the
    index of a record found is below the starting index. *)
Lemma node_query_on_validated (vf : nat) (lk lk' : key) (fuel : nat) (q : query) :
  parse_subtree (S vf) (query_node q) lk None = Ret lk' ->
  Z.land (query_flags q) QUERY_TREE_MASK = QUERY_OMAP ->
  flag_set (query_flags q) QUERY_MULTIPLE = false ->
  flag_set (query_flags q) QUERY_NEXT = false ->
  0 <= query_index q <= node_records (query_node q) ->
  node_records (query_node q) < 2 ^ 30 ->
  match node_query fuel q with
  | Ret (rc, q1) => rc = 0 -> 0 <= query_index q1 < query_index q
  | Fatal msg =>
    node_is_leaf (query_node q) = true
    /\ (msg = "B-tree value is out-of-bounds" \/ msg = "Corrupted record value in node")
  | Timeout => True
  end.
Proof.
  intros Hrun Htree Hmulti Hnext Hidx Hsmall.
  unfold node_query. rewrite Hnext.
  destruct (Z.eq_dec (query_index q) 0) as [H0|H0].
  { destruct fuel as [|fuel]; [exact I|].
    simpl. rewrite bisect_iter_eq, H0.
    change (bisect_next 1 0 0 0) with (@None (Z * Z * Z)). simpl.
    unfold ENODATA. lia. }
  assert (Hkeys : forall i, 0 <= i < query_index q -> exists k, key_at q i = Ret k).
  { intros i Hi. destruct (validated_keys _ _ _ _ Hrun i ltac:(lia)) as (k & Hk).
    exists k. now apply omap_query_reads. }
  pose proof (bisect_on_readable q fuel ltac:(lia) Hkeys 1 0 0 q eq_refl
                ltac:(unfold bisect_inv; simpl; lia)) as Hb.
  destruct (bisect fuel 1 0 0 q) as [[rc q1|c q1]| |] eqn:Hres; simpl;
    [|  |contradiction|exact I].
  { apply bisect_search_of in Hres as (-> & _). unfold ENODATA. lia. }
  apply bisect_search_of in Hres.
  destruct (search_of_fields _ _ Hres) as (Hnode & _ & Hflags & _).
  destruct (c >? 0); [unfold ENODATA; lia|].
  destruct (_ && _); [unfold ENODATA; lia|].
  rewrite Hflags, Hmulti.
  unfold node_locate_data.
  rewrite to_u32_small by lia.
  destruct (query_index q1 >=? node_records (query_node q)) eqn:Hge; [lia|].
  destruct (node_is_leaf (query_node q)) eqn:Hleaf.
  - match goal with
    | |- context [let '(len, voff) := ?p in _] => destruct p as [len voff]
    end.
    cbv zeta. destruct (_ || _); simpl; [auto|].
    destruct (len =? 0); simpl; auto.
  - destruct (validated_children _ _ _ _ Hleaf Hrun (query_index q1) ltac:(lia))
      as (off & child & k & lk1 & Hloc & _).
    unfold node_locate_data in Hloc. rewrite to_u32_small, Hge in Hloc by lia.
    rewrite Hleaf in Hloc. rewrite Hloc. simpl. auto.
Qed.

(** X21. Validation makes the descent through an omap safe above the
    values of its leaves.  With every record count on the device at most
    [N], once [parse_subtree] has completed on a node as part of an omap, a
    single-match OMAP query started on that node makes [btree_query] end
    within [2 * N + 14] units of fuel, and it either returns or aborts
    with one of three diagnostics: the depth limit, which the validator
    does not enforce, or one of the two on the value of a leaf record,
    which the validator does not locate.  No read, checksum, sanity, key,
    child size or object id check of the descent can fail. *)
Theorem validated_omap_descent (vf : nat) :
  forall (root : node) (lk lk' : key) (fuel : nat) (q : query),
    parse_subtree vf root lk None = Ret lk' ->
    node_records root <= N ->
    query_node q = root ->
    Z.land (query_flags q) QUERY_TREE_MASK = QUERY_OMAP ->
    flag_set (query_flags q) QUERY_MULTIPLE = false ->
    flag_set (query_flags q) QUERY_NEXT = false ->
    0 <= query_index q <= node_records root ->
    0 <= query_depth q ->
    2 * N + 14 <= Z.of_nat fuel + query_depth q ->
    1 <= Z.of_nat fuel ->
    descent_safe (btree_query fuel q).
Proof.
  clear omap_root_count.
  induction vf as [|vf IH]; intros root lk lk' fuel q Hrun Hcount Hnode Htree Hmulti
                                   Hnext Hidx Hdepth Hfuel Hfuel1; [discriminate|].
  subst root.
  destruct fuel as [|fuel]; [simpl in Hfuel1; lia|].
  simpl. unfold btree_query_pass.
  destruct (query_depth q >=? 12) eqn:Hdeep; [simpl; auto|].
  pose proof (node_query_on_validated vf lk lk' fuel q Hrun Htree Hmulti Hnext Hidx
                ltac:(lia)) as Hsafe.
  pose proof (node_query_no_timeout fuel q ltac:(lia) ltac:(lia)) as Hnt.
  destruct (node_query fuel q) as [[err q1]| |] eqn:Hq; simpl; [|tauto|easy].
  pose proof (node_query_frame _ _ _ _ Hq) as (Hdq & _ & Hfr).
  destruct (Hfr Hmulti Hnext) as (Herr & Hflags).
  destruct (err =? - EAGAIN) eqn:Eagain; [destruct Herr; subst err; discriminate|].
  destruct Herr as [-> | ->]; simpl; [|exact I].
  specialize (Hsafe eq_refl).
  pose proof (node_query_success _ _ _ Hq) as (Hn1 & Hk1 & Hloc & Hlen & _).
  rewrite Hn1.
  destruct (node_is_leaf (query_node q)) eqn:Hleaf; [exact I|].
  destruct (validated_children _ _ _ _ Hleaf Hrun (query_index q1) ltac:(lia))
    as (off & child & k & lk1 & Hloc' & Hread & Hoid & Hsub).
  rewrite Hloc' in Hloc. injection Hloc as Hl Ho.
  unfold child_from_query. rewrite <- Hl, Hn1, <- Ho. simpl.
  rewrite Hflags, (omap_flag_of_tree _ Htree). simpl.
  rewrite Hread. simpl. rewrite Hoid, Z.eqb_refl. simpl. rewrite Hmulti.
  destruct (read_node_fields _ _ Hread) as (Hmap & _ & _ & _ & Hrec & _).
  destruct (read_node_header _ _ Hread) as (Hcnt & _ & Hpos).
  pose proof (disk_counts _ _ Hmap) as Hle. rewrite <- Hcnt in Hle.
  apply (IH child k lk1); simpl; try assumption; try congruence.
  - rewrite to_int_small; lia.
  - rewrite to_int_small; lia.
  - rewrite to_int_small; lia.
  - lia.
Qed.

End Termination.

(** ** Subtree validator: cycles *)

(** X11. The validator has no depth limit of its own.  On a nonleaf node
    whose first record leads back to the node itself it recurses without
    end: no amount of fuel lets [parse_subtree] return. *)
Theorem parse_subtree_cycle (root : node) (omap_root : option node)
    (k : key) (off blk : Z) :
  node_is_leaf root = false ->
  0 < node_records root ->
  record_key root omap_root 0 = Ret k ->
  keycmp k k <= 0 ->
  node_locate_data root 0 = Ret (8, off) ->
  (forall fuel,
      resolve_child fuel omap_root (le64_to_cpu (node_raw root) off) = Ret blk
      \/ resolve_child fuel omap_root (le64_to_cpu (node_raw root) off) = Timeout) ->
  read_node blk = Ret root ->
  oid (node_object root) = le64_to_cpu (node_raw root) off ->
  forall (fuel : nat) (lk : key),
    keycmp lk k <= 0 -> parse_subtree fuel root lk omap_root = Timeout.
Proof.
  intros Hleaf Hrec Hkey Hkk Hloc Hres Hread Hoid.
  induction fuel as [|fuel IH]; intros lk Hlk; [reflexivity|].
  simpl.
  destruct (Z.to_nat (node_records root)) as [|count] eqn:Hcount; [lia|].
  simpl.
  assert (Hbody : parse_record fuel (fun child k0 => parse_subtree fuel child k0 omap_root)
                               root omap_root 0 lk = Timeout).
  { unfold parse_record. unfold record_key in Hkey.
    destruct (node_locate_key root 0) as [[klen koff]| |]; simpl in *; try discriminate.
    rewrite Hkey. simpl.
    destruct (keycmp lk k >? 0) eqn:E; [lia|].
    rewrite Hleaf. simpl. rewrite Hloc. simpl.
    change (match omap_root with
            | Some tbl => omap_lookup_block fuel tbl (le64_to_cpu (node_raw root) off)
            | None => Ret (le64_to_cpu (node_raw root) off)
            end)
      with (resolve_child fuel omap_root (le64_to_cpu (node_raw root) off)).
    destruct (Hres fuel) as [-> | ->]; simpl; [|reflexivity].
    rewrite Hread. simpl. rewrite Hoid, Z.eqb_refl. simpl.
    apply IH. exact Hkk. }
  rewrite Hbody. reflexivity.
Qed.

(** ** Subtree validator: the key handed back *)

Lemma last_nonempty_default (l : list key) (d d' : key) :
  l <> [] -> List.last l d = List.last l d'.
Proof.
  destruct l as [|k l]; [congruence|]. intros _. now rewrite !last_cons_default.
Qed.

Lemma leaf_records_last (fuel : nat) (recurse : node -> key -> outcome key)
    (root : node) (omap_root : option node) :
  node_is_leaf root = true ->
  forall (count : nat) (i : Z) (lk lk' : key),
    parse_records (parse_record fuel recurse root omap_root) count i lk = Ret lk' ->
    exists ks, collect (record_key root omap_root) count i = Ret ks
               /\ length ks = count /\ lk' = List.last ks lk.
Proof.
  intros Hleaf. induction count as [|count IH]; intros i lk lk'; simpl.
  - intros [= <-]. exists []. auto.
  - destruct (parse_record _ _ _ _ i lk) as [lk1| |] eqn:Hbody; simpl; try discriminate.
    apply parse_record_ret in Hbody as (k & Hkey & _ & Hrec).
    rewrite Hleaf in Hrec. destruct Hrec as (_ & ->).
    intros Hrest. destruct (IH _ _ _ Hrest) as (ks & Hks & Hlen & ->).
    exists (k :: ks). split; [now rewrite Hkey, Hks|].
    split; [simpl; now rewrite Hlen|].
    now rewrite last_cons_default.
Qed.

Lemma nonleaf_records_last (fuel : nat) (root : node) (omap_root : option node) :
  node_is_leaf root = false ->
  (forall child k lk1,
      0 < node_records child ->
      parse_subtree fuel child k omap_root = Ret lk1 ->
      exists leaves,
        leaf_keys fuel child omap_root = Ret leaves
        /\ concat leaves <> [] /\ lk1 = List.last (concat leaves) k) ->
  forall (count : nat) (i : Z) (lk lk' : key),
    parse_records
      (parse_record fuel (fun child k => parse_subtree fuel child k omap_root)
                    root omap_root) count i lk = Ret lk' ->
    exists lss,
      collect (fun i => child ← record_child fuel root omap_root i;
                        leaf_keys fuel child omap_root) count i = Ret lss
      /\ (count <> O -> concat (concat lss) <> [])
      /\ lk' = List.last (concat (concat lss)) lk.
Proof.
  intros Hleaf IHf. induction count as [|count IH]; intros i lk lk'; simpl.
  - intros [= <-]. exists []. simpl. auto.
  - destruct (parse_record _ _ _ _ i lk) as [lk1| |] eqn:Hbody; simpl; try discriminate.
    apply parse_record_ret in Hbody as (k & Hkey & _ & Hrec).
    rewrite Hleaf in Hrec.
    destruct Hrec as (off & bno & child & Hloc & Hres & Hread & Hoid & Hsub).
    destruct (read_node_header _ _ Hread) as (_ & _ & Hpos).
    apply IHf in Hsub as (leaves & Hleaves & Hne & ->); [|exact Hpos].
    intros Hrest. destruct (IH _ _ _ Hrest) as (lss & Hlss & _ & ->).
    assert (Hchild : record_child fuel root omap_root i = Ret child).
    { unfold record_child. rewrite Hloc. simpl. rewrite Hres. simpl. exact Hread. }
    exists (leaves :: lss).
    rewrite Hchild. simpl. rewrite Hleaves. simpl. rewrite Hlss. simpl.
    split; [reflexivity|]. rewrite concat_app.
    split.
    + intros _ Hnil. apply app_eq_nil in Hnil as (Hnil & _). contradiction.
    + rewrite last_app_default. f_equal. now apply last_nonempty_default.
Qed.

(** X12. When [parse_subtree] completes on a node with at least one
    record, the leaf traversal of the subtree is not empty and the key
    handed back is exactly its last key, whatever key the validator was
    entered with. *)
Theorem parse_subtree_last_key (fuel : nat) (root : node) (omap_root : option node)
    (lk lk' : key) :
  0 < node_records root ->
  parse_subtree fuel root lk omap_root = Ret lk' ->
  exists leaves,
    leaf_keys fuel root omap_root = Ret leaves
    /\ concat leaves <> []
    /\ lk' = List.last (concat leaves) lk.
Proof.
  revert root lk lk'.
  induction fuel as [|fuel IH]; intros root lk lk' Hpos; [discriminate|].
  simpl. intros Hrun.
  destruct (node_is_leaf root) eqn:Hleaf.
  - apply (leaf_records_last _ _ _ _ Hleaf) in Hrun as (ks & Hks & Hlen & ->).
    exists [ks]. rewrite Hks. simpl. rewrite app_nil_r.
    split; [reflexivity|]. split; [|reflexivity].
    destruct ks; [simpl in Hlen; lia|discriminate].
  - apply (nonleaf_records_last _ _ _ Hleaf) in Hrun as (lss & Hlss & Hne & ->).
    + exists (concat lss). rewrite Hlss. simpl.
      split; [reflexivity|]. split; [apply Hne; lia|reflexivity].
    + intros child k lk1 Hc. apply IH. exact Hc.
Qed.

(** Two consecutive passes through the body of the loop. *)
Lemma parse_records_consecutive (body : Z -> key -> outcome key) (count : nat) :
  forall (i : Z) (last_key last_key' : key),
    parse_records body count i last_key = Ret last_key' ->
    forall j, i <= j -> j + 1 < i + Z.of_nat count ->
      exists before mid after, body j before = Ret mid /\ body (j + 1) mid = Ret after.
Proof.
  induction count as [|count IH]; intros i lk lk' Hrun j Hj Hj'; [lia|].
  simpl in Hrun.
  destruct (body i lk) as [lk1| |] eqn:Hbody; simpl in Hrun; try discriminate.
  destruct (Z.eq_dec j i) as [->|Hne].
  - destruct count as [|count]; [lia|]. simpl in Hrun.
    destruct (body (i + 1) lk1) as [lk2| |] eqn:Hbody2; simpl in Hrun; try discriminate.
    eauto.
  - apply (IH _ _ _ Hrun); lia.
Qed.

Section Ordered.

Hypothesis keycmp_trans :
  forall a b c, keycmp a b <= 0 -> keycmp b c <= 0 -> keycmp a c <= 0.
Hypothesis keycmp_swap :
  forall a b, 0 <= keycmp a b <-> keycmp b a <= 0.

Lemma chain_le_last (l : list key) :
  forall a, chain key_le a l -> key_le a (List.last l a).
Proof.
  induction l as [|k l IH]; intros a.
  - intros _. apply (key_le_refl keycmp_swap).
  - simpl chain. intros (Hk & Hl). rewrite last_cons_default.
    exact (key_le_trans keycmp_trans _ _ _ Hk (IH _ Hl)).
Qed.

Lemma chain_le_between (l : list key) :
  forall a, chain key_le a l ->
    Forall (fun x => key_le a x /\ key_le x (List.last l a)) l.
Proof.
  induction l as [|k l IH]; intros a; [constructor|].
  simpl chain. intros (Hk & Hl). rewrite last_cons_default. constructor.
  - split; [exact Hk|]. now apply chain_le_last.
  - eapply Forall_impl; [apply IH; exact Hl|].
    intros x (Hx1 & Hx2). split; [|exact Hx2].
    exact (key_le_trans keycmp_trans _ _ _ Hk Hx1).
Qed.

(** What a completed record of a nonleaf node says of its subtree. *)
Lemma nonleaf_record_subtree (fuel : nat) (root : node) (omap_root : option node)
    (i : Z) (before after : key) :
  node_is_leaf root = false ->
  parse_record fuel (fun child k => parse_subtree fuel child k omap_root)
               root omap_root i before = Ret after ->
  exists k child leaves,
    record_key root omap_root i = Ret k
    /\ keycmp before k <= 0
    /\ record_child fuel root omap_root i = Ret child
    /\ leaf_keys fuel child omap_root = Ret leaves
    /\ Forall (fun x => key_le k x /\ key_le x after) (concat leaves).
Proof.
  intros Hleaf Hbody.
  apply parse_record_ret in Hbody as (k & Hkey & Hord & Hrec).
  rewrite Hleaf in Hrec.
  destruct Hrec as (off & bno & child & Hloc & Hres & Hread & Hoid & Hsub).
  apply (parse_subtree_traversal keycmp_trans keycmp_swap) in Hsub
    as (leaves & Hleaves & _ & Hchain & Hlast).
  exists k, child, leaves. split; [exact Hkey|]. split; [exact Hord|].
  split; [unfold record_child; rewrite Hloc; simpl; rewrite Hres; exact Hread|].
  split; [exact Hleaves|].
  eapply Forall_impl; [apply chain_le_between; exact Hchain|].
  intros x (Hx1 & Hx2). split; [exact Hx1|].
  exact (key_le_trans keycmp_trans _ _ _ Hx2 Hlast).
Qed.

(** X13. The keys of a nonleaf node that the validator has passed
    separate its subtrees: every key in the leaves under record [i] is at
    least the key of record [i], and at most the key of record [i + 1]
    when there is one. *)
Theorem separators_bound_subtrees (fuel : nat) (root : node) (omap_root : option node)
    (lk lk' : key) :
  node_is_leaf root = false ->
  parse_subtree (S fuel) root lk omap_root = Ret lk' ->
  forall i, 0 <= i < node_records root ->
    exists k child leaves,
      record_key root omap_root i = Ret k
      /\ record_child fuel root omap_root i = Ret child
      /\ leaf_keys fuel child omap_root = Ret leaves
      /\ Forall (key_le k) (concat leaves)
      /\ (i + 1 < node_records root ->
          exists k', record_key root omap_root (i + 1) = Ret k'
                     /\ Forall (fun x => key_le x k') (concat leaves)).
Proof.
  intros Hleaf Hrun i Hi. simpl in Hrun.
  destruct (Z_lt_dec (i + 1) (node_records root)) as [Hnext|Hlast].
  - destruct (parse_records_consecutive _ _ _ _ _ Hrun i ltac:(lia) ltac:(lia))
      as (before & mid & after & Hbody & Hbody').
    apply (nonleaf_record_subtree _ _ _ _ _ _ Hleaf) in Hbody
      as (k & child & leaves & Hkey & _ & Hchild & Hleaves & Hall).
    apply (nonleaf_record_subtree _ _ _ _ _ _ Hleaf) in Hbody'
      as (k' & _ & _ & Hkey' & Hord' & _).
    exists k, child, leaves. repeat split; try assumption.
    + eapply Forall_impl; [exact Hall|]. now intros x (Hx & _).
    + intros _. exists k'. split; [exact Hkey'|].
      eapply Forall_impl; [exact Hall|]. intros x (_ & Hx).
      exact (key_le_trans keycmp_trans _ _ _ Hx Hord').
  - destruct (parse_records_each _ _ _ _ _ Hrun i ltac:(lia)) as (before & after & Hbody).
    apply (nonleaf_record_subtree _ _ _ _ _ _ Hleaf) in Hbody
      as (k & child & leaves & Hkey & _ & Hchild & Hleaves & Hall).
    exists k, child, leaves. repeat split; try assumption; [|lia].
    eapply Forall_impl; [exact Hall|]. now intros x (Hx & _).
Qed.

(** ** Entry points of the validator *)

(** X14. When [parse_cat_btree] returns a root, the object map gave a
    block for the id of the catalog, the root is the node [read_node]
    accepted there, and the tree under it passed the validator from the
    all-zero key: its leaf traversal never decreases and each of its leaves
    increases strictly. *)
Theorem parse_cat_btree_checked (fuel : nat) (id : Z) (omap_root root : node) :
  parse_cat_btree fuel id omap_root = Ret root ->
  exists bno leaves,
    omap_lookup_block fuel omap_root id = Ret bno
    /\ read_node bno = Ret root
    /\ leaf_keys fuel root (Some omap_root) = Ret leaves
    /\ chain key_le zero_key (concat leaves)
    /\ Forall strict_leaf leaves.
Proof.
  unfold parse_cat_btree.
  destruct (omap_lookup_block fuel omap_root id) as [bno| |]; simpl; try discriminate.
  destruct (read_node bno) as [n| |] eqn:Hread; simpl; try discriminate.
  destruct (parse_subtree fuel n zero_key (Some omap_root)) as [lk'| |] eqn:Hrun;
    simpl; try discriminate.
  intros [= <-].
  apply (parse_subtree_traversal keycmp_trans keycmp_swap) in Hrun
    as (leaves & Hleaves & Hstrict & Hchain & _).
  exists bno, leaves. auto.
Qed.

(** X15. When [parse_omap_btree] returns a root, the block of the object
    map is mapped, its checksum verifies and its header carries the id
    asked for; the root is the node [read_node] accepted at the block
    named by the tree field, and the tree under it passed the validator as
    an omap, from the all-zero key.  A header with another id is fatal. *)
Theorem parse_omap_btree_checked (om_tree_oid_off : Z) (fuel : nat) (id : Z) :
  (forall root,
      parse_omap_btree om_tree_oid_off fuel id = Ret root ->
      exists raw leaves,
        disk !! id = Some raw
        /\ obj_verify_csum raw = true
        /\ le64_to_cpu raw o_oid_off = id
        /\ read_node (le64_to_cpu raw om_tree_oid_off) = Ret root
        /\ leaf_keys fuel root None = Ret leaves
        /\ chain key_le zero_key (concat leaves)
        /\ Forall strict_leaf leaves)
  /\ (forall raw,
      disk !! id = Some raw ->
      obj_verify_csum raw = true ->
      le64_to_cpu raw o_oid_off <> id ->
      parse_omap_btree om_tree_oid_off fuel id = Fatal "Wrong object id on object map").
Proof.
  unfold parse_omap_btree. split.
  - intros root.
    destruct (disk !! id) as [raw|]; [|discriminate].
    destruct (obj_verify_csum raw) eqn:Hcsum; simpl; [|discriminate].
    destruct (id =? le64_to_cpu raw o_oid_off) eqn:Hid; simpl; [|discriminate].
    apply Z.eqb_eq in Hid.
    destruct (read_node _) as [n| |] eqn:Hread; simpl; try discriminate.
    destruct (parse_subtree fuel n zero_key None) as [lk'| |] eqn:Hrun;
      simpl; try discriminate.
    intros [= <-].
    apply (parse_subtree_traversal keycmp_trans keycmp_swap) in Hrun
      as (leaves & Hleaves & Hstrict & Hchain & _).
    exists raw, leaves. repeat split; auto.
  - intros raw -> -> Hne. simpl.
    destruct (id =? le64_to_cpu raw o_oid_off) eqn:Hid; [lia|reflexivity].
Qed.

(** ** A lookup in an object map of one node *)

(** An exact single-match search of a leaf root with sorted keys either
    stops on a record whose key equals the target, and then returns what
    locating its value gives, or finds no such record in the node and
    returns [-ENODATA]. *)
Lemma exact_leaf_search (fuel : nat) (q : query) (keys : Z -> key) :
  flag_set (query_flags q) QUERY_MULTIPLE = false ->
  flag_set (query_flags q) QUERY_NEXT = false ->
  flag_set (query_flags q) QUERY_EXACT = true ->
  node_is_leaf (query_node q) = true ->
  0 < query_index q < 2 ^ 30 ->
  query_depth q < 12 ->
  2 * query_index q + 1 < Z.of_nat fuel ->
  (forall i, 0 <= i < query_index q -> key_at q i = Ret (keys i)) ->
  (forall i j, 0 <= i -> i <= j < query_index q -> keycmp (keys i) (keys j) <= 0) ->
  (exists i q1,
      0 <= i < query_index q /\ cmp_at keys q i = 0
      /\ query_index q1 = i /\ query_node q1 = query_node q
      /\ btree_query fuel q =
         match node_locate_data (query_node q) i with
         | Ret (len, off) =>
           if len =? 0 then Fatal "Corrupted record value in node"
           else Ret (0, with_data_loc q1 len off)
         | Fatal msg => Fatal msg
         | Timeout => Timeout
         end)
  \/ ((forall m, 0 <= m < query_index q -> cmp_at keys q m <> 0)
      /\ exists q1, btree_query fuel q = Ret (- ENODATA, q1)).
Proof.
  intros Hmulti Hnext Hexact Hleaf Hidx Hdepth Hfuel Hkeys Hsorted.
  set (n := query_index q) in *. set (cmpf := cmp_at keys q).
  assert (Hmono : forall i j, 0 <= i -> i <= j < n -> cmpf i > 0 -> cmpf j > 0).
  { intros i j Hi Hj Hc. unfold cmpf, cmp_at in *.
    destruct (Z_le_gt_dec (keycmp (keys j) (query_key q)) 0) as [Hle|Hgt]; [|exact Hgt].
    pose proof (keycmp_trans _ _ _ (Hsorted i j Hi Hj) Hle). lia. }
  assert (Hmono0 : forall i j, 0 <= i -> i <= j < n -> 0 <= cmpf i -> 0 <= cmpf j).
  { intros i j Hi Hj Hc. unfold cmpf, cmp_at in *.
    apply keycmp_swap. apply keycmp_swap in Hc.
    exact (keycmp_trans _ _ _ Hc (Hsorted i j Hi Hj)). }
  destruct fuel as [|fuel]; [simpl in Hfuel; lia|].
  destruct (bisect_correct q keys ltac:(fold n; lia) Hkeys Hmono fuel 1 0 0 q eq_refl)
    as (res & Hres & Hpost).
  { unfold bisect_sem_inv, bisect_inv. simpl. fold n. repeat split; lia. }
  { unfold bisect_measure. simpl. fold n. lia. }
  fold n in Hpost. fold cmpf in Hpost.
  assert (Hpass : btree_query (S fuel) q =
            '(err, q1) ← node_query fuel q;
            if err =? - EAGAIN then
              match query_parent q1 with
              | None => Ret (- ENODATA, q1)
              | Some parent => btree_query fuel parent
              end
            else if negb (err =? 0) then Ret (err, q1)
            else if node_is_leaf (query_node q1) then Ret (0, q1)
            else btree_query (S fuel) q).
  { simpl. unfold btree_query_pass.
    destruct (query_depth q >=? 12) eqn:Hd; [lia|].
    destruct (node_query fuel q) as [[err q1]| |] eqn:Hq; simpl; try reflexivity.
    destruct (err =? - EAGAIN); [destruct (query_parent q1); reflexivity|].
    destruct (negb (err =? 0)); [reflexivity|].
    destruct (node_is_leaf (query_node q1)) eqn:Hl; [reflexivity|].
    exfalso. revert Hq Hl. unfold node_query. rewrite Hnext, Hres. simpl.
    destruct res as [rc q2|c q2]; [intros [= _ <-] Hl|].
    - apply bisect_search_of in Hres as (_ & Hs).
      destruct (search_of_fields _ _ Hs) as (Hn & _). congruence.
    - apply bisect_search_of in Hres.
      destruct (search_of_fields _ _ Hres) as (Hn & _ & Hf & _).
      destruct (c >? 0); [intros [= _ <-] Hl; congruence|].
      destruct (_ && _); [intros [= _ <-] Hl; congruence|].
      rewrite Hf, Hmulti.
      destruct (node_locate_data _ _) as [[len off]| |]; simpl; try discriminate.
      destruct (len =? 0); [discriminate|].
      intros [= _ <-] Hl. simpl in Hl. congruence. }
  assert (Hrun : node_query fuel q =
            match res with
            | BisectReturn rc q1 => Ret (rc, q1)
            | BisectDone c q1 =>
              if c >? 0 then Ret (- ENODATA, q1)
              else if negb (c =? 0) then Ret (- ENODATA, q1)
              else
                '(len, off) ← node_locate_data (query_node q) (query_index q1);
                if len =? 0 then Fatal "Corrupted record value in node"
                else Ret (0, with_data_loc q1 len off)
            end).
  { unfold node_query. rewrite Hnext, Hres. simpl.
    destruct res as [rc q1|c q1]; [reflexivity|].
    pose proof (bisect_search_of _ _ _ _ _ _ Hres) as Hs. simpl in Hs.
    destruct (search_of_fields _ _ Hs) as (Hnode & _ & Hflags & _).
    rewrite Hnode, Hflags, Hleaf, Hexact, Hmulti.
    destruct (c >? 0); [reflexivity|].
    destruct (negb (c =? 0)); reflexivity. }
  rewrite Hpass, Hrun.
  destruct res as [rc q1|c q1]; simpl in Hpost.
  { destruct Hpost as (-> & Hall). right. split.
    - intros m Hm. specialize (Hall m Hm). lia.
    - exists q1. reflexivity. }
  destruct Hpost as (Hi & Hc & Hs & Hpos & Hneg).
  destruct (search_of_fields _ _ Hs) as (Hnode & _).
  destruct (c >? 0) eqn:Hcpos.
  { right. split.
    - intros m Hm. specialize (Hpos ltac:(lia) m Hm). lia.
    - exists q1. reflexivity. }
  destruct (c =? 0) eqn:Hc0; simpl.
  - left. exists (query_index q1), q1.
    split; [exact Hi|]. split; [fold cmpf; lia|]. split; [reflexivity|].
    split; [exact Hnode|].
    destruct (node_locate_data _ _) as [[len off]| |]; simpl; try reflexivity.
    destruct (len =? 0); [reflexivity|]. simpl.
    now rewrite Hnode, Hleaf.
  - right. split; [|exists q1; reflexivity].
    intros m Hm Hzero.
    destruct (Hneg ltac:(lia)) as [Hup|(Hz & _)]; [|lia].
    assert (m <= query_index q1).
    { destruct (Z_le_gt_dec m (query_index q1)) as [?|Hgt]; [assumption|].
      specialize (Hup m). lia. }
    pose proof (Hmono0 m (query_index q1) ltac:(lia) ltac:(lia) ltac:(lia)). lia.
Qed.

(** The lookup in an object map that is one sorted leaf with 16-byte
    values: the address stored under a key equal to the one made for the
    id when the node holds one, the "missing" abort when it holds none. *)
Lemma omap_lookup_one_node (fuel : nat) (tbl : node) (id : Z) (keys : Z -> key) :
  node_is_leaf tbl = true ->
  0 < node_records tbl < 2 ^ 30 ->
  2 * node_records tbl + 1 < Z.of_nat fuel ->
  (forall i, 0 <= i < node_records tbl -> record_key tbl None i = Ret (keys i)) ->
  (forall i j, 0 <= i -> i <= j < node_records tbl -> keycmp (keys i) (keys j) <= 0) ->
  (forall i, 0 <= i < node_records tbl ->
     exists off, node_locate_data tbl i = Ret (16, off)) ->
  ((exists m, 0 <= m < node_records tbl /\ keycmp (keys m) (init_omap_key id) = 0) ->
   exists i off,
     0 <= i < node_records tbl
     /\ keycmp (keys i) (init_omap_key id) = 0
     /\ node_locate_data tbl i = Ret (16, off)
     /\ omap_lookup_block fuel tbl id = Ret (le64_to_cpu (node_raw tbl) (off + 8)))
  /\ ((forall m, 0 <= m < node_records tbl -> keycmp (keys m) (init_omap_key id) <> 0) ->
      omap_lookup_block fuel tbl id = Fatal "Omap record missing for id").
Proof.
  intros Hleaf Hrec Hfuel Hkeys Hsorted Hvalues.
  assert (Hindex : query_index (omap_query tbl id) = node_records tbl)
    by (simpl; apply to_int_small; lia).
  assert (Hcases :
    (exists i off,
        0 <= i < node_records tbl
        /\ keycmp (keys i) (init_omap_key id) = 0
        /\ node_locate_data tbl i = Ret (16, off)
        /\ omap_lookup_block fuel tbl id = Ret (le64_to_cpu (node_raw tbl) (off + 8)))
    \/ ((forall m, 0 <= m < node_records tbl -> keycmp (keys m) (init_omap_key id) <> 0)
        /\ omap_lookup_block fuel tbl id = Fatal "Omap record missing for id")).
  { destruct (exact_leaf_search fuel (omap_query tbl id) keys eq_refl eq_refl eq_refl
                Hleaf ltac:(rewrite Hindex; lia) ltac:(simpl; lia)
                ltac:(rewrite Hindex; lia))
      as [(i & q1 & Hi & Hc & Hq1 & Hn1 & Hrun)|(Hnone & q1 & Hrun)].
    - intros i Hi. rewrite Hindex in Hi.
      apply omap_query_reads; [reflexivity|reflexivity|]. now apply Hkeys.
    - intros i j Hi Hj. rewrite Hindex in Hj. now apply Hsorted.
    - left. rewrite Hindex in Hi. simpl in Hn1, Hrun.
      destruct (Hvalues i Hi) as (off & Hloc).
      rewrite Hloc in Hrun. simpl in Hrun.
      exists i, off. split; [exact Hi|]. split; [exact Hc|]. split; [exact Hloc|].
      unfold omap_lookup_block, omap_lookup_with.
      change (with_flags _ _) with (omap_query tbl id).
      rewrite Hrun. simpl. unfold bno_from_query. simpl. now rewrite Hn1.
    - right. split.
      + intros m Hm. apply (Hnone m). now rewrite Hindex.
      + unfold omap_lookup_block, omap_lookup_with.
        change (with_flags _ _) with (omap_query tbl id).
        rewrite Hrun. reflexivity. }
  split.
  - intros (m & Hm & Hzero).
    destruct Hcases as [Hfound|(Hnone & _)]; [exact Hfound|].
    exfalso. exact (Hnone m Hm Hzero).
  - intros Hnone.
    destruct Hcases as [(i & off & Hi & Hzero & _)|(_ & Hmissing)]; [|exact Hmissing].
    exfalso. exact (Hnone i Hi Hzero).
Qed.

(** ** A search in a tree of one node *)

(** X20. On a tree whose root is a leaf with sorted keys, an exact
    single-match search finds a record exactly when one is there: with the
    values of the node in place, [btree_query] returns 0 on a record whose
    key equals the target when some key of the node does, and [-ENODATA]
    when none does. *)
Theorem exact_search_on_leaf (fuel : nat) (q : query) (keys : Z -> key) :
  flag_set (query_flags q) QUERY_MULTIPLE = false ->
  flag_set (query_flags q) QUERY_NEXT = false ->
  flag_set (query_flags q) QUERY_EXACT = true ->
  node_is_leaf (query_node q) = true ->
  0 < query_index q < 2 ^ 30 ->
  query_depth q < 12 ->
  2 * query_index q + 1 < Z.of_nat fuel ->
  (forall i, 0 <= i < query_index q -> key_at q i = Ret (keys i)) ->
  (forall i j, 0 <= i -> i <= j < query_index q -> keycmp (keys i) (keys j) <= 0) ->
  (forall i, 0 <= i < query_index q ->
     exists len off, node_locate_data (query_node q) i = Ret (len, off) /\ len <> 0) ->
  ((exists m, 0 <= m < query_index q /\ cmp_at keys q m = 0) ->
   exists q', btree_query fuel q = Ret (0, q')
              /\ 0 <= query_index q' < query_index q
              /\ cmp_at keys q (query_index q') = 0)
  /\ ((forall m, 0 <= m < query_index q -> cmp_at keys q m <> 0) ->
      exists q', btree_query fuel q = Ret (- ENODATA, q')).
Proof.
  intros Hmulti Hnext Hexact Hleaf Hidx Hdepth Hfuel Hkeys Hsorted Hvalues.
  set (n := query_index q) in *. set (cmpf := cmp_at keys q).
  assert (Hmono : forall i j, 0 <= i -> i <= j < n -> cmpf i > 0 -> cmpf j > 0).
  { intros i j Hi Hj Hc. unfold cmpf, cmp_at in *.
    destruct (Z_le_gt_dec (keycmp (keys j) (query_key q)) 0) as [Hle|Hgt]; [|exact Hgt].
    pose proof (keycmp_trans _ _ _ (Hsorted i j Hi Hj) Hle). lia. }
  assert (Hmono0 : forall i j, 0 <= i -> i <= j < n -> 0 <= cmpf i -> 0 <= cmpf j).
  { intros i j Hi Hj Hc. unfold cmpf, cmp_at in *.
    apply keycmp_swap. apply keycmp_swap in Hc.
    exact (keycmp_trans _ _ _ Hc (Hsorted i j Hi Hj)). }
  destruct fuel as [|fuel]; [simpl in Hfuel; lia|].
  destruct (bisect_correct q keys ltac:(fold n; lia) Hkeys Hmono fuel 1 0 0 q eq_refl)
    as (res & Hres & Hpost).
  { unfold bisect_sem_inv, bisect_inv. simpl. fold n. repeat split; lia. }
  { unfold bisect_measure. simpl. fold n. lia. }
  fold n in Hpost. fold cmpf in Hpost.
  assert (Hmiss : forall q1, Ret (- ENODATA, q1) = node_query fuel q ->
            btree_query (S fuel) q = Ret (- ENODATA, q1)).
  { intros q1 Hq. simpl. unfold btree_query_pass.
    destruct (query_depth q >=? 12) eqn:Hd; [lia|].
    rewrite <- Hq. reflexivity. }
  assert (Hrun : node_query fuel q =
            match res with
            | BisectReturn rc q1 => Ret (rc, q1)
            | BisectDone c q1 =>
              if c >? 0 then Ret (- ENODATA, q1)
              else if negb (c =? 0) then Ret (- ENODATA, q1)
              else
                '(len, off) ← node_locate_data (query_node q) (query_index q1);
                if len =? 0 then Fatal "Corrupted record value in node"
                else Ret (0, with_data_loc q1 len off)
            end).
  { unfold node_query. rewrite Hnext, Hres. simpl.
    destruct res as [rc q1|c q1]; [reflexivity|].
    pose proof (bisect_search_of _ _ _ _ _ _ Hres) as Hs. simpl in Hs.
    destruct (search_of_fields _ _ Hs) as (Hnode & _ & Hflags & _).
    rewrite Hnode, Hflags, Hleaf, Hexact, Hmulti.
    destruct (c >? 0); [reflexivity|].
    destruct (negb (c =? 0)); reflexivity. }
  split.
  - intros (m & Hm & Hcm). fold cmpf in Hcm.
    destruct res as [rc q1|c q1]; simpl in Hpost.
    { destruct Hpost as (_ & Hall). specialize (Hall m Hm). lia. }
    destruct Hpost as (Hi & Hc & Hs & Hpos & Hneg).
    assert (Hc0 : c = 0).
    { destruct (Z_le_gt_dec c 0) as [Hle|Hgt]; [|specialize (Hpos Hgt m Hm); lia].
      destruct (Hneg Hle) as [Hup|(Hz & _)]; [|exact Hz].
      assert (m <= query_index q1).
      { destruct (Z_le_gt_dec m (query_index q1)) as [?|Hgt]; [assumption|].
        specialize (Hup m). lia. }
      pose proof (Hmono0 m (query_index q1) ltac:(lia) ltac:(lia) ltac:(lia)). lia. }
    rewrite Hc0 in Hrun. simpl in Hrun.
    destruct (Hvalues _ Hi) as (len & off & Hloc & Hlen).
    rewrite Hloc in Hrun. simpl in Hrun.
    destruct (len =? 0) eqn:E; [lia|].
    exists (with_data_loc q1 len off).
    split; [|split; [exact Hi|fold cmpf; simpl; lia]].
    simpl. unfold btree_query_pass.
    destruct (query_depth q >=? 12) eqn:Hd; [lia|].
    rewrite Hrun. simpl.
    destruct (search_of_fields _ _ Hs) as (Hnode & _).
    rewrite Hnode, Hleaf. reflexivity.
  - intros Hnone.
    destruct res as [rc q1|c q1]; simpl in Hpost.
    { destruct Hpost as (-> & _). exists q1. apply Hmiss. now rewrite Hrun. }
    destruct Hpost as (Hi & Hc & _).
    exists q1. apply Hmiss. rewrite Hrun.
    destruct (c >? 0); [reflexivity|].
    destruct (c =? 0) eqn:E0; [|reflexivity].
    exfalso. apply (Hnone _ Hi). fold cmpf. lia.
Qed.

End Ordered.

(** ** Tree descender: the way back up *)

(** X16. A multi-match descent remembers where it came from.  When a
    pass on a MULTIPLE query descends, the child query is linked to the
    query left by the search of the parent node, which is now a cursor on
    that node (NEXT set); the child starts with a fresh cursor one level
    down, under the same key; and a pass on a query can re-ascend only to
    the query it is linked to. *)
Theorem multiple_descent_links_parent (lookup : node -> Z -> outcome Z) (fuel : nat)
    (q : query) :
  (forall child,
      flag_set (query_flags q) QUERY_MULTIPLE = true ->
      flag_set (query_flags q) QUERY_NEXT = false ->
      0 <= query_depth q ->
      btree_query_pass lookup fuel q = Ret (Descend child) ->
      exists parent,
        query_parent child = Some parent
        /\ node_query fuel q = Ret (0, parent)
        /\ query_node parent = query_node q
        /\ flag_set (query_flags parent) QUERY_NEXT = true
        /\ query_key child = query_key q
        /\ query_depth child = query_depth q + 1
        /\ flag_set (query_flags child) QUERY_MULTIPLE = true
        /\ flag_set (query_flags child) QUERY_NEXT = false
        /\ flag_set (query_flags child) QUERY_DONE = false)
  /\ (forall parent,
      btree_query_pass lookup fuel q = Ret (Reascend parent) ->
      query_parent q = Some parent).
Proof.
  split.
  - intros child Hm Hn Hdepth Hp.
    apply btree_query_pass_inv in Hp
      as (Hdeep & err & q1 & Hq & -> & _ & child_id & blk & n & _ & _ & _ & _ & ->).
    pose proof (node_query_frame _ _ _ _ Hq) as (Hdq & _).
    pose proof (node_query_success _ _ _ Hq) as (Hnode & Hkey & _).
    destruct (node_query_multiple_flags_aux fuel q q1 Hm Hn Hq) as (Hnext1 & Hmulti1).
    rewrite Hmulti1.
    destruct (alloc_query_fields n q1)
      as (_ & Hk & Hpar & Hdone & Hnext & _ & _ & Hmul & _ & Hdep & _).
    exists q1. split; [exact Hpar|]. split; [exact Hq|]. split; [exact Hnode|].
    split; [exact Hnext1|]. split; [congruence|].
    split; [rewrite Hdep by lia; lia|].
    split; [congruence|]. auto.
  - intros parent Hp.
    apply btree_query_pass_inv in Hp as (_ & err & q1 & Hq & _ & Hpar).
    apply node_query_frame in Hq as (_ & Hsame & _). congruence.
Qed.

End Btree.

(** * The engine on the sample container *)

Lemma sample_keycmp_trans (a b c : key) :
  sample_keycmp a b <= 0 -> sample_keycmp b c <= 0 -> sample_keycmp a c <= 0.
Proof.
  unfold sample_keycmp.
  repeat match goal with
         | |- context [if ?x <? ?y then _ else _] => destruct (Z.ltb_spec x y)
         end; lia.
Qed.

Lemma sample_keycmp_swap (a b : key) :
  0 <= sample_keycmp a b <-> sample_keycmp b a <= 0.
Proof.
  unfold sample_keycmp.
  repeat match goal with
         | |- context [if ?x <? ?y then _ else _] => destruct (Z.ltb_spec x y)
         end; lia.
Qed.

Example read_omap_root :
  read_node 4096 omap_disk sample_csum 1024 = Ret omap_root_node.
Proof. vm_compute. reflexivity. Qed.

Example read_leaf3 :
  read_node 4096 leaf3_disk sample_csum 3000 = Ret leaf3_node.
Proof. vm_compute. reflexivity. Qed.

Example read_twin_root :
  read_node 4096 twin_disk sample_csum 1024 = Ret twin_root_node.
Proof. vm_compute. reflexivity. Qed.

(** Scenario 6 of the spec: the value of the record of [edge_block] would
    start at the end of the block with length 1. *)
Example value_at_block_end_rejected :
  exists n, read_node 4096 edge_disk sample_csum 9 = Ret n
            /\ node_locate_key 4096 n 0 = Ret (16, 64)
            /\ node_locate_data 4096 n 0 = Fatal "B-tree value is out-of-bounds".
Proof.
  eexists. split; [vm_compute; reflexivity|]. split; vm_compute; reflexivity.
Qed.

(** Scenario 5 of the spec: the child block carries another oid. *)
Example stray_child_rejected :
  parse_subtree 4096 stray_disk sample_csum sample_read_cat_key sample_read_omap_key
                sample_init_omap_key sample_keycmp omap_root_node
                5 omap_root_node zero_key None
  = Fatal "Wrong object id on b-tree node.".
Proof. vm_compute. reflexivity. Qed.

Local Abbreviation run_bisect_iter :=
  (bisect_iter 4096 sample_read_cat_key sample_read_omap_key sample_keycmp).
Local Abbreviation run_bisect :=
  (bisect 4096 sample_read_cat_key sample_read_omap_key sample_keycmp).
Local Abbreviation run_node_query :=
  (node_query 4096 sample_read_cat_key sample_read_omap_key sample_keycmp).
Local Abbreviation run_key_at := (key_at 4096 sample_read_cat_key sample_read_omap_key).
Local Abbreviation run_omap_lookup disk :=
  (omap_lookup_block 4096 disk sample_csum sample_read_cat_key sample_read_omap_key
                     sample_init_omap_key sample_keycmp).
Local Abbreviation run_parse_subtree disk :=
  (parse_subtree 4096 disk sample_csum sample_read_cat_key sample_read_omap_key
                 sample_init_omap_key sample_keycmp).
Local Abbreviation run_leaf_keys disk :=
  (leaf_keys 4096 disk sample_csum sample_read_cat_key sample_read_omap_key
             sample_init_omap_key sample_keycmp).

(** The negative scenario "tree linked to itself": the descent is cut at
    depth 12. *)
Example self_linked_tree_too_deep :
  run_omap_lookup loop_disk loop_node 20 loop_node 7
  = Fatal "Corrupted b-tree is too deep.".
Proof. vm_compute. reflexivity. Qed.

(** Scenario 3 of the spec on [multi_block]: a MULTIPLE query for oid 10
    yields the two records under that oid, last first, then [-ENODATA]. *)
Example multiple_query_enumerates :
  exists q1 q2 q3,
    btree_query 4096 ∅ sample_csum sample_read_cat_key sample_read_omap_key
                sample_init_omap_key sample_keycmp multi_node 20
                (sample_query multi_node 10 (Z.lor QUERY_OMAP QUERY_MULTIPLE) 3)
    = Ret (0, q1)
    /\ query_index q1 = 1
    /\ btree_query 4096 ∅ sample_csum sample_read_cat_key sample_read_omap_key
                   sample_init_omap_key sample_keycmp multi_node 20 q1
       = Ret (0, q2)
    /\ query_index q2 = 0
    /\ btree_query 4096 ∅ sample_csum sample_read_cat_key sample_read_omap_key
                   sample_init_omap_key sample_keycmp multi_node 20 q2
       = Ret (- ENODATA, q3).
Proof.
  do 3 eexists.
  split; [vm_compute; reflexivity|]. split; [vm_compute; reflexivity|].
  split; [vm_compute; reflexivity|]. split; vm_compute; reflexivity.
Qed.

(** ** Record locator *)



(** ** Bisection *)



(** ** In-node search *)

(** A search for oid 8 in [leaf3_block] stops on the record under oid 7. *)
Lemma node_query_finds_witness :
  exists q',
    run_node_query 20 (sample_query leaf3_node 8 1 3) = Ret (0, q')
    /\ query_index q' = 1 /\ query_len q' = 16 /\ query_off q' = 4024.
Proof.
  set (q := sample_query leaf3_node 8 1 3).
  assert (Hkeys : forall i, 0 <= i < query_index q -> run_key_at q i = Ret (leaf3_keys i)).
  { intros i Hi. simpl in Hi.
    assert (Hcase : i = 0 \/ i = 1 \/ i = 2) by lia.
    destruct Hcase as [->|[->| ->]]; vm_compute; reflexivity. }
  assert (Hsorted : forall i j, 0 <= i -> i <= j < query_index q ->
                      sample_keycmp (leaf3_keys i) (leaf3_keys j) <= 0).
  { intros i j Hi Hj. simpl in Hj. unfold sample_keycmp, leaf3_keys. simpl.
    repeat match goal with
           | |- context [if ?x =? ?y then _ else _] => destruct (Z.eqb_spec x y)
           end; simpl; lia. }
  assert (Hbest : best_match (query_index q) (cmp_at sample_keycmp leaf3_keys q) 1).
  { split; [simpl; lia|]. split; [vm_compute; discriminate|].
    intros j Hj. simpl in Hj. assert (j = 2) as -> by lia. vm_compute. reflexivity. }
  destruct (node_query_finds 4096 sample_read_cat_key sample_read_omap_key sample_keycmp
              sample_keycmp_trans sample_keycmp_swap 20 q leaf3_keys
              ltac:(vm_compute; reflexivity) ltac:(vm_compute; split; congruence)
              ltac:(simpl; lia) ltac:(simpl; lia) Hkeys Hsorted) as (_ & Hfound).
  specialize (Hfound 1 Hbest).
  assert (Hmiss : negb (cmp_at sample_keycmp leaf3_keys q 1 =? 0)
                  && node_is_leaf (query_node q)
                  && flag_set (query_flags q) QUERY_EXACT = false)
    by (vm_compute; reflexivity).
  rewrite Hmiss in Hfound.
  destruct Hfound as (i & Hi & Hwhere & Hvalue).
  assert (Hi1 : i = 1).
  { destruct Hwhere as [Heq|(_ & Hzero)]; [exact Heq|].
    simpl in Hi. assert (Hcase : i = 0 \/ i = 1 \/ i = 2) by lia.
    destruct Hcase as [->|[->| ->]]; vm_compute in Hzero; discriminate. }
  subst i.
  assert (Hd : node_locate_data 4096 (query_node q) 1 = Ret (16, 4024))
    by (vm_compute; reflexivity).
  rewrite Hd in Hvalue. simpl in Hvalue.
  exact Hvalue.
Defined.

(** ** Node reader *)

(** C3 fails on the code.  [crowded_block] claims 2^32 - 1 records in a
    table of zero bytes.  [node_is_valid] reads the count as the [int] -1,
    so the product with the entry size is negative and passes the size
    check: unless the checksum routine rejects the block, [read_node]
    returns a node that breaks the invariant on the record count.  Index
    5000 then passes the index check of the locators, whose table entry for
    it lies beyond the end of the block. *)
Theorem read_node_accepts_crowded (csum : list Z -> bool) :
  read_node 4096 crowded_disk csum 5 = Fatal "Bad checksum for node in block"
  \/ exists n,
      read_node 4096 crowded_disk csum 5 = Ret n
      /\ node_records n = 4294967295
      /\ node_key n = 56
      /\ node_has_fixed_kv_size n = true
      /\ ~ node_records n * sizeof_kvoff <= node_key n - sizeof_btree_node_phys
      /\ (to_u32 5000 >=? node_records n) = false
      /\ Z.of_nat (length (node_raw n)) <= btn_data_off + 5000 * sizeof_kvoff.
Proof.
  unfold read_node.
  change (crowded_disk !! 5) with (Some crowded_block). cbv beta iota zeta.
  destruct (csum crowded_block); [right|left; reflexivity].
  eexists. split; [vm_compute; reflexivity|].
  split; [vm_compute; reflexivity|]. split; [vm_compute; reflexivity|].
  split; [vm_compute; reflexivity|].
  split; [vm_compute; intros H; apply H; reflexivity|].
  split; [vm_compute; reflexivity|].
  vm_compute. discriminate.
Qed.

(** ** Object map lookup *)



(** ** Subtree validator *)

(** The root of the first scenario and its child. *)
Lemma parse_subtree_children_witness :
  exists off child,
    node_locate_data 4096 omap_root_node 0 = Ret (8, off)
    /\ read_node 4096 omap_disk sample_csum
                 (le64_to_cpu (node_raw omap_root_node) off) = Ret child
    /\ oid (node_object child) = 2048.
Proof.
  destruct (parse_subtree_children 4096 omap_disk sample_csum sample_read_cat_key
              sample_read_omap_key sample_init_omap_key sample_keycmp omap_root_node
              4 omap_root_node None ltac:(vm_compute; reflexivity)) as (Hall & _).
  destruct (Hall zero_key (mkKey 7 0 0 None) ltac:(vm_compute; reflexivity)
                 0 ltac:(vm_compute; split; congruence))
    as (off & bno & child & Hloc & -> & Hread & Hoid).
  exists off, child. split; [exact Hloc|]. split; [exact Hread|].
  rewrite Hoid.
  assert (Hd : node_locate_data 4096 omap_root_node 0 = Ret (8, 4048))
    by (vm_compute; reflexivity).
  rewrite Hd in Hloc. injection Hloc as <-. vm_compute. reflexivity.
Defined.

(** The leaf traversal of [twin_disk]: two leaves of two keys each, the
    key (oid 7, xid 0) on both sides of the boundary. *)
Lemma parse_subtree_leaf_order_witness :
  exists leaves,
    run_leaf_keys twin_disk twin_root_node 5 twin_root_node None = Ret leaves
    /\ leaves = [[mkKey 5 0 0 None; mkKey 7 0 0 None];
                 [mkKey 7 0 0 None; mkKey 9 0 0 None]]
    /\ chain (key_le sample_keycmp) zero_key (concat leaves)
    /\ Forall (strict_leaf sample_keycmp) leaves.
Proof.
  destruct (parse_subtree_leaf_order 4096 twin_disk sample_csum sample_read_cat_key
              sample_read_omap_key sample_init_omap_key sample_keycmp twin_root_node
              sample_keycmp_trans sample_keycmp_swap
              5 twin_root_node None zero_key (mkKey 9 0 0 None)
              ltac:(vm_compute; reflexivity))
    as ((leaves & Hleaves & Hchain & Hstrict) & _).
  exists leaves. split; [exact Hleaves|]. split; [|split; assumption].
  assert (Hrun : run_leaf_keys twin_disk twin_root_node 5 twin_root_node None
                 = Ret [[mkKey 5 0 0 None; mkKey 7 0 0 None];
                        [mkKey 7 0 0 None; mkKey 9 0 0 None]])
    by (vm_compute; reflexivity).
  rewrite Hrun in Hleaves. now injection Hleaves.
Defined.

(** The claim C4 as stated fails on [twin_disk]: the key (oid 7, xid 0) is
    the last record of the left leaf and the first of the right leaf, so the
    leaf traversal holds it twice, and the validator completes. *)
Lemma duplicate_across_leaves_accepted :
  run_parse_subtree twin_disk twin_root_node 5 twin_root_node zero_key None
  = Ret (mkKey 9 0 0 None)
  /\ run_leaf_keys twin_disk twin_root_node 5 twin_root_node None
     = Ret [[mkKey 5 0 0 None; mkKey 7 0 0 None]; [mkKey 7 0 0 None; mkKey 9 0 0 None]].
Proof. split; vm_compute; reflexivity. Qed.

(** * mkapfs: sizing a new container *)

Lemma div_round_up_u64_exact (size : Z) :
  0 <= size -> size + 2 ^ 29 <= 2 ^ 64 ->
  DIV_ROUND_UP_u64 size (512 * 1024 * 1024) = (size + 2 ^ 29 - 1) / 2 ^ 29.
Proof.
  intros H0 H1. unfold DIV_ROUND_UP_u64, to_u64.
  change (512 * 1024 * 1024) with (2 ^ 29).
  rewrite Zminus_mod_idemp_l, Z.mod_small by lia.
  reflexivity.
Qed.

(** X17. [get_max_volumes] never exceeds the limit; for a container of at
    most 2^61 - 2^29 bytes it is the number of 512 MiB units needed to
    cover the container, capped at the limit. *)
Theorem get_max_volumes_spec (limit size : Z) :
  0 <= limit ->
  0 <= get_max_volumes limit size <= limit
  /\ (0 <= size <= 2 ^ 61 - 2 ^ 29 ->
      exists units,
        2 ^ 29 * (units - 1) < size <= 2 ^ 29 * units
        /\ get_max_volumes limit size = Z.min limit units).
Proof.
  intros Hlimit. unfold get_max_volumes. split.
  - cbv zeta.
    pose proof (Z.mod_pos_bound (DIV_ROUND_UP_u64 size (512 * 1024 * 1024)) (2 ^ 32)
                  ltac:(lia)) as Hu.
    unfold to_u32.
    destruct (_ >? limit) eqn:E; lia.
  - intros Hsize. exists ((size + 2 ^ 29 - 1) / 2 ^ 29).
    assert (Hunits : 2 ^ 29 * ((size + 2 ^ 29 - 1) / 2 ^ 29 - 1) < size
                     <= 2 ^ 29 * ((size + 2 ^ 29 - 1) / 2 ^ 29)
                     /\ 0 <= (size + 2 ^ 29 - 1) / 2 ^ 29 < 2 ^ 32)
      by (Z.div_mod_to_equations; lia).
    split; [lia|]. cbv zeta.
    rewrite div_round_up_u64_exact by lia.
    rewrite to_u32_small by lia.
    destruct (_ >? limit) eqn:E; lia.
Qed.

(** X18. The quotient is cut to 32 bits before it is compared with the
    limit: two sizes 2^61 bytes apart get the same number of volumes. *)
Theorem get_max_volumes_wraps (limit size : Z) :
  0 <= size -> size + 2 ^ 61 + 2 ^ 29 <= 2 ^ 64 ->
  get_max_volumes limit (size + 2 ^ 61) = get_max_volumes limit size.
Proof.
  intros H0 H1. unfold get_max_volumes.
  rewrite !div_round_up_u64_exact by lia.
  replace (size + 2 ^ 61 + 2 ^ 29 - 1) with (size + 2 ^ 29 - 1 + 2 ^ 32 * 2 ^ 29) by lia.
  rewrite Z.div_add by lia.
  unfold to_u32.
  replace ((size + 2 ^ 29 - 1) / 2 ^ 29 + 2 ^ 32)
    with ((size + 2 ^ 29 - 1) / 2 ^ 29 + 1 * 2 ^ 32) by lia.
  rewrite Z_mod_plus_full. reflexivity.
Qed.

Lemma testbit_above (lo n i : Z) :
  0 <= lo < 2 ^ n -> 0 <= n <= i -> Z.testbit lo i = false.
Proof.
  intros Hlo Hi. apply Z.testbit_false; [lia|].
  rewrite Z.div_small; [reflexivity|].
  pose proof (Z.pow_le_mono_r 2 n i ltac:(lia) ltac:(lia)). lia.
Qed.

Lemma lor_disjoint_sum (hi lo n : Z) :
  0 <= n -> 0 <= lo < 2 ^ n -> Z.lor (hi * 2 ^ n) lo = hi * 2 ^ n + lo.
Proof.
  intros Hn Hlo.
  assert (Hland : Z.land (hi * 2 ^ n) lo = 0).
  { apply Z.bits_inj'. intros i Hi. rewrite Z.land_spec, Z.bits_0.
    destruct (Z_lt_dec i n) as [Hlt|Hge].
    - now rewrite Z.mul_pow2_bits_low by lia.
    - rewrite (testbit_above lo n i) by lia. apply andb_false_r. }
  now rewrite Z.add_nocarry_lxor, Z.lxor_lor.
Qed.

(** X19. The word [set_ephemeral_info] stores keeps its three fields
    apart: the minimum block count is read back from the high 32 bits, the
    number of structures from bits 16 to 31 and the version from the low
    16 bits, for constants that fit their fields. *)
Theorem ephemeral_info_fields (min_block_count max_eph_structs version : Z) :
  0 <= min_block_count < 2 ^ 32 ->
  0 <= max_eph_structs < 2 ^ 15 ->
  0 <= version < 2 ^ 16 ->
  0 <= set_ephemeral_info min_block_count max_eph_structs version < 2 ^ 64
  /\ Z.shiftr (set_ephemeral_info min_block_count max_eph_structs version) 32
     = min_block_count
  /\ Z.land (Z.shiftr (set_ephemeral_info min_block_count max_eph_structs version) 16)
            65535 = max_eph_structs
  /\ Z.land (set_ephemeral_info min_block_count max_eph_structs version) 65535 = version.
Proof.
  intros Hm Hs Hv.
  assert (Hw : set_ephemeral_info min_block_count max_eph_structs version
               = min_block_count * 2 ^ 32 + max_eph_structs * 2 ^ 16 + version).
  { unfold set_ephemeral_info, to_u64.
    rewrite !Z.shiftl_mul_pow2 by lia.
    rewrite (Z.mod_small (min_block_count * 2 ^ 32)) by lia.
    rewrite to_int_small by lia.
    rewrite (lor_disjoint_sum min_block_count (max_eph_structs * 2 ^ 16) 32) by lia.
    replace (min_block_count * 2 ^ 32 + max_eph_structs * 2 ^ 16)
      with ((min_block_count * 2 ^ 16 + max_eph_structs) * 2 ^ 16) by lia.
    rewrite lor_disjoint_sum by lia.
    rewrite Z.mod_small by lia. lia. }
  rewrite Hw. change 65535 with (Z.ones 16).
  rewrite !Z.land_ones, !Z.shiftr_div_pow2 by lia.
  repeat split; try lia; Z.div_mod_to_equations; lia.
Qed.

(** * The further theorems on the sample container *)

Local Abbreviation run_btree_query disk :=
  (btree_query 4096 disk sample_csum sample_read_cat_key sample_read_omap_key
               sample_init_omap_key sample_keycmp).
Local Abbreviation run_read_node disk := (read_node 4096 disk sample_csum).
Local Abbreviation sample_omap_query := (omap_query sample_init_omap_key).

(** ** Node reader *)

(** The leaf of the omap of the first scenario. *)
Lemma read_node_exact_witness :
  run_read_node omap_disk 2048 = Ret (node_of_block 2048 omap_leaf_block).
Proof.
  destruct (read_node_exact 4096 omap_disk sample_csum 2048 omap_leaf_block
              ltac:(vm_compute; reflexivity) eq_refl ltac:(vm_compute; reflexivity))
    as (Haccept & _).
  apply Haccept.
  split; [vm_compute; reflexivity|]. split; vm_compute; discriminate.
Defined.

(** ** Record locator *)

(** Index 3 on the three records of [leaf3_block]. *)
Lemma locate_rejects_index_witness :
  node_locate_key 4096 leaf3_node 3 = Fatal "Requested index out-of-bounds"
  /\ node_locate_data 4096 leaf3_node 3 = Fatal "Requested index out-of-bounds".
Proof.
  destruct (locate_rejects_index 4096 leaf3_node 3) as (Hout & _).
  - split; vm_compute; discriminate.
  - split; [vm_compute; discriminate|vm_compute; reflexivity].
  - apply Hout. right. vm_compute. discriminate.
Defined.

(** The root of the first scenario read over its first 60 bytes only: the
    header and the one entry of its table. *)
Lemma locate_reads_table_witness :
  node_key omap_root_node <= 4096
  /\ node_locate_key 4096 (with_raw omap_root_node (take 60 omap_root_block)) 0
     = node_locate_key 4096 omap_root_node 0
  /\ node_locate_data 4096 (with_raw omap_root_node (take 60 omap_root_block)) 0
     = node_locate_data 4096 omap_root_node 0.
Proof.
  apply (locate_reads_table 4096 omap_disk sample_csum 1024 omap_root_node 0
           (take 60 omap_root_block) read_omap_root).
  - vm_compute. reflexivity.
  - split; [vm_compute; discriminate|vm_compute; reflexivity].
  - intros off Hoff.
    assert (Hnear : 56 <= off < 60) by (vm_compute in Hoff; vm_compute; exact Hoff).
    assert (Hcase : off = 56 \/ off = 57 \/ off = 58 \/ off = 59) by lia.
    destruct Hcase as [->|[->|[->| ->]]]; vm_compute; reflexivity.
Defined.

(** ** In-node search *)

(** The first search for oid 10 in [multi_block], whose records under that
    oid are two. *)
Lemma node_query_multiple_cursor_witness :
  exists q',
    run_node_query 20 (sample_query multi_node 10 (Z.lor QUERY_OMAP QUERY_MULTIPLE) 3)
    = Ret (0, q')
    /\ flag_set (query_flags q') QUERY_NEXT = true
    /\ flag_set (query_flags q') QUERY_MULTIPLE = true
    /\ exists k,
        run_key_at (sample_query multi_node 10 (Z.lor QUERY_OMAP QUERY_MULTIPLE) 3)
                   (query_index q') = Ret k
        /\ (flag_set (query_flags q') QUERY_DONE = true
            <-> sample_keycmp k (sample_init_omap_key 10) <> 0).
Proof.
  assert (Hrun : exists q',
             run_node_query 20
               (sample_query multi_node 10 (Z.lor QUERY_OMAP QUERY_MULTIPLE) 3)
             = Ret (0, q')) by (eexists; vm_compute; reflexivity).
  destruct Hrun as (q' & Hrun). exists q'. split; [exact Hrun|].
  destruct (node_query_multiple_cursor 4096 sample_read_cat_key sample_read_omap_key
              sample_keycmp 20
              (sample_query multi_node 10 (Z.lor QUERY_OMAP QUERY_MULTIPLE) 3)
              q' eq_refl eq_refl eq_refl Hrun)
    as (Hnext & _ & Hmulti & _ & _ & Hkey).
  split; [exact Hnext|]. split; [exact Hmulti|exact Hkey].
Defined.

(** The search for oid 8 in [leaf3_block], started at index 3. *)
Lemma node_query_keeps_target_witness :
  exists rc q',
    run_node_query 20 (sample_query leaf3_node 8 1 3) = Ret (rc, q')
    /\ query_node q' = leaf3_node
    /\ query_key q' = sample_init_omap_key 8
    /\ query_parent q' = None
    /\ query_depth q' = 0.
Proof.
  assert (Hrun : exists rc q',
             run_node_query 20 (sample_query leaf3_node 8 1 3) = Ret (rc, q'))
    by (do 2 eexists; vm_compute; reflexivity).
  destruct Hrun as (rc & q' & Hrun).
  destruct (node_query_keeps_target 4096 sample_read_cat_key sample_read_omap_key
              sample_keycmp 20 (sample_query leaf3_node 8 1 3) rc q' Hrun)
    as (Hn & Hk & Hp & Hd & _).
  exists rc, q'. auto.
Defined.

(** The search of the root of the first scenario for oid 7. *)
Lemma child_size_check_redundant_witness :
  exists q',
    run_node_query 20 (sample_omap_query omap_root_node 7) = Ret (0, q')
    /\ query_len q' = 8
    /\ child_from_query q'
       = Ret (le64_to_cpu (node_raw omap_root_node) (query_off q')).
Proof.
  assert (Hrun : exists q',
             run_node_query 20 (sample_omap_query omap_root_node 7) = Ret (0, q'))
    by (eexists; vm_compute; reflexivity).
  destruct Hrun as (q' & Hrun). exists q'. split; [exact Hrun|].
  apply (child_size_check_redundant 4096 sample_read_cat_key sample_read_omap_key
           sample_keycmp 20 (sample_omap_query omap_root_node 7) q' Hrun);
    vm_compute; reflexivity.
Defined.

(** ** Tree descender *)

(** The search of the omap of the first scenario for oid 8, which it does
    not hold. *)
Lemma btree_query_codes_witness :
  exists rc q',
    run_btree_query omap_disk omap_root_node 20 (sample_omap_query omap_root_node 8)
    = Ret (rc, q')
    /\ (rc = 0 \/ rc = - ENODATA).
Proof.
  assert (Hrun : exists rc q',
             run_btree_query omap_disk omap_root_node 20
                             (sample_omap_query omap_root_node 8) = Ret (rc, q'))
    by (do 2 eexists; vm_compute; reflexivity).
  destruct Hrun as (rc & q' & Hrun). exists rc, q'. split; [exact Hrun|].
  exact (btree_query_codes 4096 omap_disk sample_csum sample_read_cat_key
           sample_read_omap_key sample_init_omap_key sample_keycmp omap_root_node
           20 (sample_omap_query omap_root_node 8) rc q' Hrun).
Defined.

(** The search of the same omap for oid 7. *)
Lemma btree_query_finds_value_witness :
  exists q',
    run_btree_query omap_disk omap_root_node 20 (sample_omap_query omap_root_node 7)
    = Ret (0, q')
    /\ node_is_leaf (query_node q') = true
    /\ node_locate_data 4096 (query_node q') (query_index q')
       = Ret (query_len q', query_off q')
    /\ query_len q' <> 0
    /\ (0 <= query_off q' /\ 0 < query_len q' /\ query_off q' + query_len q' <= 4096).
Proof.
  assert (Hrun : exists q',
             run_btree_query omap_disk omap_root_node 20
                             (sample_omap_query omap_root_node 7) = Ret (0, q'))
    by (eexists; vm_compute; reflexivity).
  destruct Hrun as (q' & Hrun). exists q'. split; [exact Hrun|].
  destruct (btree_query_finds_value 4096 omap_disk sample_csum sample_read_cat_key
              sample_read_omap_key sample_init_omap_key sample_keycmp omap_root_node
              20 (sample_omap_query omap_root_node 7) q' Hrun)
    as (Hleaf & Hloc & Hlen & Hin).
  split; [exact Hleaf|]. split; [exact Hloc|]. split; [exact Hlen|].
  apply Hin. lia.
Defined.

(** A multi-match search for oid 7 from the root of [twin_disk]: the pass
    on the root descends, and the child query is linked to the cursor left
    on the root. *)
Lemma multiple_descent_links_parent_witness :
  exists child parent,
    btree_query_pass 4096 twin_disk sample_csum sample_read_cat_key sample_read_omap_key
                     sample_keycmp twin_root_node
                     (run_omap_lookup twin_disk twin_root_node 20) 20
                     (sample_query twin_root_node 7 (Z.lor QUERY_OMAP QUERY_MULTIPLE) 2)
    = Ret (Descend child)
    /\ query_parent child = Some parent
    /\ query_node parent = twin_root_node
    /\ flag_set (query_flags parent) QUERY_NEXT = true
    /\ query_depth child = 0 + 1
    /\ flag_set (query_flags child) QUERY_NEXT = false.
Proof.
  assert (Hrun : exists child,
             btree_query_pass 4096 twin_disk sample_csum sample_read_cat_key
                              sample_read_omap_key sample_keycmp twin_root_node
                              (run_omap_lookup twin_disk twin_root_node 20) 20
                              (sample_query twin_root_node 7
                                            (Z.lor QUERY_OMAP QUERY_MULTIPLE) 2)
             = Ret (Descend child)) by (eexists; vm_compute; reflexivity).
  destruct Hrun as (child & Hrun).
  destruct (proj1 (multiple_descent_links_parent 4096 twin_disk sample_csum
                     sample_read_cat_key sample_read_omap_key sample_keycmp
                     twin_root_node (run_omap_lookup twin_disk twin_root_node 20) 20
                     (sample_query twin_root_node 7 (Z.lor QUERY_OMAP QUERY_MULTIPLE) 2))
                  child eq_refl eq_refl ltac:(simpl; lia) Hrun)
    as (parent & Hpar & _ & Hnode & Hnext & _ & Hdepth & _ & Hfresh & _).
  exists child, parent. auto 10.
Defined.

(** The exact search for oid 7 in the one-node tree [leaf3_disk]. *)
Lemma exact_search_on_leaf_witness :
  exists q',
    run_btree_query leaf3_disk leaf3_node 20 (sample_query leaf3_node 7 33 3) = Ret (0, q')
    /\ 0 <= query_index q' < 3
    /\ cmp_at sample_keycmp leaf3_keys (sample_query leaf3_node 7 33 3) (query_index q')
       = 0.
Proof.
  set (q := sample_query leaf3_node 7 33 3).
  assert (Hcases : forall i, 0 <= i < query_index q -> i = 0 \/ i = 1 \/ i = 2)
    by (simpl; lia).
  assert (Hkeys : forall i, 0 <= i < query_index q -> run_key_at q i = Ret (leaf3_keys i)).
  { intros i Hi. destruct (Hcases i Hi) as [->|[->| ->]]; vm_compute; reflexivity. }
  assert (Hsorted : forall i j, 0 <= i -> i <= j < query_index q ->
                      sample_keycmp (leaf3_keys i) (leaf3_keys j) <= 0).
  { intros i j Hi Hj. simpl in Hj. unfold sample_keycmp, leaf3_keys. simpl.
    repeat match goal with
           | |- context [if ?x =? ?y then _ else _] => destruct (Z.eqb_spec x y)
           end; simpl; lia. }
  assert (Hvalues : forall i, 0 <= i < query_index q ->
                      exists len off,
                        node_locate_data 4096 (query_node q) i = Ret (len, off)
                        /\ len <> 0).
  { intros i Hi. exists 16.
    destruct (Hcases i Hi) as [->|[->| ->]]; eexists;
      (split; [vm_compute; reflexivity|discriminate]). }
  apply (exact_search_on_leaf 4096 leaf3_disk sample_csum sample_read_cat_key
           sample_read_omap_key sample_init_omap_key sample_keycmp leaf3_node
           sample_keycmp_trans sample_keycmp_swap 20 q leaf3_keys
           eq_refl eq_refl eq_refl eq_refl ltac:(simpl; lia) ltac:(simpl; lia)
           ltac:(simpl; lia) Hkeys Hsorted Hvalues).
  exists 1. split; [simpl; lia|vm_compute; reflexivity].
Defined.

(** The exact search of the omap of the first scenario for oid 7. *)
Lemma single_match_result_key_witness :
  exists q' k,
    run_btree_query omap_disk omap_root_node 20 (sample_omap_query omap_root_node 7)
    = Ret (0, q')
    /\ run_key_at q' (query_index q') = Ret k
    /\ sample_keycmp k (sample_init_omap_key 7) <= 0
    /\ sample_keycmp k (sample_init_omap_key 7) = 0.
Proof.
  assert (Hrun : exists q',
             run_btree_query omap_disk omap_root_node 20
                             (sample_omap_query omap_root_node 7) = Ret (0, q'))
    by (eexists; vm_compute; reflexivity).
  destruct Hrun as (q' & Hrun).
  destruct (single_match_result_key 4096 omap_disk sample_csum sample_read_cat_key
              sample_read_omap_key sample_init_omap_key sample_keycmp omap_root_node
              20 (sample_omap_query omap_root_node 7) q' eq_refl eq_refl Hrun)
    as (_ & _ & _ & k & Hkey & Hle & Hexact).
  exists q', k. split; [exact Hrun|]. split; [exact Hkey|]. split; [exact Hle|].
  apply Hexact. reflexivity.
Defined.

(** The omap of the first scenario, validated and then searched for oid 7:
    no header on the device holds more than one record. *)
Lemma validated_omap_descent_witness :
  run_parse_subtree omap_disk omap_root_node 5 omap_root_node zero_key None
  = Ret (mkKey 7 0 0 None)
  /\ descent_safe (run_btree_query omap_disk omap_root_node 20
                                   (sample_omap_query omap_root_node 7)).
Proof.
  assert (Hcounts : forall blk raw,
             omap_disk !! blk = Some raw -> le32_to_cpu raw btn_nkeys_off <= 1).
  { intros blk raw H. unfold omap_disk in H. rewrite !lookup_insert in H.
    destruct (decide (1024 = blk)); [injection H as <-; vm_compute; discriminate|].
    destruct (decide (2048 = blk)); [injection H as <-; vm_compute; discriminate|].
    rewrite lookup_empty in H. discriminate. }
  assert (Hvalid : run_parse_subtree omap_disk omap_root_node 5 omap_root_node
                                     zero_key None = Ret (mkKey 7 0 0 None))
    by (vm_compute; reflexivity).
  split; [exact Hvalid|].
  apply (validated_omap_descent 4096 omap_disk sample_csum sample_read_cat_key
           sample_read_omap_key sample_init_omap_key sample_keycmp omap_root_node
           1 ltac:(lia) Hcounts 5 omap_root_node zero_key (mkKey 7 0 0 None) 20
           (sample_omap_query omap_root_node 7) Hvalid).
  - vm_compute. discriminate.
  - reflexivity.
  - reflexivity.
  - reflexivity.
  - reflexivity.
  - split; vm_compute; discriminate.
  - simpl. lia.
  - simpl. lia.
  - lia.
Defined.

(** ** Object map lookup *)

(** The lookup of oid 7 in the omap of the first scenario. *)
Lemma omap_lookup_sound_witness :
  exists (n : node) (i klen koff off : Z) (k : key),
    (n = omap_root_node \/ exists blk, run_read_node omap_disk blk = Ret n)
    /\ node_is_leaf n = true
    /\ node_locate_key 4096 n i = Ret (klen, koff)
    /\ sample_read_omap_key (node_raw n) koff klen = inr k
    /\ sample_keycmp k (sample_init_omap_key 7) = 0
    /\ node_locate_data 4096 n i = Ret (16, off)
    /\ 4096 = le64_to_cpu (node_raw n) (off + 8).
Proof.
  apply (omap_lookup_sound 4096 omap_disk sample_csum sample_read_cat_key
           sample_read_omap_key sample_init_omap_key sample_keycmp omap_root_node
           20 omap_root_node 7 4096).
  vm_compute. reflexivity.
Defined.

(** The self-linked omap: every header on the device holds one record. *)
Lemma single_match_terminates_witness :
  0 <= 1 < 2 ^ 30
  /\ run_btree_query loop_disk loop_node 28 (sample_omap_query loop_node 7) <> Timeout
  /\ run_omap_lookup loop_disk loop_node 28 loop_node 7 <> Timeout.
Proof.
  assert (Hcounts : forall blk raw,
             loop_disk !! blk = Some raw -> le32_to_cpu raw btn_nkeys_off <= 1).
  { intros blk raw H. unfold loop_disk in H. rewrite lookup_insert in H.
    destruct (decide (1024 = blk)); [|rewrite lookup_empty in H; discriminate].
    injection H as <-. vm_compute. discriminate. }
  assert (Hroot : 0 <= node_records loop_node <= 1)
    by (split; vm_compute; discriminate).
  destruct (single_match_terminates 4096 loop_disk sample_csum sample_read_cat_key
              sample_read_omap_key sample_init_omap_key sample_keycmp loop_node
              1 ltac:(lia) Hcounts Hroot 28 (sample_omap_query loop_node 7)
              eq_refl eq_refl Hroot ltac:(simpl; lia) ltac:(simpl; lia))
    as (Hquery & Hlookup).
  split; [lia|]. split; [exact Hquery|]. apply Hlookup. exact Hroot.
Defined.

(** ** Subtree validator *)

(** The self-linked omap under the validator. *)
Lemma parse_subtree_cycle_witness :
  run_parse_subtree loop_disk loop_node 50 loop_node zero_key None = Timeout.
Proof.
  apply (parse_subtree_cycle 4096 loop_disk sample_csum sample_read_cat_key
           sample_read_omap_key sample_init_omap_key sample_keycmp loop_node
           loop_node None (mkKey 7 0 0 None) 4048 1024).
  - vm_compute. reflexivity.
  - vm_compute. reflexivity.
  - vm_compute. reflexivity.
  - vm_compute. discriminate.
  - vm_compute. reflexivity.
  - intros fuel. left. vm_compute. reflexivity.
  - vm_compute. reflexivity.
  - vm_compute. reflexivity.
  - vm_compute. discriminate.
Defined.

(** The two-level omap [twin_disk]: the validator hands back the key of the
    last record of the right leaf. *)
Lemma parse_subtree_last_key_witness :
  exists leaves,
    run_leaf_keys twin_disk twin_root_node 5 twin_root_node None = Ret leaves
    /\ concat leaves <> []
    /\ mkKey 9 0 0 None = List.last (concat leaves) zero_key.
Proof.
  apply (parse_subtree_last_key 4096 twin_disk sample_csum sample_read_cat_key
           sample_read_omap_key sample_init_omap_key sample_keycmp twin_root_node
           5 twin_root_node None zero_key (mkKey 9 0 0 None)).
  - vm_compute. reflexivity.
  - vm_compute. reflexivity.
Defined.

(** The first record of the root of [twin_disk]: the keys of the left leaf
    lie between the two keys of the root. *)
Lemma separators_bound_subtrees_witness :
  exists k child leaves,
    record_key 4096 sample_read_cat_key sample_read_omap_key twin_root_node None 0 = Ret k
    /\ record_child 4096 twin_disk sample_csum sample_read_cat_key sample_read_omap_key
                    sample_init_omap_key sample_keycmp twin_root_node
                    4 twin_root_node None 0 = Ret child
    /\ run_leaf_keys twin_disk twin_root_node 4 child None = Ret leaves
    /\ Forall (key_le sample_keycmp k) (concat leaves)
    /\ (0 + 1 < node_records twin_root_node ->
        exists k',
          record_key 4096 sample_read_cat_key sample_read_omap_key
                     twin_root_node None (0 + 1) = Ret k'
          /\ Forall (fun x => key_le sample_keycmp x k') (concat leaves)).
Proof.
  apply (separators_bound_subtrees 4096 twin_disk sample_csum sample_read_cat_key
           sample_read_omap_key sample_init_omap_key sample_keycmp twin_root_node
           sample_keycmp_trans sample_keycmp_swap
           4 twin_root_node None zero_key (mkKey 9 0 0 None)).
  - vm_compute. reflexivity.
  - vm_compute. reflexivity.
  - split; [vm_compute; discriminate|vm_compute; reflexivity].
Defined.

(** The catalog of [cat_disk], found through its object map. *)
Lemma parse_cat_btree_checked_witness :
  exists bno leaves,
    run_omap_lookup cat_disk cat_omap_node 20 cat_omap_node 100 = Ret bno
    /\ run_read_node cat_disk bno = Ret cat_root_node
    /\ run_leaf_keys cat_disk cat_omap_node 20 cat_root_node (Some cat_omap_node)
       = Ret leaves
    /\ chain (key_le sample_keycmp) zero_key (concat leaves)
    /\ Forall (strict_leaf sample_keycmp) leaves.
Proof.
  apply (parse_cat_btree_checked 4096 cat_disk sample_csum sample_read_cat_key
           sample_read_omap_key sample_init_omap_key sample_keycmp cat_omap_node
           sample_keycmp_trans sample_keycmp_swap 20 100 cat_omap_node cat_root_node).
  vm_compute. reflexivity.
Defined.

(** The object map structure of [omap_phys_disk]. *)
Lemma parse_omap_btree_checked_witness :
  exists raw leaves,
    omap_phys_disk !! 500 = Some raw
    /\ sample_csum raw = true
    /\ le64_to_cpu raw o_oid_off = 500
    /\ run_read_node omap_phys_disk (le64_to_cpu raw 48) = Ret omap_root_node
    /\ run_leaf_keys omap_phys_disk omap_root_node 5 omap_root_node None = Ret leaves
    /\ chain (key_le sample_keycmp) zero_key (concat leaves)
    /\ Forall (strict_leaf sample_keycmp) leaves.
Proof.
  apply (proj1 (parse_omap_btree_checked 4096 omap_phys_disk sample_csum
                  sample_read_cat_key sample_read_omap_key sample_init_omap_key
                  sample_keycmp omap_root_node
                  sample_keycmp_trans sample_keycmp_swap 48 5 500)).
  vm_compute. reflexivity.
Defined.

(** ** mkapfs *)

(** A container of 1 GiB and one byte, with a limit of 100 volumes. *)
Lemma get_max_volumes_spec_witness :
  0 <= get_max_volumes 100 (2 ^ 30 + 1) <= 100
  /\ (0 <= 2 ^ 30 + 1 <= 2 ^ 61 - 2 ^ 29 ->
      exists units,
        2 ^ 29 * (units - 1) < 2 ^ 30 + 1 <= 2 ^ 29 * units
        /\ get_max_volumes 100 (2 ^ 30 + 1) = Z.min 100 units).
Proof. apply (get_max_volumes_spec 100 (2 ^ 30 + 1)). lia. Defined.

(** A container of 2^61 bytes and one more. *)
Lemma get_max_volumes_wraps_witness :
  get_max_volumes 100 (1 + 2 ^ 61) = get_max_volumes 100 1.
Proof. apply (get_max_volumes_wraps 100 1); lia. Defined.

(** A minimum of 8 blocks, 4 structures, version 1. *)
Lemma ephemeral_info_fields_witness :
  0 <= set_ephemeral_info 8 4 1 < 2 ^ 64
  /\ Z.shiftr (set_ephemeral_info 8 4 1) 32 = 8
  /\ Z.land (Z.shiftr (set_ephemeral_info 8 4 1) 16) 65535 = 4
  /\ Z.land (set_ephemeral_info 8 4 1) 65535 = 1.
Proof. apply (ephemeral_info_fields 8 4 1); lia. Defined.
